(** * ComfyUI-GlifNodes: a shallow embedding of [nodes.py]

    The development follows the source file top to bottom: the helpers that
    resolve an artifact reference to a local file ([find_or_create_cache],
    [download_file], [get_filename_from_url], [get_lora_from_url]), the two
    LoRA loader nodes, the film grain filter, the padding node and the float
    ramp node; then the consistency decoder, the aspect ratio node, the
    crop to a multiple, the embedding loader and the variable node.

    Conventions.
    - A Python [str] is a [string]; a character is a code point below 256.
    - Exceptions are values of [exn]; every effectful function runs in the
      monad [M], which threads the [World] and keeps it when an exception is
      raised.
    - Python floats are idealised as real numbers, except in the float ramp
      node: what is claimed of it turns on single roundings, so there a
      float is a binary64 number. *)

From Stdlib Require Import String Ascii List ZArith Lia Bool Reals Lra.
From Stdlib Require Import DecimalString DecimalPos DecimalZ.
From Stdlib Require PrimFloat Uint63.
From stdpp Require Import gmap strings.
Import ListNotations.

Local Open Scope string_scope.
Local Open Scope list_scope.

(** Let [simpl] compute string concatenation. *)
Arguments String.append !s1 s2 : simpl nomatch.

(** ** Python string built-ins *)

Module PyStr.

(** [str.isspace] on code points below 256. *)
Definition isspace (c : ascii) : bool :=
  match N_of_ascii c with
  | 9 | 10 | 11 | 12 | 13 | 28 | 29 | 30 | 31 | 32 | 133 | 160 => true
  | _ => false
  end%N.

Fixpoint lstrip (s : string) : string :=
  match s with
  | EmptyString => EmptyString
  | String c s' => if isspace c then lstrip s' else s
  end.

Fixpoint rstrip (s : string) : string :=
  match s with
  | EmptyString => EmptyString
  | String c s' =>
      match rstrip s' with
      | EmptyString => if isspace c then EmptyString else String c EmptyString
      | r => String c r
      end
  end.

(** [s.strip()] *)
Definition strip (s : string) : string := rstrip (lstrip s).

(** [s.startswith(p)] *)
Fixpoint startswith (s p : string) {struct p} : bool :=
  match p, s with
  | EmptyString, _ => true
  | String _ _, EmptyString => false
  | String a p', String b s' => Ascii.eqb a b && startswith s' p'
  end.

(** [s.endswith(p)] *)
Fixpoint endswith (s p : string) : bool :=
  String.eqb s p ||
  match s with
  | EmptyString => false
  | String _ s' => endswith s' p
  end.

(** [sub in s] *)
Fixpoint contains (sub s : string) : bool :=
  startswith s sub ||
  match s with
  | EmptyString => false
  | String _ s' => contains sub s'
  end.

(** [s[n:]] *)
Fixpoint drop (n : nat) (s : string) : string :=
  match n, s with
  | O, _ => s
  | S _, EmptyString => EmptyString
  | S n', String _ s' => drop n' s'
  end.

(** [s[:n]] *)
Fixpoint take (n : nat) (s : string) : string :=
  match n, s with
  | O, _ => EmptyString
  | S _, EmptyString => EmptyString
  | S n', String c s' => String c (take n' s')
  end.

(** [s[:-n]] for [n > 0] *)
Definition drop_last (n : nat) (s : string) : string :=
  take (String.length s - n) s.

(** The first occurrence of [sep] in [s], as the text before it and the
    text after it ([s.partition(sep)] without its middle component). *)
Fixpoint partition (sep s : string) : option (string * string) :=
  if startswith s sep then Some (EmptyString, drop (String.length sep) s)
  else
    match s with
    | EmptyString => None
    | String c s' =>
        match partition sep s' with
        | Some (b, a) => Some (String c b, a)
        | None => None
        end
    end.

(** [s.split(sep)] for a non-empty [sep]: cut at every occurrence, scanning
    from the left.  The fuel bounds the number of cuts. *)
Fixpoint split_fuel (fuel : nat) (sep s : string) : list string :=
  match fuel with
  | O => [s]
  | S fuel' =>
      match partition sep s with
      | None => [s]
      | Some (b, a) => b :: split_fuel fuel' sep a
      end
  end.

Definition split (sep s : string) : list string :=
  split_fuel (String.length s) sep s.

(** [s.replace(old, new)] for a non-empty [old]. *)
Fixpoint replace_fuel (fuel : nat) (old new s : string) : string :=
  match fuel with
  | O => s
  | S fuel' =>
      match partition old s with
      | None => s
      | Some (b, a) => b +:+ new +:+ replace_fuel fuel' old new a
      end
  end.

Definition replace (old new s : string) : string :=
  replace_fuel (String.length s) old new s.

(** [sep.join(l)] *)
Fixpoint join (sep : string) (l : list string) : string :=
  match l with
  | [] => EmptyString
  | [x] => x
  | x :: l' => x +:+ sep +:+ join sep l'
  end.

(** [str.lower] on code points below 256: the ASCII capitals and the
    Latin-1 capitals 192..222 other than 215 move up by 32. *)
Definition lower_char (c : ascii) : ascii :=
  let n := N_of_ascii c in
  if ((65 <=? n) && (n <=? 90) || (192 <=? n) && (n <=? 222) && negb (n =? 215))%N
  then ascii_of_N (n + 32) else c.

Fixpoint lower (s : string) : string :=
  match s with
  | EmptyString => EmptyString
  | String c s' => String (lower_char c) (lower s')
  end.

(** [l[-1]] of a list of strings *)
Definition last_item (l : list string) : option string := List.last (map Some l) None.

(** [l[5:-1]] *)
Definition slice_5_to_last (l : list string) : list string := removelast (skipn 5 l).

End PyStr.

(** ** POSIX paths ([os.path]) *)

Module PosixPath.

(** [os.path.join(a, b)] *)
Definition join (a b : string) : string :=
  if PyStr.startswith b "/" then b
  else if String.eqb a "" || PyStr.endswith a "/" then a +:+ b
  else a +:+ "/" +:+ b.

(** [os.path.join(a, b, c)] *)
Definition join3 (a b c : string) : string := join (join a b) c.

(** [p[:i], p[i:]] for [i = p.rfind('/') + 1] *)
Fixpoint cut_last_slash (p : string) : string * string :=
  match p with
  | EmptyString => (EmptyString, EmptyString)
  | String c p' =>
      match cut_last_slash p' with
      | (EmptyString, t) =>
          if Ascii.eqb c "/" then (String c EmptyString, p') else (EmptyString, String c t)
      | (h, t) => (String c h, t)
      end
  end.

(** [s.rstrip('/')] *)
Fixpoint rstrip_slash (s : string) : string :=
  match s with
  | EmptyString => EmptyString
  | String c s' =>
      match rstrip_slash s' with
      | EmptyString => if Ascii.eqb c "/" then EmptyString else String c EmptyString
      | r => String c r
      end
  end.

(** [s == '/' * len(s)] *)
Fixpoint all_slashes (s : string) : bool :=
  match s with
  | EmptyString => true
  | String c s' => Ascii.eqb c "/" && all_slashes s'
  end.

(** [os.path.split(p)] *)
Definition split (p : string) : string * string :=
  let (head, tail) := cut_last_slash p in
  if negb (String.eqb head "") && negb (all_slashes head)
  then (rstrip_slash head, tail) else (head, tail).

(** [os.path.dirname(p)] *)
Definition dirname (p : string) : string := fst (split p).

End PosixPath.

(** ** The host: exceptions, events, world, effects *)

Inductive exn : Type :=
| ValueError (msg : string)
| IndexError
| DownloadFailed (status_code : Z)   (* the plain [Exception] of [download_file] *)
| FileExistsError (path : string)
| IsADirectoryError (path : string)
| FileNotFoundError (path : string)
| ZeroDivisionError
| ExternalError (msg : string).      (* raised inside a library call *)

Inductive result (A : Type) : Type :=
| Ok (a : A)
| Raise (e : exn).
Arguments Ok {A} a.
Arguments Raise {A} e.

(** The keyword arguments of [hf_hub_download]. *)
Record HubRequest : Type := mkHubRequest {
  repo_id : string;
  filename : string;
  subfolder : option string;
  cache_dir : string
}.

(** What [requests.get] hands back. *)
Record Response : Type := mkResponse {
  status_code : Z;
  content : string
}.

(** Observable actions, in the order they happen. *)
Inductive Event : Type :=
| EvPrint (text : string)
| EvMkdir (path : string)
| EvWrite (path : string)
| EvHttpGet (url : string)
| EvHubDownload (req : HubRequest)
| EvLoadFile (path : string).

Definition is_network (e : Event) : bool :=
  match e with
  | EvHttpGet _ | EvHubDownload _ => true
  | _ => false
  end.

Record World : Type := mkWorld {
  cwd : string;                      (* os.getcwd() *)
  dirs : gset string;                (* directories that exist *)
  files : gmap string string;        (* regular files and their contents *)
  environ : gmap string string;      (* os.environ *)
  trace : list Event
}.

(** Library code the module calls but does not define. *)
Class Externals : Type := {
  (** [hashlib.md5(s.encode()).digest()] *)
  md5_digest : string -> list ascii;
  (** the remote side of [hf_hub_download]: the local path it returns and
      the contents it stores there *)
  hub_fetch : HubRequest -> result (string * string);
  (** the remote side of [requests.get(url, allow_redirects=True)] *)
  http_fetch : string -> result Response
}.

(** Effectful code threads a state [S] and may raise: the state survives an
    exception, as side effects do in Python. *)
Definition St (S A : Type) : Type := S -> result A * S.

(** Module-level functions act on the [World] alone. *)
Definition M (A : Type) : Type := St World A.

Definition ret {S A} (a : A) : St S A := fun s => (Ok a, s).

Definition raise {S A} (e : exn) : St S A := fun s => (Raise e, s).

Definition bind {S A B} (m : St S A) (k : A -> St S B) : St S B :=
  fun s =>
    match m s with
    | (Ok a, s') => k a s'
    | (Raise e, s') => (Raise e, s')
    end.

Notation "'do' x <- m ; k" := (bind m (fun x => k))
  (at level 10, x name, m at level 100, k at level 200).
Notation "'do_' m ; k" := (bind m (fun _ => k))
  (at level 10, m at level 100, k at level 200).

Definition emit (e : Event) : M unit :=
  fun w => (Ok tt, mkWorld (cwd w) (dirs w) (files w) (environ w) (trace w ++ [e])).

Definition lift_result {S A} (r : result A) : St S A := fun s => (r, s).

(** [l[i]] *)
Definition item (l : list string) (i : nat) : M string :=
  match nth_error l i with
  | Some x => ret x
  | None => raise IndexError
  end.

(** [l[-1]] *)
Definition item_last (l : list string) : M string :=
  match PyStr.last_item l with
  | Some x => ret x
  | None => raise IndexError
  end.

Module Os.

Definition getcwd : M string := fun w => (Ok (cwd w), w).

Definition exists_in (w : World) (p : string) : bool :=
  bool_decide (p ∈ dirs w) || bool_decide (p ∈ dom (files w)).

(** [os.path.exists(p)] *)
Definition path_exists (p : string) : M bool := fun w => (Ok (exists_in w p), w).

(** [os.mkdir(p)]: refuses the empty path and an existing one.  The state
    of the parent is not looked at: it is taken to be a directory, as it is
    wherever the module creates one on a disk in order (under the working
    directory, and from [makedirs], which makes the parent first).  What is
    proved of a call that returns holds of the source, which returns in
    no more cases. *)
Definition mkdir (p : string) : M unit :=
  fun w =>
    if String.eqb p "" then (Raise (FileNotFoundError p), w)
    else if exists_in w p then (Raise (FileExistsError p), w)
    else (Ok tt, mkWorld (cwd w) ({[p]} ∪ dirs w) (files w) (environ w) (trace w ++ [EvMkdir p])).

(** [os.makedirs(name, exist_ok=True)], after the standard library: create
    the missing ancestors first, then the directory; an existing directory
    is accepted. *)
Fixpoint makedirs_fuel (fuel : nat) (name : string) : M unit :=
  match fuel with
  | O => raise (ExternalError "RecursionError")
  | S fuel' =>
      let (head0, tail0) := PosixPath.split name in
      let (head, tail) :=
        if String.eqb tail0 "" then PosixPath.split head0 else (head0, tail0) in
      let create :=
        fun w =>
          match mkdir name w with
          | (Raise e, w') =>
              if bool_decide (name ∈ dirs w') then (Ok tt, w') else (Raise e, w')
          | r => r
          end in
      do head_exists <- path_exists head;
      if negb (String.eqb head "") && negb (String.eqb tail "") && negb head_exists then
        do_ (fun w =>
               match makedirs_fuel fuel' head w with
               | (Raise (FileExistsError _), w') => (Ok tt, w')
               | r => r
               end);
        if String.eqb tail "." then ret tt else create
      else create
  end.

Definition makedirs (name : string) : M unit :=
  makedirs_fuel (S (String.length name)) name.

(** [with open(p, 'wb') as f: f.write(data)]: opening refuses a directory;
    once the file is open the write is taken to go through, so the file
    holds the data when the call returns. *)
Definition write_file (p data : string) : M unit :=
  fun w =>
    if bool_decide (p ∈ dirs w) then (Raise (IsADirectoryError p), w)
    else (Ok tt, mkWorld (cwd w) (dirs w) (<[p := data]> (files w)) (environ w)
                         (trace w ++ [EvWrite p])).

(** [os.environ] lookup: [k in os.environ] and [os.environ[k]] in one. *)
Definition getenv (k : string) : M (option string) := fun w => (Ok (environ w !! k), w).

End Os.

(** ** The resolver *)

Section Resolver.
Context `{Ext : Externals}.

(** [requests.get(url, allow_redirects=True)] *)
Definition requests_get (url : string) : M Response :=
  do_ emit (EvHttpGet url);
  lift_result (http_fetch url).

(** [hf_hub_download(repo_id=.., filename=.., subfolder=.., cache_dir=..)] *)
Definition hf_hub_download (req : HubRequest) : M string :=
  do_ emit (EvHubDownload req);
  do r <- lift_result (hub_fetch req);
  fun w => (Ok (fst r), mkWorld (cwd w) (dirs w) (<[fst r := snd r]> (files w))
                                (environ w) (trace w)).

Definition find_or_create_cache : M string :=
  do cwd0 <- Os.getcwd;
  do e1 <- Os.path_exists (PosixPath.join cwd0 "ComfyUI");
  let cwd1 := if e1 then PosixPath.join cwd0 "ComfyUI" else cwd0 in
  do e2 <- Os.path_exists (PosixPath.join cwd1 "models");
  let cwd2 := if e2 then PosixPath.join cwd1 "models" else cwd1 in
  do e3 <- Os.path_exists (PosixPath.join cwd2 "huggingface_cache");
  do_ (if negb e3 then
         do_ emit (EvPrint "Creating huggingface_cache directory within comfy");
         Os.mkdir (PosixPath.join cwd2 "huggingface_cache")
       else ret tt);
  ret (PosixPath.join cwd2 "huggingface_cache").

Definition download_file (url filename : string) : M unit :=
  do_ Os.makedirs (PosixPath.dirname filename);
  do response <- requests_get url;
  if (status_code response =? 200)%Z then
    Os.write_file filename (content response)
  else
    raise (DownloadFailed (status_code response)).

(** [bytes.hex()]: two lower-case hexadecimal digits per byte. *)
Definition hex_digit (n : N) : ascii :=
  if (n <? 10)%N then ascii_of_N (48 + n) else ascii_of_N (87 + n).

Fixpoint hex (bytes : list ascii) : string :=
  match bytes with
  | [] => EmptyString
  | b :: bytes' =>
      String (hex_digit (N_of_ascii b / 16)) (String (hex_digit (N_of_ascii b mod 16)) (hex bytes'))
  end.

Definition get_filename_from_url (url extension : string) : string :=
  let filename := hex (md5_digest url) in
  filename +:+ "." +:+ extension.

Definition get_lora_from_url (url : string) : M string :=
  let url := PyStr.strip url in
  if String.eqb url "" then raise (ValueError "URL is empty")
  else if negb (PyStr.startswith url "http") then raise (ValueError "Invalid URL")
  else if PyStr.contains "huggingface.co" url then
    let url := if PyStr.endswith url "?download=true"
               then PyStr.drop_last (String.length "?download=true") url else url in
    let url := if PyStr.contains "/blob/" url
               then PyStr.replace "/blob/" "/resolve/" url else url in
    if negb (PyStr.endswith (PyStr.lower url) "safetensors") then
      raise (ValueError "Only safetensors files are supported.")
    else
      let parser_string := PyStr.replace "https://" "" (PyStr.replace "http://" "" url) in
      let parts := PyStr.split "/" parser_string in
      do p1 <- item parts 1;
      do p2 <- item parts 2;
      let repo_id := p1 +:+ "/" +:+ p2 in
      do filename <- item_last parts;
      let subfolder_length := (Z.of_nat (List.length parts) - 6)%Z in
      let subfolder :=
        if (subfolder_length >? 0)%Z
        then Some (PyStr.join "/" (PyStr.slice_5_to_last parts)) else None in
      do cache <- find_or_create_cache;
      hf_hub_download (mkHubRequest (PyStr.strip repo_id) (PyStr.strip filename) subfolder cache)
  else if PyStr.contains "civitai.com" url then
    do url <- (if PyStr.contains "modelVersionId" url then
                 do model_version_id <- item (PyStr.split "modelVersionId=" url) 1;
                 do model_version_id <- item (PyStr.split "&" model_version_id) 0;
                 ret ("https://civitai.com/api/download/models/" +:+ model_version_id
                        +:+ "?type=Model&format=SafeTensor")
               else ret url);
    if negb (PyStr.contains "SafeTensor" url) then
      raise (ValueError "Only safetensors files are supported for security reasons.")
    else
      let save_filename := get_filename_from_url url "safetensors" in
      do key <- Os.getenv "CIVITAI_API_KEY";
      let url := match key with
                 | Some api_key =>
                     if negb (String.eqb (PyStr.strip api_key) "")
                     then url +:+ "&token=" +:+ api_key else url
                 | None => url
                 end in
      do cache <- find_or_create_cache;
      let lora_path := PosixPath.join3 cache "civitai" save_filename in
      do present <- Os.path_exists lora_path;
      do_ (if negb present then download_file url lora_path else ret tt);
      ret lora_path
  else
    do first <- item (PyStr.split "?" (PyStr.lower url)) 0;
    if negb (PyStr.endswith first "safetensors") then
      raise (ValueError "Only safetensors files are supported for security reasons.")
    else
      let save_filename := get_filename_from_url url "safetensors" in
      do cache <- find_or_create_cache;
      let lora_path := PosixPath.join3 cache "general" save_filename in
      do present <- Os.path_exists lora_path;
      do_ (if negb present then download_file url lora_path else ret tt);
      ret lora_path.

End Resolver.

(** ** The LoRA loader nodes *)

(** The parts of ComfyUI the loaders rely on. *)
Class Comfy : Type := {
  ModelT : Type;
  ClipT : Type;
  Payload : Type;
  (** what [comfy.utils.load_torch_file(.., safe_load=True)] makes of a
      file's contents *)
  parse_torch_file : string -> result Payload;
  (** [comfy.sd.load_lora_for_models] *)
  load_lora_for_models : ModelT -> ClipT -> Payload -> R -> R -> result (ModelT * ClipT)
}.

Section Loaders.
Context `{Ext : Externals} `{Cmf : Comfy}.

(** The two attributes set by [__init__]; both start as [None]. *)
Record LoaderSelf : Type := mkLoaderSelf {
  loaded_lora : option Payload;
  loaded_lora_path : option string
}.

Definition loader_init : LoaderSelf := mkLoaderSelf None None.

(** A method runs on the instance and the world. *)
Definition Method (A : Type) : Type := St (LoaderSelf * World) A.

Definition in_world {A} (m : M A) : Method A :=
  fun sw => let (r, w') := m (snd sw) in (r, (fst sw, w')).

Definition get_self : Method LoaderSelf := fun sw => (Ok (fst sw), sw).

Definition set_loaded_lora (v : option Payload) : Method unit :=
  fun sw => (Ok tt, (mkLoaderSelf v (loaded_lora_path (fst sw)), snd sw)).

Definition set_loaded_lora_path (v : option string) : Method unit :=
  fun sw => (Ok tt, (mkLoaderSelf (loaded_lora (fst sw)) v, snd sw)).

(** [comfy.utils.load_torch_file(path, safe_load=True)] *)
Definition load_torch_file (path : string) : M Payload :=
  do_ emit (EvLoadFile path);
  fun w =>
    match files w !! path with
    | Some data => (parse_torch_file data, w)
    | None => (Raise (FileNotFoundError path), w)
    end.

(** [x == 0] on floats *)
Definition is_zero (x : R) : bool := if Req_dec_T x 0 then true else false.

(** [self.loaded_lora_path == lora_path] *)
Definition path_matches (stored : option string) (lora_path : string) : bool :=
  match stored with
  | Some p => String.eqb p lora_path
  | None => false
  end.

(** Lines 625-638 (and 344-357): look the path up in the one-slot cache,
    evict on a different path, load on a miss. *)
Definition cached_or_load (lora_path : string) : Method Payload :=
  do self <- get_self;
  do lora <- (match loaded_lora self with
              | Some l =>
                  if path_matches (loaded_lora_path self) lora_path then ret (Some l)
                  else
                    do_ set_loaded_lora None;
                    do_ set_loaded_lora_path None;
                    ret None
              | None => ret None
              end);
  match lora with
  | Some l => ret l
  | None =>
      do l <- in_world (load_torch_file lora_path);
      do_ set_loaded_lora (Some l);
      do_ set_loaded_lora_path (Some lora_path);
      ret l
  end.

Definition LoraLoaderFromURL_load_lora
    (model : ModelT) (clip : ClipT) (url : string) (strength_model strength_clip : R)
  : Method (ModelT * ClipT) :=
  if is_zero strength_model && is_zero strength_clip then ret (model, clip)
  else
    do lora_path <- in_world (get_lora_from_url url);
    do lora <- cached_or_load lora_path;
    lift_result (load_lora_for_models model clip lora strength_model strength_clip).

(** Lines 335-342: the hub loader's own call of [hf_hub_download]. *)
Definition HFHubLoraLoader_lora_path (repo sub file : string) : M string :=
  let sub' := if String.eqb (PyStr.strip sub) "" then None else Some (PyStr.strip sub) in
  do cache <- find_or_create_cache;
  hf_hub_download (mkHubRequest (PyStr.strip repo) (PyStr.strip file) sub' cache).

Definition HFHubLoraLoader_load_lora
    (model : ModelT) (clip : ClipT) (repo : string) (sub : string) (file : string)
    (strength_model strength_clip : R)
  : Method (ModelT * ClipT) :=
  if is_zero strength_model && is_zero strength_clip then ret (model, clip)
  else
    do lora_path <- in_world (HFHubLoraLoader_lora_path repo sub file);
    do lora <- cached_or_load lora_path;
    lift_result (load_lora_for_models model clip lora strength_model strength_clip).

End Loaders.

(** ** Images *)

(** An [IMAGE] is a float tensor of shape [batch, height, width, channels],
    held as its shape and its entries. *)
Record Image : Type := mkImage {
  batch : Z;
  height : Z;
  width : Z;
  channels : Z;
  px : Z -> Z -> Z -> Z -> R       (* image[b, y, x, c] *)
}.

(** [image.shape] *)
Definition shape (im : Image) : Z * Z * Z * Z :=
  (batch im, height im, width im, channels im).

(** ** ImagePaddingAdvanced *)

Module ImagePaddingAdvanced.

Local Open Scope Z_scope.

Definition inside (lo n k : Z) : bool := (lo <=? k) && (k <? lo + n).

(** Index of the source entry that replicate padding copies. *)
Definition clamp_index (n k : Z) : Z := Z.max 0 (Z.min (n - 1) k).

(** Index of the source entry that reflect padding copies (the border entry
    is not repeated). *)
Definition reflect_index (n k : Z) : Z :=
  if k <? 0 then - k else if n <=? k then 2 * (n - 1) - k else k.

(** [torch.nn.functional.pad(image, (0, 0, l, r, t, b), mode=.., value=0)]
    on a 4-d tensor: nothing is added to the channel axis, [l], [r] go to
    the width axis and [t], [b] to the height axis.  Reflect padding is
    refused when a pad is not smaller than the axis it extends. *)
Definition pad_constant (im : Image) (l r t b : Z) : Image :=
  mkImage (batch im) (height im + t + b) (width im + l + r) (channels im)
    (fun n y x c =>
       if inside t (height im) y && inside l (width im) x
       then px im n (y - t) (x - l) c else 0%R).

Definition pad_replicate (im : Image) (l r t b : Z) : Image :=
  mkImage (batch im) (height im + t + b) (width im + l + r) (channels im)
    (fun n y x c =>
       px im n (clamp_index (height im) (y - t)) (clamp_index (width im) (x - l)) c).

Definition pad_reflect (im : Image) (l r t b : Z) : result Image :=
  if (l <? width im) && (r <? width im) && (t <? height im) && (b <? height im) then
    Ok (mkImage (batch im) (height im + t + b) (width im + l + r) (channels im)
          (fun n y x c =>
             px im n (reflect_index (height im) (y - t)) (reflect_index (width im) (x - l)) c))
  else Raise (ExternalError "Padding size should be less than the corresponding input dimension").

Definition run (image : Image) (width height : Z) (method : string) : result Image :=
  let '(_, orig_height, orig_width, _) := shape image in
  let pad_width := if width >? orig_width then width - orig_width else 0 in
  let pad_height := if height >? orig_height then height - orig_height else 0 in
  if (pad_height =? 0) && (pad_width =? 0) then Ok image
  else
    let pad_top := pad_height / 2 in
    let pad_bottom := pad_height - pad_top in
    let pad_left := pad_width / 2 in
    let pad_right := pad_width - pad_left in
    if String.eqb method "constant" then
      Ok (pad_constant image pad_left pad_right pad_top pad_bottom)
    else if String.eqb method "replicate" then
      Ok (pad_replicate image pad_left pad_right pad_top pad_bottom)
    else
      pad_reflect image pad_left pad_right pad_top pad_bottom.

End ImagePaddingAdvanced.

(** ** FilmGrainNode *)

Module FilmGrainNode.

Local Open Scope R_scope.

(** The entries of a 4-d tensor, indexed [b, y, x, c]. *)
Definition Tensor : Type := Z -> Z -> Z -> Z -> R.

(** The random draws and the resampling are torch's, which returns them
    for the sizes of an image: positive ones. *)
Class Torch : Type := {
  (** [torch.randn(b, h, w, 1)] and [torch.randn(b, h, w, c)] of this call *)
  randn_mono : Z -> Z -> Z -> Tensor;
  randn_color : Z -> Z -> Z -> Z -> Tensor;
  (** [interpolate(t.permute(0, 3, 1, 2), size=(h, w), mode='bilinear',
      align_corners=False).permute(0, 2, 3, 1)] *)
  interpolate_bilinear : Tensor -> Z -> Z -> Tensor
}.

(** [int(x)] on a float: truncation towards zero. *)
Definition py_int (x : R) : Z :=
  if Rle_dec 0 x then Int_part x else (- Int_part (- x))%Z.

(** [x % m] on floats, with the sign of the divisor. *)
Definition remainder (x m : R) : R := x - m * IZR (Int_part (x / m)).

(** [torch.clamp(x, 0, 1)] *)
Definition clamp01 (x : R) : R := Rmin 1 (Rmax 0 x).

Definition luminance (r g b : R) : R := 0.299 * r + 0.587 * g + 0.114 * b.

(** A quotient whose divisor may vanish.  In the hue formulas the divisor
    [diff] is zero only for a pixel with [r = g = b], where the numerator is
    zero as well: the float result is NaN, written [None]. *)
Definition nan_div (a b : R) : option R :=
  if Req_dec_T b 0 then None else Some (a / b).

Definition Req_b (a b : R) : bool := if Req_dec_T a b then true else false.
Definition Rlt_b (a b : R) : bool := if Rlt_dec a b then true else false.
Definition Rle_b (a b : R) : bool := if Rle_dec a b then true else false.

(** Lines 546-549 on one pixel: the hue, by three masked assignments. *)
Definition hue (r g b v diff : R) : option R :=
  let h : option R := Some 0 in
  let h := if Req_b r v
           then option_map (fun q => remainder q 360 / 360) (nan_div (60 * (g - b)) diff)
           else h in
  let h := if Req_b g v
           then option_map (fun q => (120 + q) / 360) (nan_div (60 * (b - r)) diff)
           else h in
  let h := if Req_b b v
           then option_map (fun q => (240 + q) / 360) (nan_div (60 * (r - g)) diff)
           else h in
  h.

(** Lines 556-571 on one pixel: [rgb] starts as zeros and is overwritten
    under each mask in turn.  Comparisons with a NaN hue are false, so no
    mask selects the pixel. *)
Definition sector_rgb (c : R) (h : option R) : R * R * R :=
  match h with
  | None => (0, 0, 0)
  | Some h =>
      let x := c * (1 - Rabs (remainder (h * 6) 2 - 1)) in
      let rgb := (0, 0, 0) in
      let rgb := if Rlt_b h (1/6) then (c, x, 0) else rgb in
      let rgb := if Rle_b (1/6) h && Rlt_b h (2/6) then (x, c, 0) else rgb in
      let rgb := if Rle_b (2/6) h && Rlt_b h (3/6) then (0, c, x) else rgb in
      let rgb := if Rle_b (3/6) h && Rlt_b h (4/6) then (0, x, c) else rgb in
      let rgb := if Rle_b (4/6) h && Rlt_b h (5/6) then (x, 0, c) else rgb in
      let rgb := if Rle_b (5/6) h then (c, 0, x) else rgb in
      rgb
  end.

(** Lines 534-573 on one pixel: to HSV, scale the saturation, back to RGB. *)
Definition adjust_saturation (image_saturation : R) (p : R * R * R) : R * R * R :=
  let '(r, g, b) := p in
  let max_rgb := Rmax (Rmax r g) b in
  let min_rgb := Rmin (Rmin r g) b in
  let diff := max_rgb - min_rgb in
  let v := max_rgb in
  let s := if Req_b v 0 then 0 else diff / v in
  let h := hue r g b v diff in
  let s := clamp01 (s * image_saturation) in
  let c := v * s in
  let m := v - c in
  let '(r', g', b') := sector_rgb c h in
  (r' + m, g' + m, b' + m).

(** Lines 522-579 on one pixel, given the noise at that pixel. *)
Definition grain_pixel (intensity brightness_impact image_saturation : R) (mode : string)
    (p noise : R * R * R) : R * R * R :=
  let '(r, g, b) := p in
  let '(n0, n1, n2) := noise in
  let brightness := luminance r g b in
  let brightness_factor := (1 - brightness_impact) + brightness_impact * brightness in
  let grainy :=
    (r + (n0 - 0.5) * intensity * brightness_factor,
     g + (n1 - 0.5) * intensity * brightness_factor,
     b + (n2 - 0.5) * intensity * brightness_factor) in
  let grainy :=
    if String.eqb mode "Color" then adjust_saturation image_saturation grainy
    else if String.eqb mode "Black and White" then
      let '(r1, g1, b1) := grainy in
      let y := luminance r1 g1 b1 in (y, y, y)
    else grainy in
  let '(r2, g2, b2) := grainy in
  (clamp01 r2, clamp01 g2, clamp01 b2).

Definition channel (p : R * R * R) (c : Z) : R :=
  let '(r, g, b) := p in
  if (c =? 0)%Z then r else if (c =? 1)%Z then g else b.

Section Apply.
Context `{T : Torch}.

(** Lines 502-519: the noise field, at the image's resolution. *)
Definition noise_field (image : Image) (grain_size grain_saturation : R) : Tensor :=
  let noise_h := Z.max 1 (py_int (IZR (height image) / grain_size)) in
  let noise_w := Z.max 1 (py_int (IZR (width image) / grain_size)) in
  let mono_noise := randn_mono (batch image) noise_h noise_w in
  let color_noise := randn_color (batch image) noise_h noise_w (channels image) in
  let noise : Tensor :=
    fun n y x c =>
      mono_noise n y x 0%Z * (1 - grain_saturation) + color_noise n y x c * grain_saturation in
  if Req_b grain_size 1 then noise
  else interpolate_bilinear noise (height image) (width image).

(** Lines 525-526 on one entry, for a channel beyond the first three: the
    grain of that channel, scaled by the brightness of the pixel [p]. *)
Definition grain_entry (intensity brightness_impact : R) (p : R * R * R) (v noise : R) : R :=
  let '(r, g, b) := p in
  let brightness_factor := (1 - brightness_impact) + brightness_impact * luminance r g b in
  v + (noise - 0.5) * intensity * brightness_factor.

(** The brightness of line 522 reads the channels 0, 1 and 2, so an image
    with fewer raises [IndexError].  In [Color] mode [rgb] has the channels
    of the image and is assigned stacks of three (lines 556-569): torch
    refuses that for an image with more than three channels.  [Black and
    White] repeats the luminance three times, whatever the image had; any
    other mode leaves the grainy image with the channels it has. *)
Definition apply_film_grain (image : Image)
    (intensity grain_size grain_saturation brightness_impact image_saturation : R)
    (mode : string) : result Image :=
  if Req_b grain_size 0 then Raise ZeroDivisionError
  else if (channels image <? 3)%Z then Raise IndexError
  else if String.eqb mode "Color" && negb (channels image =? 3)%Z then
    Raise (ExternalError "shape mismatch")
  else
    let noise := noise_field image grain_size grain_saturation in
    let recoloured := String.eqb mode "Color" || String.eqb mode "Black and White" in
    let out_channels := if String.eqb mode "Black and White" then 3%Z else channels image in
    Ok (mkImage (batch image) (height image) (width image) out_channels
          (fun n y x c =>
             let p := (px image n y x 0%Z, px image n y x 1%Z, px image n y x 2%Z) in
             if recoloured || (c <? 3)%Z then
               channel
                 (grain_pixel intensity brightness_impact image_saturation mode p
                    (noise n y x 0%Z, noise n y x 1%Z, noise n y x 2%Z))
                 c
             else
               clamp01 (grain_entry intensity brightness_impact p
                          (px image n y x c) (noise n y x c)))).

End Apply.

End FilmGrainNode.

(** ** FluxReduxFloatRamp *)

(** The inputs [start] and [end] of this node and the value it returns are
    Python floats, and the claims on it turn on single roundings: here a
    float is a binary64 number of the kernel, with its arithmetic. *)

Module FluxReduxFloatRamp.
Import PrimFloat.
Local Open Scope float_scope.

(** [math.exp] is the C library's. *)
Class Libm : Type := {
  math_exp : float -> float
}.

(** The class has no [__init__]: an instance carries the attributes [i] and
    [total_steps] only if somebody sets them. *)
Record Self : Type := mkSelf {
  attr_i : option Z;
  attr_total_steps : option Z
}.

(** A freshly constructed instance. *)
Definition fresh : Self := mkSelf None None.

(** An int as a float, exact up to [2^53] in magnitude. *)
Definition float_of_int (z : Z) : float :=
  if (z <? 0)%Z then - of_uint63 (Uint63.of_Z (- z)) else of_uint63 (Uint63.of_Z z).

(** [a / b] on two ints: the exact quotient, rounded once.  For operands
    that floats hold exactly -- up to [2^53] in magnitude, far beyond the
    step counts of the node, whose widget ends at 10000 -- this is the
    quotient of the two floats. *)
Definition true_div (a b : Z) : float := float_of_int a / float_of_int b.

Definition ease_in (x : float) : float := x * x.

Definition ease_out (x : float) : float := 1 - (1 - x) * (1 - x).

Definition ease_in_out (x : float) : float := x * x * (3 - 2 * x).

Definition smoothstep (x : float) : float := x * x * (3 - 2 * x).

Definition bounce (x : float) : float :=
  let n1 := 7.5625 in
  let d1 := 2.75 in
  if x <? 1 / d1 then n1 * x * x
  else if x <? 2 / d1 then
    let x := x - 1.5 / d1 in n1 * x * x + 0.75
  else if x <? 2.5 / d1 then
    let x := x - 2.25 / d1 in n1 * x * x + 0.9375
  else
    let x := x - 2.625 / d1 in n1 * x * x + 0.984375.

(** [getattr(self, name, default)] *)
Definition getattr (a : option Z) (default : Z) : Z :=
  match a with
  | Some v => v
  | None => default
  end.

Section Methods.
Context `{L : Libm}.

Definition exponential (x : float) : float := (math_exp x - 1) / (math_exp 1 - 1).

(** The method, as a step on the instance: the returned value (or the
    exception) and the instance afterwards. *)
Definition get_value (start end_ : float) (steps_threshold : Z) (ramp_type : string)
  : St Self float :=
  fun self =>
    let current_step := (getattr (attr_i self) 0 + 1)%Z in
    let total_steps := getattr (attr_total_steps self) steps_threshold in
    if (current_step >? steps_threshold)%Z then (Ok end_, self)
    else if (steps_threshold =? 0)%Z then (Raise ZeroDivisionError, self)
    else
      let progress := true_div current_step steps_threshold in
      let modified_progress :=
        if String.eqb ramp_type "linear" then progress
        else if String.eqb ramp_type "ease_in" then ease_in progress
        else if String.eqb ramp_type "ease_out" then ease_out progress
        else if String.eqb ramp_type "ease_in_out" then ease_in_out progress
        else if String.eqb ramp_type "exponential" then exponential progress
        else if String.eqb ramp_type "smoothstep" then smoothstep progress
        else if String.eqb ramp_type "bounce" then bounce progress
        else progress in
      let value := start + (end_ - start) * modified_progress in
      (Ok value, self).





End Methods.

End FluxReduxFloatRamp.
(** ** ConsistencyDecoder *)

Module ConsistencyDecoder.

Local Open Scope R_scope.

(** The tensor a VAE decodes to, of shape [batch, channels, height, width]. *)
Record Sample : Type := mkSample {
  s_batch : Z;
  s_channels : Z;
  s_height : Z;
  s_width : Z;
  s_at : Z -> Z -> Z -> Z -> R          (* sample[b, c, y, x] *)
}.

(** The decoder network [self.vae], loaded by [__init__]: what
    [self.vae.decode(latent.half().cuda()).sample] evaluates to. *)
Class Vae : Type := {
  LatentT : Type;
  vae_decode : LatentT -> result Sample
}.

(** [decode] looks a key up in a dict, which the resolver never does: its
    outcomes are those of [result] and [KeyError]. *)
Inductive outcome (A : Type) : Type :=
| Returned (a : A)
| KeyError (key : string)
| Raised (e : exn).
Arguments Returned {A} a.
Arguments KeyError {A} key.
Arguments Raised {A} e.

(** [x.clamp(-1, 1)] on one entry *)
Definition clamp11 (x : R) : R := Rmin 1 (Rmax (-1) x).

Section Decode.
Context `{V : Vae}.

Definition _decode (latent : LatentT) : result Sample := vae_decode latent.

(** [sample.clamp(-1, 1).movedim(1, -1).add(1.0).mul(0.5)]: the channel
    axis moves to the end. *)
Definition to_image (sample : Sample) : Image :=
  mkImage (s_batch sample) (s_height sample) (s_width sample) (s_channels sample)
    (fun b y x c => (clamp11 (s_at sample b c y x) + 1) * 0.5).

Definition decode (latent : gmap string LatentT) : outcome Image :=
  match latent !! "samples" with
  | None => KeyError "samples"
  | Some samples =>
      match _decode samples with
      | Ok sample => Returned (to_image sample)
      | Raise e => Raised e
      end
  end.

End Decode.

End ConsistencyDecoder.

(** ** SDXLAspectRatio *)

Module SDXLAspectRatio.

Local Open Scope R_scope.

(** The table of lines 223-237: ratio, width, height. *)
Definition aspect_ratios : list (R * Z * Z) :=
  [ (1 / 1, 1024%Z, 1024%Z);
    (2 / 3, 832%Z, 1216%Z);
    (3 / 4, 896%Z, 1152%Z);
    (5 / 8, 768%Z, 1216%Z);
    (9 / 16, 768%Z, 1344%Z);
    (9 / 19, 704%Z, 1472%Z);
    (9 / 21, 640%Z, 1536%Z);
    (3 / 2, 1216%Z, 832%Z);
    (4 / 3, 1152%Z, 896%Z);
    (8 / 5, 1216%Z, 768%Z);
    (16 / 9, 1344%Z, 768%Z);
    (19 / 9, 1472%Z, 704%Z);
    (21 / 9, 1536%Z, 640%Z) ].

(** The scan of [min(seq, key=key)]: an item replaces the best one so far
    only when its key is strictly smaller. *)
Fixpoint min_from {A : Type} (key : A -> R) (best : A) (l : list A) : A :=
  match l with
  | [] => best
  | x :: l' =>
      min_from key (if FilmGrainNode.Rlt_b (key x) (key best) then x else best) l'
  end.

(** [min(seq, key=key)] *)
Definition py_min {A : Type} (key : A -> R) (l : list A) : result A :=
  match l with
  | [] => Raise (ValueError "min() arg is an empty sequence")
  | x :: l' => Ok (min_from key x l')
  end.

(** The distances are compared as real numbers.  In binary64 two entries
    at the same distance from the aspect ratio can come out either way, so
    at such a tie the entry returned here need not be the one the float
    comparison picks. *)
Definition run (image : Image) : result (Z * Z) :=
  let '(_, height, width, _) := shape image in
  if (height =? 0)%Z then Raise ZeroDivisionError
  else
    let aspect_ratio := IZR width / IZR height in
    match py_min (fun x => Rabs (fst (fst x) - aspect_ratio)) aspect_ratios with
    | Ok closest => Ok (snd (fst closest), snd closest)
    | Raise e => Raise e
    end.

End SDXLAspectRatio.

(** ** ImageToMultipleOf *)

Module ImageToMultipleOf.

Local Open Scope Z_scope.

(** A slice bound [i] on an axis of length [n], as slicing adjusts it: a
    negative bound counts from the end, and both ends are clipped. *)
Definition slice_bound (n i : Z) : Z :=
  if i <? 0 then Z.max 0 (i + n) else Z.min i n.

(** [image[:, top:bottom, left:right, :]] *)
Definition crop (image : Image) (top bottom left right : Z) : Image :=
  let y0 := slice_bound (height image) top in
  let y1 := slice_bound (height image) bottom in
  let x0 := slice_bound (width image) left in
  let x1 := slice_bound (width image) right in
  mkImage (batch image) (Z.max 0 (y1 - y0)) (Z.max 0 (x1 - x0)) (channels image)
    (fun n y x c => px image n (y0 + y) (x0 + x) c).

(** The resampling of the rescale method is torch's:
    [F.interpolate(image.unsqueeze(0), size=(h, w), mode="bilinear",
    align_corners=False).squeeze(0)]. *)
Class Resample : Type := {
  interpolate_unsqueezed : Image -> Z -> Z -> result Image
}.

Section Run.
Context `{Rs : Resample}.

Definition run (image : Image) (multiple_of : Z) (method : string) : result Image :=
  let '(_, height, width, _) := shape image in
  if multiple_of =? 0 then Raise ZeroDivisionError
  else
    let new_height := height - height mod multiple_of in
    let new_width := width - width mod multiple_of in
    if String.eqb method "rescale" then
      interpolate_unsqueezed image new_height new_width
    else
      let top := (height - new_height) / 2 in
      let left := (width - new_width) / 2 in
      let bottom := top + new_height in
      let right := left + new_width in
      Ok (crop image top bottom left right).

End Run.

End ImageToMultipleOf.

(** ** HFHubEmbeddingLoader *)

(** ComfyUI's [folder_paths] module. *)
Class FolderPaths : Type := {
  get_folder_paths : string -> result (list string)
}.

Section EmbeddingLoader.
Context `{Ext : Externals} `{Cmf : Comfy} `{Fp : FolderPaths}.

Definition HFHubEmbeddingLoader_download_embedding
    (clip : ClipT) (repo_id subfolder filename : string) : M ClipT :=
  let repo_id' := PyStr.strip repo_id in
  let filename' := PyStr.strip filename in
  let subfolder' :=
    if String.eqb (PyStr.strip subfolder) "" then None else Some (PyStr.strip subfolder) in
  do paths <- lift_result (get_folder_paths "embeddings");
  do cache <- item paths 0;
  do_ hf_hub_download (mkHubRequest repo_id' filename' subfolder' cache);
  ret clip.

End EmbeddingLoader.

(** ** GlifVariable *)

Module GlifVariable.

Local Open Scope Z_scope.

(** What [do_it] takes from the interpreter: [float(s)], with the float
    type it returns, and the limit [sys.get_int_max_str_digits()] on the
    digits of a numeral (0 for none). *)
Class Builtins : Type := {
  FloatT : Type;
  float_zero : FloatT;                      (* 0.0 *)
  float_of_str : string -> option FloatT;   (* None: float(s) raises *)
  int_max_str_digits : nat
}.

Definition digit_value (c : ascii) : option Z :=
  let n := N_of_ascii c in
  if ((48 <=? n) && (n <=? 57))%N then Some (Z.of_N n - 48) else None.

(** The digits of a numeral, a single underscore allowed between two of
    them: the value read and the number of digits. *)
Fixpoint read_digits (s : string) (acc : Z) (count : nat) (after_digit : bool)
  : option (Z * nat) :=
  match s with
  | EmptyString => if after_digit then Some (acc, count) else None
  | String c s' =>
      if Ascii.eqb c "_" then
        if after_digit then read_digits s' acc count false else None
      else
        match digit_value c with
        | Some d => read_digits s' (10 * acc + d) (S count) true
        | None => None
        end
  end.

Section DoIt.
Context `{B : Builtins}.

(** [int(s)] for a text without surrounding whitespace, which is what
    [do_it] passes: an optional sign and a run of digits. [None]: the call
    raises [ValueError]. *)
Definition int_of_stripped (s : string) : option Z :=
  let '(negative, body) :=
    match s with
    | String "-" body => (true, body)
    | String "+" body => (false, body)
    | _ => (false, s)
    end in
  match read_digits body 0 0 false with
  | Some (v, count) =>
      if negb (Nat.eqb int_max_str_digits 0) && Nat.ltb int_max_str_digits count then None
      else Some (if negative then - v else v)
  | None => None
  end.

Definition do_it (variable fallback : string) : string * Z * FloatT :=
  let variable := PyStr.strip variable in
  let fallback := PyStr.strip fallback in
  let variable :=
    if String.eqb variable ""
       || (PyStr.startswith variable "{" && PyStr.endswith variable "}")
    then fallback else variable in
  let string_val := variable in
  let int_val := match int_of_stripped variable with Some v => v | None => 0 end in
  let float_val := match float_of_str variable with Some v => v | None => float_zero end in
  (string_val, int_val, float_val).

End DoIt.

End GlifVariable.


(** ** Vocabulary of the properties *)

Module StrSpec.

(** The character [c] occurs in [s]. *)
Fixpoint has_char (c : ascii) (s : string) : bool :=
  match s with
  | EmptyString => false
  | String x s' => Ascii.eqb x c || has_char c s'
  end.

(** [s] up to the first occurrence of [sep]; all of [s] when there is none
    ([s.split(sep)[0]]). *)
Definition before (sep s : string) : string :=
  match PyStr.partition sep s with
  | Some (b, _) => b
  | None => s
  end.

(** The part of a URL in front of the query string. *)
Definition url_path (url : string) : string := before "?" url.

Definition is_digit (c : ascii) : bool :=
  (48 <=? N_of_ascii c)%N && (N_of_ascii c <=? 57)%N.

Fixpoint all_digits (s : string) : bool :=
  match s with
  | EmptyString => true
  | String c s' => is_digit c && all_digits s'
  end.

(** No surrounding whitespace. *)
Definition trimmed (s : string) : Prop := PyStr.strip s = s.

(** A path segment: free of slashes and different from [other]. *)
Definition segment_but (other s : string) : Prop :=
  has_char "/" s = false /\ s <> other.

End StrSpec.

Module RampSpec.
Import FluxReduxFloatRamp PrimFloat.

(** The step index the node works from: the attribute [i], 0 when absent. *)
Definition step_index (self : Self) : Z := getattr (attr_i self) 0.

(** The ramp types whose curve rises monotonically from 0 to 1. *)
Definition monotonic_ramp (ramp_type : string) : bool :=
  existsb (String.eqb ramp_type)
    ["linear"; "ease_in"; "ease_out"; "ease_in_out"; "exponential"; "smoothstep"].

(** The thresholds whose steps a float holds exactly. *)
Definition exact_steps (n : Z) : Prop := (1 <= n <= 9007199254740992)%Z.

Section Curves.
Context `{L : Libm}.

(** The curve named by [ramp_type]; an unknown name means linear. *)
Definition curve (ramp_type : string) (x : float) : float :=
  if String.eqb ramp_type "ease_in" then ease_in x
  else if String.eqb ramp_type "ease_out" then ease_out x
  else if String.eqb ramp_type "ease_in_out" then ease_in_out x
  else if String.eqb ramp_type "exponential" then exponential x
  else if String.eqb ramp_type "smoothstep" then smoothstep x
  else if String.eqb ramp_type "bounce" then bounce x
  else x.

(** The value of the ramp at step [k] of [n], as the node computes it. *)
Definition value_at_step (k : Z) (start end_ : float) (n : Z) (ramp_type : string)
  : float :=
  (start + (end_ - start) * curve ramp_type (true_div k n))%float.

End Curves.

(** The test [f] on the [count] integers from [n] on. *)
Fixpoint all_from (count : nat) (n : Z) (f : Z -> bool) : bool :=
  match count with
  | O => true
  | S count' => f n && all_from count' (n + 1) f
  end.

(** Strictly between two floats, as a test. *)
Definition between (a b v : float) : bool :=
  ((a <? v)%float && (v <? b)%float) || ((b <? v)%float && (v <? a)%float).

(** A stand-in for the C library: a short series for [exp]. *)
Definition series_exp : Libm := {|
  math_exp := fun x => (1 + x + x * x / 2)%float
|}.

(** *** The same formulas in exact arithmetic *)

Local Open Scope R_scope.

Definition strictly_between (a b v : R) : Prop := a < v < b \/ b < v < a.

Definition exact_bounce (x : R) : R :=
  let n1 := 7.5625 in
  let d1 := 2.75 in
  if Rlt_dec x (1 / d1) then n1 * x * x
  else if Rlt_dec x (2 / d1) then
    let x := x - 1.5 / d1 in n1 * x * x + 0.75
  else if Rlt_dec x (2.5 / d1) then
    let x := x - 2.25 / d1 in n1 * x * x + 0.9375
  else
    let x := x - 2.625 / d1 in n1 * x * x + 0.984375.

(** The curves on real numbers, [exp] being the exponential function. *)
Definition exact_curve (ramp_type : string) (x : R) : R :=
  if String.eqb ramp_type "ease_in" then x * x
  else if String.eqb ramp_type "ease_out" then 1 - (1 - x) * (1 - x)
  else if String.eqb ramp_type "ease_in_out" then x * x * (3 - 2 * x)
  else if String.eqb ramp_type "exponential" then (exp x - 1) / (exp 1 - 1)
  else if String.eqb ramp_type "smoothstep" then x * x * (3 - 2 * x)
  else if String.eqb ramp_type "bounce" then exact_bounce x
  else x.

(** The value the formula of line 807 has at step [k] of [n] when nothing
    is rounded. *)
Definition exact_value (k : Z) (start end_ : R) (n : Z) (ramp_type : string) : R :=
  start + (end_ - start) * exact_curve ramp_type (IZR k / IZR n).

End RampSpec.

Module PaddingSpec.
Import ImagePaddingAdvanced.
Local Open Scope Z_scope.



Definition gradient : Image := mkImage 1 4 6 3 (fun _ y x _ => IZR (10 * y + x)).

End PaddingSpec.

Module PathSpec.

(** [a] as the front of a joined path: with its separating slash. *)
Definition dir_prefix (a : string) : string :=
  if String.eqb a "" || PyStr.endswith a "/" then a else a +:+ "/".

(** What the two cache sub-directory names have in common. *)
Definition plain_name (s : string) : Prop :=
  StrSpec.has_char "/" s = false /\ PosixPath.all_slashes s = false
  /\ PosixPath.rstrip_slash (s +:+ "/") = s
  /\ PyStr.startswith s "/" = false /\ PyStr.endswith s "/" = false.

End PathSpec.

Section ResolverSpec.
Context `{Ext : Externals}.

(** The three providers, decided on the trimmed reference in this order. *)
Definition is_hub (u : string) : bool := PyStr.contains "huggingface.co" u.

Definition is_marketplace (u : string) : bool :=
  negb (is_hub u) && PyStr.contains "civitai.com" u.

Definition is_generic (u : string) : bool :=
  negb (is_hub u) && negb (PyStr.contains "civitai.com" u).

(** A hub URL: owner, repository, revision, [N] intermediate segments and
    the file name. *)
Definition hub_url (owner repo revision : string) (segments : list string) (file : string)
  : string :=
  "https://huggingface.co/"
    +:+ PyStr.join "/" (owner :: repo :: "resolve" :: revision
                          :: segments ++ [file +:+ ".safetensors"]).

(** The subfolder [N] segments stand for. *)
Definition subfolder_of (segments : list string) : option string :=
  match segments with
  | [] => None
  | _ => Some (PyStr.join "/" segments)
  end.

(** The directory [find_or_create_cache] settles on. *)
Definition cache_root (w : World) : string :=
  let c0 := cwd w in
  let c1 := if Os.exists_in w (PosixPath.join c0 "ComfyUI")
            then PosixPath.join c0 "ComfyUI" else c0 in
  let c2 := if Os.exists_in w (PosixPath.join c1 "models")
            then PosixPath.join c1 "models" else c1 in
  PosixPath.join c2 "huggingface_cache".

(** The world once that directory is there. *)
Definition ensure_cache (w : World) : World :=
  if Os.exists_in w (cache_root w) then w
  else mkWorld (cwd w) ({[cache_root w]} ∪ dirs w) (files w) (environ w)
         ((trace w ++ [EvPrint "Creating huggingface_cache directory within comfy"])
            ++ [EvMkdir (cache_root w)]).

(** [w'] differs from [w] by what was done since, and every path that
    came into existence starts with the text of [root] (a coarse bound,
    enough to keep the probes of [find_or_create_cache] apart from what a
    download creates; [FsSpec.grows_in_cache] names the paths one by one). *)
Definition grows_under (root : string) (w w' : World) : Prop :=
  cwd w' = cwd w
  /\ environ w' = environ w
  /\ (forall q, Os.exists_in w q = true -> Os.exists_in w' q = true)
  /\ (forall q, Os.exists_in w' q = true ->
        Os.exists_in w q = true \/ exists t, q = root +:+ t).

(** The download URL civitai serves a model version under. *)
Definition canonical_url (model_version_id : string) : string :=
  "https://civitai.com/api/download/models/" +:+ model_version_id
    +:+ "?type=Model&format=SafeTensor".

(** Lines 101-104: the marketplace URL after the rewrite, when the rewrite
    does not fail. *)
Definition marketplace_url (u : string) : option string :=
  if PyStr.contains "modelVersionId" u then
    match nth_error (PyStr.split "modelVersionId=" u) 1 with
    | Some v => Some (canonical_url (StrSpec.before "&" v))
    | None => None
    end
  else Some u.

(** Lines 112-116: the URL that is requested, given the API key. *)
Definition with_token (key : option string) (u : string) : string :=
  match key with
  | Some api_key =>
      if negb (String.eqb (PyStr.strip api_key) "") then u +:+ "&token=" +:+ api_key else u
  | None => u
  end.

(** The common tail of the marketplace and generic branches: the cache path
    under [sub], and the download unless the file is there. *)
Definition cache_and_fetch (sub save_filename url : string) : M string :=
  do cache <- find_or_create_cache;
  let lora_path := PosixPath.join3 cache sub save_filename in
  do present <- Os.path_exists lora_path;
  do_ (if negb present then download_file url lora_path else ret tt);
  ret lora_path.

(** The same world with the variable [CIVITAI_API_KEY] set to [key], or
    unset. *)
Definition with_api_key (key : option string) (w : World) : World :=
  mkWorld (cwd w) (dirs w) (files w)
    (match key with
     | Some v => <["CIVITAI_API_KEY" := v]> (environ w)
     | None => delete "CIVITAI_API_KEY" (environ w)
     end)
    (trace w).

End ResolverSpec.

Module GrainSpec.
Import FilmGrainNode.
Local Open Scope R_scope.

(** Every entry of the image lies in [0, 1]. *)
Definition in_unit_range (image : Image) : Prop :=
  forall n y x c, 0 <= px image n y x c <= 1.

(** An image with something in it: torch resamples the noise to the height
    and width of the image (line 514), which must be positive. *)
Definition nonempty (image : Image) : Prop :=
  (0 < batch image)%Z /\ (0 < height image)%Z /\ (0 < width image)%Z.

(** The ranges the node declares for its float inputs (lines 461-490). *)
Definition declared
    (intensity grain_size grain_saturation brightness_impact image_saturation : R) : Prop :=
  0 <= intensity <= 1 /\ 0.5 <= grain_size <= 5 /\ 0 <= grain_saturation <= 1
  /\ 0 <= brightness_impact <= 1 /\ 0 <= image_saturation <= 2.

(** What is known of a pixel's largest and smallest channel. *)
Definition extremes (r g b v mn : R) : Prop :=
  (r <= v /\ g <= v /\ b <= v /\ (v = r \/ v = g \/ v = b))
  /\ (mn <= r /\ mn <= g /\ mn <= b /\ (mn = r \/ mn = g \/ mn = b)).

(** A stand-in for torch: a fixed noise value everywhere, resampling by
    copying. *)
Definition flat_noise : Torch := {|
  randn_mono := fun _ _ _ _ _ _ _ => 0.7;
  randn_color := fun _ _ _ _ _ _ _ _ => -0.4;
  interpolate_bilinear := fun t _ _ => t
|}.

(** One pure red pixel, and one orange pixel. *)
Definition red : Image :=
  mkImage 1 1 1 3 (fun _ _ _ c => if (c =? 0)%Z then 1 else 0).

Definition orange : Image :=
  mkImage 1 1 1 3 (fun _ _ _ c => if (c =? 0)%Z then 1 else if (c =? 1)%Z then 0.5 else 0).

(** The red pixel with an opaque alpha channel behind it, and a pixel of
    two channels. *)
Definition red_alpha : Image :=
  mkImage 1 1 1 4 (fun _ _ _ c => if (c =? 0)%Z || (c =? 3)%Z then 1 else 0).

Definition gray_alpha : Image :=
  mkImage 1 1 1 2 (fun _ _ _ c => if (c =? 0)%Z then 0.5 else 1).

End GrainSpec.

(** ** Sample environment for the examples *)

Module Sample.

(** A stand-in digest: the code points of the first four characters. *)
Definition digest (s : string) : list ascii := list_ascii_of_string (PyStr.take 4 s).

(** Every host answers 200 with the same body, except that a request to
    civitai without a token is refused. *)
Definition fetch (url : string) : result Response :=
  if PyStr.contains "civitai.com" url && negb (PyStr.contains "&token=" url)
  then Ok (mkResponse 401 "unauthorized")
  else Ok (mkResponse 200 "weights").

Definition externals : Externals := {|
  md5_digest := digest;
  hub_fetch := fun req => Ok (cache_dir req +:+ "/" +:+ filename req, "hub weights");
  http_fetch := fetch
|}.

(** An open marketplace: civitai answers 200 without a token as well. *)
Definition open_externals : Externals := {|
  md5_digest := digest;
  hub_fetch := fun req => Ok (cache_dir req +:+ "/" +:+ filename req, "hub weights");
  http_fetch := fun _ => Ok (mkResponse 200 "weights")
|}.

(** A model is the list of payloads patched into it. *)
Definition comfy : Comfy := {|
  ModelT := list string;
  ClipT := list string;
  Payload := string;
  parse_torch_file := fun data => Ok data;
  load_lora_for_models := fun model clip lora _ _ => Ok (lora :: model, lora :: clip)
|}.

(** An empty disk, no environment variables, nothing done yet. *)
Definition world : World := mkWorld "/srv" ∅ ∅ ∅ [].

End Sample.

Section LoaderSpec.
Context `{Ext : Externals} `{Cmf : Comfy}.

(** The inputs that decide which file a loader node asks for. *)
Inductive LoaderInput : Type :=
| FromURL (url : string)                 (* LoraLoaderFromURL *)
| FromHub (repo sub file : string).      (* HFHubLoraLoader *)

Definition resolve (i : LoaderInput) : M string :=
  match i with
  | FromURL url => get_lora_from_url url
  | FromHub repo sub file => HFHubLoraLoader_lora_path repo sub file
  end.

Definition load_lora (i : LoaderInput) (model : ModelT) (clip : ClipT)
    (strength_model strength_clip : R) : Method (ModelT * ClipT) :=
  match i with
  | FromURL url => LoraLoaderFromURL_load_lora model clip url strength_model strength_clip
  | FromHub repo sub file =>
      HFHubLoraLoader_load_lora model clip repo sub file strength_model strength_clip
  end.

(** A payload is held exactly when a path is recorded for it. *)
Definition paired (self : LoaderSelf) : Prop :=
  loaded_lora self = None <-> loaded_lora_path self = None.

End LoaderSpec.
(** ** Vocabulary of the further properties *)

Module TextSpec.

(** Nothing but whitespace. *)
Fixpoint all_space (s : string) : bool :=
  match s with
  | EmptyString => true
  | String c s' => PyStr.isspace c && all_space s'
  end.

(** A lower-case hexadecimal digit. *)
Definition is_hex (c : ascii) : bool :=
  let n := N_of_ascii c in
  ((48 <=? n) && (n <=? 57) || (97 <=? n) && (n <=? 102))%N.

Fixpoint all_hex (s : string) : bool :=
  match s with
  | EmptyString => true
  | String c s' => is_hex c && all_hex s'
  end.

End TextSpec.

Module FsSpec.

(** Every file of [w] is still there in [w'], with its contents. *)
Definition keeps_files (w w' : World) : Prop :=
  forall q data, files w !! q = Some data -> files w' !! q = Some data.

(** [w'] is [w] with more events in its trace. *)
Definition same_disk (w w' : World) : Prop :=
  cwd w' = cwd w /\ dirs w' = dirs w /\ files w' = files w /\ environ w' = environ w.

(** The paths a resolution may bring into existence, given the cache root:
    the root itself, its sub-directories [civitai] and [general], and in
    one of these a file named by a run of lower-case hexadecimal digits
    and [.safetensors]. *)
Definition cache_entry (root q : string) : Prop :=
  q = root
  \/ exists sub, (sub = "civitai" \/ sub = "general")
       /\ (q = root +:+ "/" +:+ sub
           \/ exists h, TextSpec.all_hex h = true
                /\ q = root +:+ "/" +:+ sub +:+ "/" +:+ h +:+ ".safetensors").

(** [w'] has the working directory and the environment of [w] and every
    path of [w]; what it has more is an entry of the cache at [root]. *)
Definition grows_in_cache (root : string) (w w' : World) : Prop :=
  cwd w' = cwd w
  /\ environ w' = environ w
  /\ (forall q, Os.exists_in w q = true -> Os.exists_in w' q = true)
  /\ (forall q, Os.exists_in w' q = true ->
        Os.exists_in w q = true \/ cache_entry root q).

End FsSpec.

Module HubSpec.

(** The URL of the same file as the hub's file viewer shows it, with
    [blob] where the download URL has [resolve]. *)
Definition hub_blob_url (owner repo revision : string) (segments : list string)
    (file : string) : string :=
  "https://huggingface.co/"
    +:+ PyStr.join "/" (owner :: repo :: "blob" :: revision
                          :: segments ++ [file +:+ ".safetensors"]).

(** Lines 61-66: a hub URL once the download marker is cut off and
    [/blob/] is turned into [/resolve/]. *)
Definition hub_normalise (url : string) : string :=
  let url := if PyStr.endswith url "?download=true"
             then PyStr.drop_last (String.length "?download=true") url else url in
  if PyStr.contains "/blob/" url then PyStr.replace "/blob/" "/resolve/" url else url.

End HubSpec.

Module ImageSpec.

Local Open Scope Z_scope.

(** The same shape, and the same entry at every index within the shape. *)
Definition same_image (a b : Image) : Prop :=
  shape a = shape b
  /\ forall n y x c, 0 <= y < height a -> 0 <= x < width a -> px a n y x c = px b n y x c.

(** The rows and columns [ImageToMultipleOf] cuts off in front. *)
Definition margin (size multiple_of : Z) : Z := (size mod multiple_of) / 2.

(** A 5 x 7 image whose entries tell their position. *)
Definition numbered : Image := mkImage 1 5 7 3 (fun _ y x _ => IZR (10 * y + x)).

End ImageSpec.

Module AspectSpec.

Local Open Scope R_scope.

(** The aspect ratio of an image, and how far a table entry is from it. *)
Definition aspect (image : Image) : R := IZR (width image) / IZR (height image).

Definition distance (image : Image) (entry : R * Z * Z) : R :=
  Rabs (fst (fst entry) - aspect image).

(** A blank image of the given width and height. *)
Definition blank (w h : Z) : Image := mkImage 1 h w 3 (fun _ _ _ _ => 0).

End AspectSpec.

Module GlifSpec.

(** Line 437: the variable was left empty, or as a placeholder in braces. *)
Definition unset (variable : string) : bool :=
  String.eqb variable ""
  || (PyStr.startswith variable "{" && PyStr.endswith variable "}").

(** [str(z)]: the decimal numeral of an integer. *)
Definition decimal (z : Z) : string := NilZero.string_of_int (Z.to_int z).

(** The number of digits of that numeral. *)
Definition numeral_digits (z : Z) : nat :=
  match Z.to_int z with
  | Decimal.Pos d | Decimal.Neg d => Decimal.nb_digits d
  end.

(** No whitespace anywhere. *)
Fixpoint no_space (s : string) : bool :=
  match s with
  | EmptyString => true
  | String c s' => negb (PyStr.isspace c) && no_space s'
  end.

(** A character that cannot occur inside a numeral. *)
Definition foreign (c : ascii) : bool :=
  match GlifVariable.digit_value c with
  | Some _ => false
  | None => negb (Ascii.eqb c "_")
  end.

(** The numerals the interpreter accepts: all of them without a limit, else
    those with no more digits than the limit. *)
Definition accepted `{B : GlifVariable.Builtins} (digits : nat) : Prop :=
  GlifVariable.int_max_str_digits = 0%nat
  \/ (digits <= GlifVariable.int_max_str_digits)%nat.

End GlifSpec.

(** ** Further sample environment for the examples *)

Module SampleMore.

(** ComfyUI with one embeddings folder, and with none. *)
Definition folders : FolderPaths := {|
  get_folder_paths := fun name =>
    if String.eqb name "embeddings" then Ok ["/srv/models/embeddings"]
    else Raise (ExternalError "KeyError")
|}.

Definition no_folders : FolderPaths := {|
  get_folder_paths := fun _ => Ok []
|}.

(** A stand-in for the resampling of the rescale method: refused. *)
Definition no_resample : ImageToMultipleOf.Resample := {|
  ImageToMultipleOf.interpolate_unsqueezed := fun _ _ _ => Raise (ExternalError "interpolate")
|}.

(** A stand-in decoder: a latent is a number, decoded to a 2 x 2 sample of
    three channels that holds the number everywhere. *)
Definition flat_vae : ConsistencyDecoder.Vae := {|
  ConsistencyDecoder.LatentT := R;
  ConsistencyDecoder.vae_decode := fun v =>
    Ok (ConsistencyDecoder.mkSample 1 3 2 2 (fun _ _ _ _ => v))
|}.

(** A stand-in for the interpreter: floats that are whole numbers, read
    from plain runs of digits; the usual limit on numerals. *)
Definition builtins : GlifVariable.Builtins := {|
  GlifVariable.FloatT := Z;
  GlifVariable.float_zero := 0%Z;
  GlifVariable.float_of_str := fun s =>
    option_map fst (GlifVariable.read_digits s 0 0 false);
  GlifVariable.int_max_str_digits := 4300
|}.

End SampleMore.


(** ** Facts about the string built-ins *)

Module PyStrFacts.
Import PyStr StrSpec.

Lemma app_nil_r (s : string) : s +:+ "" = s.
Proof. induction s as [|c s IH]; cbn; [reflexivity|now rewrite IH]. Qed.

Lemma app_assoc (a b c : string) : (a +:+ b) +:+ c = a +:+ (b +:+ c).
Proof. induction a as [|x a IH]; cbn; [reflexivity|now rewrite IH]. Qed.

Lemma length_app (a b : string) :
  String.length (a +:+ b) = String.length a + String.length b.
Proof. induction a as [|x a IH]; cbn; [reflexivity|now rewrite IH]. Qed.

Lemma app_inv_head (a x y : string) : a +:+ x = a +:+ y -> x = y.
Proof. induction a as [|c a IH]; cbn; [trivial|]. intros [= H]. auto. Qed.

(** *** Characters occurring in a string *)

Lemma has_char_app c a b : has_char c (a +:+ b) = has_char c a || has_char c b.
Proof. induction a as [|x a IH]; cbn; [reflexivity|]. now rewrite IH, orb_assoc. Qed.

(** *** startswith, endswith, contains *)

Lemma startswith_app s p : startswith (p +:+ s) p = true.
Proof. induction p as [|c p IH]; cbn; [reflexivity|]. now rewrite Ascii.eqb_refl. Qed.

Lemma startswith_inv s p : startswith s p = true -> exists r, s = p +:+ r.
Proof.
  revert s. induction p as [|c p IH]; intros s H; cbn in *.
  - now exists s.
  - destruct s as [|x s]; [discriminate|].
    apply andb_prop in H as [Hc Hs]. apply Ascii.eqb_eq in Hc as ->.
    destruct (IH _ Hs) as [r ->]. now exists r.
Qed.

(** A character foreign to the pattern stops every match that reaches it. *)
Lemma startswith_barrier c p a b :
  has_char c p = false -> startswith (a +:+ String c b) p = startswith a p.
Proof.
  revert a. induction p as [|q p IH]; intros a Hc; cbn in *; [reflexivity|].
  apply orb_false_elim in Hc as [Hq Hp].
  destruct a as [|x a]; cbn.
  - now rewrite Hq.
  - now rewrite IH.
Qed.

Lemma contains_cons sub c s :
  contains sub (String c s) = startswith (String c s) sub || contains sub s.
Proof. reflexivity. Qed.

Lemma contains_app_r sub a b : contains sub b = true -> contains sub (a +:+ b) = true.
Proof.
  intros H. induction a as [|c a IH]; cbn [append]; [exact H|].
  rewrite contains_cons, IH. apply orb_true_r.
Qed.

Lemma startswith_app_l s t p : startswith s p = true -> startswith (s +:+ t) p = true.
Proof.
  intros H. apply startswith_inv in H as [r ->]. rewrite app_assoc. apply startswith_app.
Qed.

Lemma contains_app_l sub a b : contains sub a = true -> contains sub (a +:+ b) = true.
Proof.
  induction a as [|c a IH]; intros H.
  - cbn in H. rewrite orb_false_r in H. destruct sub; [|discriminate].
    destruct b; reflexivity.
  - rewrite contains_cons in H. cbn [append]. rewrite contains_cons.
    apply orb_prop in H as [H|H].
    + change (String c a +:+ b) with (String c (a +:+ b)) in *.
      replace (String c (a +:+ b)) with (String c a +:+ b) by reflexivity.
      now rewrite (startswith_app_l _ _ _ H).
    + rewrite (IH H). apply orb_true_r.
Qed.

(** An occurrence cannot straddle a character foreign to the pattern. *)
Lemma contains_barrier c sub a b :
  has_char c sub = false ->
  contains sub (a +:+ String c b) = contains sub a || contains sub b.
Proof.
  intros Hc. induction a as [|x a IH].
  - cbn [append]. rewrite contains_cons.
    destruct sub as [|q sub]; [destruct b; reflexivity|].
    cbn in Hc. apply orb_false_elim in Hc as [Hq _].
    cbn. now rewrite Hq.
  - cbn [append]. rewrite !contains_cons, IH.
    change (String x (a +:+ String c b)) with (String x a +:+ String c b).
    rewrite (startswith_barrier c sub (String x a) b Hc).
    now rewrite orb_assoc.
Qed.

Lemma endswith_cons c s p :
  endswith (String c s) p = String.eqb (String c s) p || endswith s p.
Proof. reflexivity. Qed.

Lemma endswith_refl s : endswith s s = true.
Proof. destruct s; cbn; [reflexivity|]. now rewrite Ascii.eqb_refl, String.eqb_refl. Qed.

Lemma endswith_app a p : endswith (a +:+ p) p = true.
Proof.
  induction a as [|c a IH]; cbn [append]; [apply endswith_refl|].
  rewrite endswith_cons, IH. apply orb_true_r.
Qed.

Lemma endswith_inv s p : endswith s p = true -> exists a, s = a +:+ p.
Proof.
  induction s as [|c s IH]; intros H.
  - destruct p; [now exists ""|discriminate].
  - rewrite endswith_cons in H. apply orb_prop in H as [H|H].
    + apply String.eqb_eq in H as <-. now exists "".
    + destruct (IH H) as [a ->]. now exists (String c a).
Qed.

Lemma contains_startswith s p : startswith s p = true -> contains p s = true.
Proof. intros H. destruct s; cbn [contains]; now rewrite H. Qed.

Lemma endswith_contains s p : endswith s p = true -> contains p s = true.
Proof.
  intros H. apply endswith_inv in H as [a ->].
  apply contains_app_r, contains_startswith.
  rewrite <- (app_nil_r p) at 1. apply startswith_app.
Qed.

Lemma startswith_pattern_prefix s a b :
  startswith s (a +:+ b) = true -> startswith s a = true.
Proof.
  intros H. apply startswith_inv in H as [r ->]. rewrite app_assoc. apply startswith_app.
Qed.

(** Where a pattern occurs, so does each of its prefixes. *)
Lemma contains_pattern_prefix a b s :
  contains (a +:+ b) s = true -> contains a s = true.
Proof.
  induction s as [|c s IH]; intros H.
  - apply contains_startswith. cbn in H. rewrite orb_false_r in H.
    exact (startswith_pattern_prefix _ _ _ H).
  - rewrite contains_cons in H |- *. apply orb_prop in H as [H|H].
    + now rewrite (startswith_pattern_prefix _ _ _ H).
    + rewrite (IH H). apply orb_true_r.
Qed.

(** A suffix without the character [c] lies behind the last [c]. *)
Lemma endswith_barrier c p a b :
  has_char c p = false -> endswith (a +:+ String c b) p = endswith b p.
Proof.
  intros Hc.
  assert (Hne : forall x, String.eqb (x +:+ String c b) p = false).
  { intros x. apply String.eqb_neq. intros E.
    rewrite <- E, has_char_app in Hc. cbn in Hc.
    rewrite Ascii.eqb_refl, orb_true_r in Hc. discriminate. }
  induction a as [|x a IH]; cbn [append].
  - rewrite endswith_cons. specialize (Hne ""). simpl String.append in Hne.
    now rewrite Hne.
  - rewrite endswith_cons, IH. specialize (Hne (String x a)).
    simpl String.append in Hne. now rewrite Hne.
Qed.

(** *** take and drop *)

Lemma drop_app_length a b : drop (String.length a) (a +:+ b) = b.
Proof. induction a as [|c a IH]; cbn; [now destruct b|exact IH]. Qed.

Lemma take_app_length a b : take (String.length a) (a +:+ b) = a.
Proof. induction a as [|c a IH]; cbn; [now destruct b|now rewrite IH]. Qed.

Lemma drop_last_app a p : drop_last (String.length p) (a +:+ p) = a.
Proof.
  unfold drop_last. rewrite length_app.
  replace (String.length a + String.length p - String.length p) with (String.length a) by lia.
  apply take_app_length.
Qed.

(** *** lower *)

Lemma lower_app a b : lower (a +:+ b) = lower a +:+ lower b.
Proof. induction a as [|c a IH]; cbn; [reflexivity|now rewrite IH]. Qed.

(** *** partition *)

Lemma partition_cons sep c s :
  partition sep (String c s) =
    if startswith (String c s) sep then Some ("", drop (String.length sep) (String c s))
    else match partition sep s with
         | Some (b, a) => Some (String c b, a)
         | None => None
         end.
Proof. reflexivity. Qed.

Lemma partition_inv sep s b a : partition sep s = Some (b, a) -> s = b +:+ sep +:+ a.
Proof.
  revert b. induction s as [|c s IH]; intros b H.
  - cbn in H. destruct (startswith "" sep) eqn:E; [|discriminate].
    injection H as <- <-. apply startswith_inv in E as [r E].
    destruct sep; [reflexivity|discriminate].
  - rewrite partition_cons in H.
    destruct (startswith (String c s) sep) eqn:E.
    + injection H as <- <-. apply startswith_inv in E as [r ->].
      now rewrite drop_app_length.
    + destruct (partition sep s) as [[b' a']|]; [|discriminate].
      injection H as <- <-. cbn. now rewrite (IH b' eq_refl).
Qed.

Lemma partition_contains sep s :
  contains sep s = match partition sep s with Some _ => true | None => false end.
Proof.
  induction s as [|c s IH].
  - cbn. now destruct (startswith "" sep).
  - rewrite contains_cons, partition_cons, IH.
    destruct (startswith (String c s) sep); [reflexivity|].
    now destruct (partition sep s) as [[? ?]|].
Qed.

Lemma partition_none sep s : contains sep s = false -> partition sep s = None.
Proof. rewrite partition_contains. now destruct (partition sep s). Qed.

(** The cut is at [pre] when no match starts inside [pre]. *)
Lemma partition_at sep pre tl :
  (forall x t, pre = x +:+ t -> t <> "" -> startswith (t +:+ sep +:+ tl) sep = false) ->
  partition sep (pre +:+ sep +:+ tl) = Some (pre, tl).
Proof.
  induction pre as [|c pre IH]; intros Hclean.
  - cbn [append]. destruct (sep +:+ tl) eqn:E.
    + destruct sep; [|discriminate]. cbn in E. subst. reflexivity.
    + rewrite partition_cons, <- E, startswith_app, drop_app_length. reflexivity.
  - cbn [append]. rewrite partition_cons.
    change (String c (pre +:+ sep +:+ tl)) with (String c pre +:+ sep +:+ tl).
    rewrite (Hclean "" (String c pre) eq_refl) by discriminate.
    rewrite IH; [reflexivity|].
    intros x t -> Ht. apply (Hclean (String c x) t); [reflexivity|exact Ht].
Qed.

(** Text without the separator's first character is skipped over. *)
Lemma partition_skip q sep x y :
  has_char q x = false ->
  partition (String q sep) (x +:+ y) =
    match partition (String q sep) y with
    | Some (b, a) => Some (x +:+ b, a)
    | None => None
    end.
Proof.
  induction x as [|c x IH]; intros Hx.
  - cbn [append]. now destruct (partition (String q sep) y) as [[? ?]|].
  - cbn in Hx. apply orb_false_elim in Hx as [Hc Hx].
    cbn [append]. rewrite partition_cons.
    cbn [startswith]. rewrite Ascii.eqb_sym, Hc. cbn [andb].
    rewrite (IH Hx). now destruct (partition (String q sep) y) as [[? ?]|].
Qed.

Lemma partition_shorter q sep s b a :
  partition (String q sep) s = Some (b, a) -> String.length a < String.length s.
Proof.
  intros H. apply partition_inv in H as ->. rewrite !length_app. cbn. lia.
Qed.

(** *** split *)

Lemma split_fuel_head fuel sep s :
  (fuel = 0 -> partition sep s = None) ->
  exists rest, split_fuel fuel sep s = before sep s :: rest.
Proof.
  intros H. unfold before. destruct fuel as [|fuel]; cbn [split_fuel].
  - rewrite (H eq_refl). now exists [].
  - destruct (partition sep s) as [[b a]|]; eauto.
Qed.

Lemma split_head q sep s :
  exists rest, split (String q sep) s = before (String q sep) s :: rest.
Proof.
  apply split_fuel_head. intros H. destruct s; [reflexivity|discriminate].
Qed.

(** [s.split(sep)[0]] *)
Lemma item_split_0 q sep s :
  nth_error (split (String q sep) s) 0 = Some (before (String q sep) s).
Proof. destruct (split_head q sep s) as [rest ->]. reflexivity. Qed.

(** [s.split(sep)[1]]: the text between the first two separators. *)
Lemma item_split_1 q sep s b a :
  partition (String q sep) s = Some (b, a) ->
  nth_error (split (String q sep) s) 1 = Some (before (String q sep) a).
Proof.
  intros H. unfold split.
  pose proof (partition_shorter _ _ _ _ _ H) as Hlen.
  destruct (String.length s) as [|n] eqn:E; [lia|].
  cbn [split_fuel]. rewrite H.
  destruct (split_fuel_head n (String q sep) a) as [rest ->]; [|reflexivity].
  intros ->. destruct a; [reflexivity|cbn in Hlen; lia].
Qed.

(** *** strip *)

Lemma rstrip_app a b : rstrip b <> "" -> rstrip (a +:+ b) = a +:+ rstrip b.
Proof.
  intros Hb. induction a as [|c a IH]; cbn [append]; [reflexivity|].
  cbn [rstrip]. rewrite IH.
  destruct (a +:+ rstrip b) eqn:E; [|reflexivity].
  destruct a; [|discriminate]. cbn in E. contradiction.
Qed.

(** *** lower *)

Lemma lower_char_question c : Ascii.eqb "?" (lower_char c) = Ascii.eqb "?" c.
Proof. destruct c as [[] [] [] [] [] [] [] []]; reflexivity. Qed.

Lemma partition_lower_question s :
  partition "?" (lower s) =
    match partition "?" s with
    | Some (b, a) => Some (lower b, lower a)
    | None => None
    end.
Proof.
  induction s as [|c s IH]; [reflexivity|].
  cbn [lower]. rewrite !partition_cons. cbn [startswith].
  rewrite lower_char_question.
  destruct (Ascii.eqb "?" c); cbn [andb]; [reflexivity|].
  rewrite IH. now destruct (partition "?" s) as [[? ?]|].
Qed.

(** Lower-casing commutes with cutting the query string off. *)
Lemma url_path_lower s : url_path (lower s) = lower (url_path s).
Proof.
  unfold url_path, before. rewrite partition_lower_question.
  now destruct (partition "?" s) as [[? ?]|].
Qed.

(** *** replace *)

(** Replacing a pattern that ends in [/] by another that ends in [/] does
    not change whether the text ends in a slash-free suffix. *)
Lemma endswith_lower_replace suf old new s fuel :
  has_char "/" suf = false ->
  endswith (lower (replace_fuel fuel (old +:+ "/") (new +:+ "/") s)) suf
  = endswith (lower s) suf.
Proof.
  intros Hsuf. revert s. induction fuel as [|fuel IH]; intros s; [reflexivity|].
  cbn [replace_fuel].
  destruct (partition (old +:+ "/") s) as [[b a]|] eqn:E; [|reflexivity].
  apply partition_inv in E. rewrite E.
  rewrite <- !app_assoc, !lower_app.
  change (lower "/") with "/".
  rewrite !(app_assoc _ "/"). cbn [append].
  rewrite !(endswith_barrier "/" suf _ _ Hsuf). apply IH.
Qed.

Lemma endswith_lower_replace_blob s :
  endswith (lower (replace "/blob/" "/resolve/" s)) "safetensors"
  = endswith (lower s) "safetensors".
Proof. apply (endswith_lower_replace "safetensors" "/blob" "/resolve"). reflexivity. Qed.

(** *** Matches that would overlap the separator itself *)

Lemma get_app_mid x e r : String.get (String.length x) (x +:+ String e r) = Some e.
Proof. induction x as [|c x IH]; cbn; [reflexivity|exact IH]. Qed.

Lemma startswith_overlap body e t z :
  startswith (t +:+ z) (body +:+ String e "") = true ->
  startswith t (body +:+ String e "") = true
  \/ (String.length t <= String.length body
      /\ String.get (String.length body - String.length t) z = Some e).
Proof.
  revert t. induction body as [|b body IH]; intros t H.
  - destruct t as [|c t].
    + right. split; [cbn; lia|]. cbn [append] in H.
      apply startswith_inv in H as [r ->]. reflexivity.
    + left. cbn in H |- *. apply andb_prop in H as [-> _]. reflexivity.
  - destruct t as [|c t].
    + right. split; [cbn; lia|]. cbn [append] in H.
      apply startswith_inv in H as [r ->].
      rewrite Nat.sub_0_r.
      replace (String b (body +:+ String e "") +:+ r)
        with (String b body +:+ String e r) by (cbn; now rewrite app_assoc).
      apply (get_app_mid (String b body) e r).
    + cbn [append startswith] in H |- *. apply andb_prop in H as [Hc H].
      rewrite Hc. destruct (IH t H) as [Hl|[Hlen Hget]]; [left; exact Hl|right].
      split; [cbn; lia|exact Hget].
Qed.

(** No match of [modelVersionId=] starts inside a text free of it, even
    when the text is followed by the separator. *)
Lemma version_marker_clean pre tl :
  contains "modelVersionId=" pre = false ->
  forall x t, pre = x +:+ t -> t <> "" ->
    startswith (t +:+ "modelVersionId=" +:+ tl) "modelVersionId=" = false.
Proof.
  intros Hpre x t -> Ht.
  destruct (startswith (t +:+ "modelVersionId=" +:+ tl) "modelVersionId=") eqn:E;
    [exfalso|reflexivity].
  apply (startswith_overlap "modelVersionId" "=") in E as [E|[Hlen Hget]].
  - apply contains_startswith in E. cbn [append] in E.
    now rewrite (contains_app_r _ x t E) in Hpre.
  - destruct t as [|c t]; [contradiction|].
    remember (String.length "modelVersionId" - String.length (String c t)) as k eqn:Ek.
    assert (Hk : k < 14) by (cbn in Ek, Hlen; lia).
    clear Ek Hlen.
    do 14 (destruct k as [|k]; [cbn in Hget; discriminate|]). lia.
Qed.

(** *** Digits *)

Lemma contains_cons_foreign q sub c s :
  Ascii.eqb q c = false -> contains (String q sub) (String c s) = contains (String q sub) s.
Proof. intros H. rewrite contains_cons. cbn [startswith]. now rewrite H. Qed.

Lemma contains_after_digits q sub id b :
  (forall c, is_digit c = true -> Ascii.eqb q c = false) ->
  all_digits id = true ->
  contains (String q sub) (id +:+ b) = contains (String q sub) b.
Proof.
  intros Hq. induction id as [|d id IH]; intros Hid; [reflexivity|].
  cbn in Hid. apply andb_prop in Hid as [Hd Hid].
  cbn [append]. rewrite contains_cons_foreign by auto. auto.
Qed.

(** A pattern without digits occurs in [a ++ id ++ b], for a non-empty
    run of digits [id], only if it occurs in [a] or in [b]. *)
Lemma contains_around_digits q sub a d id b :
  (forall c, is_digit c = true -> has_char c (String q sub) = false) ->
  all_digits (String d id) = true ->
  contains (String q sub) (a +:+ String d id +:+ b)
  = contains (String q sub) a || contains (String q sub) b.
Proof.
  intros Hp Hid. cbn in Hid. apply andb_prop in Hid as [Hd Hid].
  cbn [append]. rewrite (contains_barrier d _ a _ (Hp d Hd)).
  f_equal. apply contains_after_digits; [|exact Hid].
  intros c Hc. specialize (Hp c Hc). cbn in Hp.
  now apply orb_false_elim in Hp as [-> _].
Qed.

Lemma partition_after_digits q sep id b :
  (forall c, is_digit c = true -> Ascii.eqb c q = false) ->
  all_digits id = true ->
  partition (String q sep) (id +:+ b) =
    match partition (String q sep) b with
    | Some (x, a) => Some (id +:+ x, a)
    | None => None
    end.
Proof.
  intros Hq Hid. apply partition_skip.
  induction id as [|d id IH]; [reflexivity|].
  cbn in Hid |- *. apply andb_prop in Hid as [Hd Hid].
  now rewrite (Hq d Hd), IH.
Qed.

(** *** Joined segments *)

Lemma join_cons sep x y l : join sep (x :: y :: l) = x +:+ sep +:+ join sep (y :: l).
Proof. reflexivity. Qed.

Lemma join_snoc_app sep l x y : join sep (l ++ [x +:+ y]) = join sep (l ++ [x]) +:+ y.
Proof.
  induction l as [|a l IH]; [reflexivity|].
  destruct l as [|b l].
  - cbn. now rewrite !app_assoc.
  - cbn [app] in *. rewrite !join_cons, IH. now rewrite !app_assoc.
Qed.

Lemma contains_absent q sub s : has_char q s = false -> contains (String q sub) s = false.
Proof.
  induction s as [|c s IH]; intros H; [reflexivity|].
  cbn in H. apply orb_false_elim in H as [Hc Hs].
  rewrite contains_cons_foreign by (now rewrite Ascii.eqb_sym). auto.
Qed.

Lemma contains_skip q sub x t :
  has_char q x = false -> contains (String q sub) (x +:+ t) = contains (String q sub) t.
Proof.
  induction x as [|c x IH]; intros H; [reflexivity|].
  cbn in H. apply orb_false_elim in H as [Hc Hx].
  cbn [append]. rewrite contains_cons_foreign by (now rewrite Ascii.eqb_sym). auto.
Qed.

(** A match of [m/] at the start of a segment takes the whole segment. *)
Lemma startswith_whole_segment m y rest :
  has_char "/" m = false -> has_char "/" y = false ->
  rest = "" \/ startswith rest "/" = true ->
  startswith (y +:+ rest) (m +:+ "/") = true -> y = m.
Proof.
  revert y. induction m as [|a m IH]; intros y Hm Hy Hrest H.
  - destruct y as [|c y]; [reflexivity|].
    cbn [append startswith has_char] in H, Hy.
    apply andb_prop in H as [H _]. rewrite Ascii.eqb_sym, H in Hy. discriminate Hy.
  - cbn [has_char] in Hm. apply orb_false_elim in Hm as [Ha Hm].
    destruct y as [|c y].
    + cbn [append] in H. destruct Hrest as [->|Hrest]; [discriminate H|].
      apply startswith_inv in Hrest as [r ->]. cbn [append startswith] in H.
      apply andb_prop in H as [H _]. rewrite H in Ha. discriminate Ha.
    + cbn [has_char] in Hy. apply orb_false_elim in Hy as [Hc Hy].
      cbn [append startswith] in H. apply andb_prop in H as [Hac H].
      apply Ascii.eqb_eq in Hac as ->. f_equal. now apply IH.
Qed.

Lemma join_starts sep y l : exists rest,
  join sep (y :: l) = y +:+ rest /\ (rest = "" \/ startswith rest sep = true).
Proof.
  destruct l as [|z l].
  - exists "". split; [cbn; now rewrite app_nil_r|now left].
  - exists (sep +:+ join sep (z :: l)). split; [reflexivity|right; apply startswith_app].
Qed.

(** [/m/] occurs in a joined path only as a segment [m]. *)
Lemma contains_segment m l :
  has_char "/" m = false ->
  Forall (segment_but m) l ->
  contains (String "/" (m +:+ "/")) (join "/" l) = false.
Proof.
  intros Hm Hl. induction Hl as [|x l [Hx Hxm] Hl IH]; [reflexivity|].
  destruct l as [|y l].
  - cbn [join]. now apply contains_absent.
  - rewrite join_cons. rewrite (contains_skip "/" _ x _ Hx).
    change ("/" +:+ join "/" (y :: l)) with (String "/" (join "/" (y :: l))).
    rewrite contains_cons, IH, orb_false_r.
    cbn [startswith]. rewrite Ascii.eqb_refl. cbn [andb].
    destruct (startswith (join "/" (y :: l)) (m +:+ "/")) eqn:E; [exfalso|reflexivity].
    destruct (join_starts "/" y l) as (rest & Hj & Hrest). rewrite Hj in E.
    inversion Hl as [|? ? [Hy Hym] _]; subst.
    apply Hym. exact (startswith_whole_segment m y rest Hm Hy Hrest E).
Qed.

Lemma contains_inv sub s : contains sub s = true -> exists x y, s = x +:+ sub +:+ y.
Proof.
  rewrite partition_contains. destruct (partition sub s) as [[b a]|] eqn:E; [|discriminate].
  intros _. exists b, a. now apply partition_inv.
Qed.

(** Where a pattern occurs, so does each of its suffixes. *)
Lemma contains_pattern_suffix a b s :
  contains (a +:+ b) s = true -> contains b s = true.
Proof.
  intros H. apply contains_inv in H as (x & y & ->).
  rewrite app_assoc, <- (app_assoc x a). apply contains_app_r, contains_app_l.
  apply contains_startswith. rewrite <- (app_nil_r b) at 1. apply startswith_app.
Qed.

(** Splitting at [/] undoes joining slash-free segments. *)
Lemma split_fuel_join x l fuel :
  Forall (fun s => has_char "/" s = false) (x :: l) ->
  String.length (join "/" (x :: l)) <= fuel ->
  split_fuel fuel "/" (join "/" (x :: l)) = x :: l.
Proof.
  revert x fuel. induction l as [|y l IH]; intros x fuel Hall Hlen.
  - inversion Hall as [|? ? Hx _]; subst. cbn [join].
    assert (Hn : partition "/" x = None) by (apply partition_none, contains_absent, Hx).
    destruct fuel; cbn [split_fuel]; [reflexivity|now rewrite Hn].
  - inversion Hall as [|? ? Hx Hrest]; subst.
    rewrite join_cons in *. rewrite !length_app in Hlen. cbn [String.length] in Hlen.
    destruct fuel as [|fuel]; [lia|]. cbn [split_fuel].
    rewrite (partition_skip "/" "" x _ Hx). cbn [append].
    rewrite partition_cons. cbn [startswith]. rewrite Ascii.eqb_refl. cbn [andb].
    cbn [String.length drop]. rewrite app_nil_r. f_equal.
    apply IH; [exact Hrest|lia].
Qed.

Lemma split_join x l :
  Forall (fun s => has_char "/" s = false) (x :: l) ->
  split "/" (join "/" (x :: l)) = x :: l.
Proof. intros H. apply split_fuel_join; [exact H|lia]. Qed.

(** Replacing what does not occur changes nothing. *)
Lemma replace_absent old new s : contains old s = false -> replace old new s = s.
Proof.
  intros H. unfold replace. apply partition_none in H.
  destruct (String.length s); cbn [replace_fuel]; [reflexivity|now rewrite H].
Qed.

Lemma last_item_snoc l x : last_item (l ++ [x]) = Some x.
Proof. unfold last_item. rewrite map_app. cbn [map]. apply last_last. Qed.

End PyStrFacts.

(** ** Facts about paths and the file system *)

Module PathFacts.
Import PyStr StrSpec PyStrFacts PathSpec.

Lemma endswith_slash_app x y : y <> "" -> endswith (x +:+ y) "/" = endswith y "/".
Proof.
  intros Hy. induction x as [|c x IH]; [reflexivity|].
  cbn [append]. rewrite endswith_cons, IH.
  destruct (x +:+ y) eqn:E.
  - destruct x; [|discriminate]. cbn in E. contradiction.
  - replace (String.eqb (String c (String a s)) "/") with false; [reflexivity|].
    symmetry. apply String.eqb_neq. discriminate.
Qed.

(** Joining a relative name appends it to the directory prefix. *)
Lemma join_relative a b :
  startswith b "/" = false -> PosixPath.join a b = dir_prefix a +:+ b.
Proof.
  intros Hb. unfold PosixPath.join, dir_prefix. rewrite Hb.
  destruct (String.eqb a "" || endswith a "/"); [reflexivity|].
  now rewrite app_assoc.
Qed.

(** A path that ends in a name takes a slash as directory prefix. *)
Lemma dir_prefix_name x name :
  name <> "" -> endswith name "/" = false ->
  dir_prefix (x +:+ name) = x +:+ name +:+ "/".
Proof.
  intros Hn He. unfold dir_prefix.
  rewrite (endswith_slash_app x name Hn), He.
  destruct (x +:+ name) eqn:E.
  - destruct x; [|discriminate]. cbn in E. contradiction.
  - cbn [String.eqb orb]. rewrite <- E. now rewrite app_assoc.
Qed.

Lemma cut_no_slash t : has_char "/" t = false -> PosixPath.cut_last_slash t = ("", t).
Proof.
  induction t as [|c t IH]; intros H; [reflexivity|].
  cbn in H. apply orb_false_elim in H as [Hc Ht].
  cbn [PosixPath.cut_last_slash]. rewrite (IH Ht). now rewrite Hc.
Qed.

Lemma cut_last_slash_app a t :
  has_char "/" t = false ->
  PosixPath.cut_last_slash (a +:+ String "/" t) = (a +:+ "/", t).
Proof.
  intros Ht. induction a as [|c a IH].
  - cbn [append PosixPath.cut_last_slash]. now rewrite (cut_no_slash t Ht).
  - cbn [append PosixPath.cut_last_slash]. rewrite IH.
    destruct (a +:+ "/") eqn:E; [destruct a; discriminate|reflexivity].
Qed.

Lemma rstrip_slash_app a b :
  PosixPath.rstrip_slash b <> "" ->
  PosixPath.rstrip_slash (a +:+ b) = a +:+ PosixPath.rstrip_slash b.
Proof.
  intros Hb. induction a as [|c a IH]; cbn [append]; [reflexivity|].
  cbn [PosixPath.rstrip_slash]. rewrite IH.
  destruct (a +:+ PosixPath.rstrip_slash b) eqn:E; [|reflexivity].
  destruct a; [|discriminate]. cbn in E. contradiction.
Qed.

Lemma all_slashes_app a b :
  PosixPath.all_slashes (a +:+ b) = PosixPath.all_slashes a && PosixPath.all_slashes b.
Proof. induction a as [|c a IH]; cbn; [reflexivity|]. now rewrite IH, andb_assoc. Qed.

(** [os.path.split] undoes a join with a slash-free name, when the
    directory ends in the name [dir]. *)
Lemma split_joined x dir name :
  has_char "/" name = false ->
  PosixPath.all_slashes dir = false ->
  PosixPath.rstrip_slash (dir +:+ "/") = dir ->
  PosixPath.split (x +:+ dir +:+ "/" +:+ name) = (x +:+ dir, name).
Proof.
  intros Hname Hdir Hstrip. unfold PosixPath.split.
  assert (Hne : dir <> "") by (intros ->; discriminate).
  replace (x +:+ dir +:+ "/" +:+ name) with ((x +:+ dir) +:+ String "/" name)
    by (now rewrite app_assoc).
  rewrite (cut_last_slash_app _ _ Hname).
  rewrite !all_slashes_app, Hdir, andb_false_r. cbn [andb negb].
  destruct ((x +:+ dir) +:+ "/") eqn:E; [destruct (x +:+ dir); discriminate|].
  cbn [String.eqb negb]. rewrite <- E.
  rewrite app_assoc, rstrip_slash_app by (rewrite Hstrip; exact Hne).
  now rewrite Hstrip.
Qed.

(** *** Hexadecimal names *)

Lemma hex_digit_high b : Ascii.eqb (hex_digit (N_of_ascii b / 16)) "/" = false.
Proof. destruct b as [[] [] [] [] [] [] [] []]; reflexivity. Qed.

Lemma hex_digit_low b : Ascii.eqb (hex_digit (N_of_ascii b mod 16)) "/" = false.
Proof. destruct b as [[] [] [] [] [] [] [] []]; reflexivity. Qed.

Lemma hex_no_slash bytes : has_char "/" (hex bytes) = false.
Proof.
  induction bytes as [|b bytes IH]; [reflexivity|].
  cbn [hex has_char]. now rewrite hex_digit_high, hex_digit_low, IH.
Qed.

End PathFacts.

Section FsFacts.
Context `{Ext : Externals}.
Import PyStr StrSpec PyStrFacts PathSpec PathFacts.

Lemma exists_in_iff w q :
  Os.exists_in w q = true <-> q ∈ dirs w \/ q ∈ dom (files w).
Proof.
  unfold Os.exists_in. rewrite orb_true_iff, !bool_decide_eq_true. reflexivity.
Qed.

Lemma exists_in_add_dir c p ds fs e t q :
  Os.exists_in (mkWorld c ({[p]} ∪ ds) fs e t) q = true
  <-> q = p \/ Os.exists_in (mkWorld c ds fs e t) q = true.
Proof.
  rewrite !exists_in_iff. cbn. rewrite elem_of_union, elem_of_singleton. tauto.
Qed.

Lemma exists_in_add_file c p data ds fs e t q :
  Os.exists_in (mkWorld c ds (<[p := data]> fs) e t) q = true
  <-> q = p \/ Os.exists_in (mkWorld c ds fs e t) q = true.
Proof.
  rewrite !exists_in_iff. cbn.
  rewrite dom_insert_L, elem_of_union, elem_of_singleton. tauto.
Qed.

(** [mkdir] on a path that is not empty. *)
Lemma app_nonempty (x y : string) : y <> "" -> x +:+ y <> "".
Proof. intros Hy. destruct x; [exact Hy|discriminate]. Qed.

Lemma mkdir_named p w :
  p <> "" ->
  Os.mkdir p w =
    if Os.exists_in w p then (Raise (FileExistsError p), w)
    else (Ok tt, mkWorld (cwd w) ({[p]} ∪ dirs w) (files w) (environ w)
                         (trace w ++ [EvMkdir p])).
Proof.
  intros Hp. unfold Os.mkdir. apply String.eqb_neq in Hp. now rewrite Hp.
Qed.

Lemma grows_under_refl root w : grows_under root w w.
Proof. repeat split; auto. Qed.

Lemma grows_under_trans root w1 w2 w3 :
  grows_under root w1 w2 -> grows_under root w2 w3 -> grows_under root w1 w3.
Proof.
  intros (Hc & He & Hm & Hn) (Hc' & He' & Hm' & Hn').
  repeat split; [congruence | congruence | auto |].
  intros q Hq. destruct (Hn' q Hq) as [H|H]; [auto|right; exact H].
Qed.

(** A new directory under the root. *)
Lemma grows_under_add_dir root name w t :
  grows_under root w
    (mkWorld (cwd w) ({[root +:+ name]} ∪ dirs w) (files w) (environ w) t).
Proof.
  repeat split; try reflexivity.
  - intros q Hq. apply exists_in_add_dir. right. exact Hq.
  - intros q Hq. apply exists_in_add_dir in Hq as [->|Hq]; [right; eauto|left; exact Hq].
Qed.

(** A new file under the root. *)
Lemma grows_under_add_file root name data w t :
  grows_under root w
    (mkWorld (cwd w) (dirs w) (<[root +:+ name := data]> (files w)) (environ w) t).
Proof.
  repeat split; try reflexivity.
  - intros q Hq. apply exists_in_add_file. right. exact Hq.
  - intros q Hq. apply exists_in_add_file in Hq as [->|Hq]; [right; eauto|left; exact Hq].
Qed.

Lemma ensure_cache_grows w : grows_under (cache_root w) w (ensure_cache w).
Proof.
  unfold ensure_cache. destruct (Os.exists_in w (cache_root w)).
  - apply grows_under_refl.
  - rewrite <- (app_nil_r (cache_root w)) at 2. apply grows_under_add_dir.
Qed.

Lemma ensure_cache_exists w : Os.exists_in (ensure_cache w) (cache_root w) = true.
Proof.
  unfold ensure_cache. destruct (Os.exists_in w (cache_root w)) eqn:E; [exact E|].
  apply exists_in_add_dir. now left.
Qed.

(** The cache root ends in the name [huggingface_cache]. *)
Lemma cache_root_form w : exists x, cache_root w = x +:+ "huggingface_cache".
Proof. unfold cache_root. rewrite join_relative by reflexivity. eauto. Qed.

(** The probes of [find_or_create_cache] do not lie under the cache root
    they lead to. *)
Lemma comfy_probe_outside w t :
  Os.exists_in w (PosixPath.join (cwd w) "ComfyUI") = false ->
  PosixPath.join (cwd w) "ComfyUI" <> cache_root w +:+ t.
Proof.
  intros E. unfold cache_root. cbv zeta. rewrite E.
  destruct (Os.exists_in w (PosixPath.join (cwd w) "models"));
    rewrite !join_relative by reflexivity.
  - rewrite (dir_prefix_name _ "models") by (discriminate || reflexivity).
    rewrite !app_assoc. intros H. apply app_inv_head in H. discriminate H.
  - rewrite !app_assoc. intros H. apply app_inv_head in H. discriminate H.
Qed.

Lemma models_probe_outside w t :
  let c1 := if Os.exists_in w (PosixPath.join (cwd w) "ComfyUI")
            then PosixPath.join (cwd w) "ComfyUI" else cwd w in
  Os.exists_in w (PosixPath.join c1 "models") = false ->
  PosixPath.join c1 "models" <> cache_root w +:+ t.
Proof.
  intros c1 E. unfold cache_root. cbv zeta. fold c1. rewrite E.
  rewrite !join_relative by reflexivity.
  rewrite !app_assoc. intros H. apply app_inv_head in H. discriminate H.
Qed.

Lemma probe_same w w' q :
  grows_under (cache_root w) w w' ->
  (Os.exists_in w q = false -> forall t, q <> cache_root w +:+ t) ->
  Os.exists_in w' q = Os.exists_in w q.
Proof.
  intros (_ & _ & Hm & Hn) Hq.
  destruct (Os.exists_in w q) eqn:E; [auto|].
  destruct (Os.exists_in w' q) eqn:E'; [|reflexivity].
  destruct (Hn q E') as [H|[t H]]; [congruence|]. now apply (Hq eq_refl) in H.
Qed.

(** So what appears under the root leaves the root where it is. *)
Lemma cache_root_stable w w' :
  grows_under (cache_root w) w w' -> cache_root w' = cache_root w.
Proof.
  intros Hg. pose proof Hg as (Hc & _).
  unfold cache_root at 1. cbv zeta. rewrite Hc.
  rewrite (probe_same w w' _ Hg (fun E t => comfy_probe_outside w t E)).
  rewrite (probe_same w w' _ Hg (fun E t => models_probe_outside w t E)).
  reflexivity.
Qed.

(** *** Downloading into the cache *)

(** The cache path, spelled out. *)
Lemma cache_path_form x sub name :
  plain_name sub -> startswith name "/" = false ->
  PosixPath.join3 (x +:+ "huggingface_cache") sub name
  = x +:+ "huggingface_cache" +:+ "/" +:+ sub +:+ "/" +:+ name.
Proof.
  intros (Hs & Hall & Hstrip & Hrel & Hend) Hname. unfold PosixPath.join3.
  rewrite (join_relative _ sub Hrel).
  rewrite (dir_prefix_name x "huggingface_cache") by (discriminate || reflexivity).
  rewrite (join_relative _ name Hname).
  assert (Hne : sub <> "") by (intros ->; discriminate).
  replace ((x +:+ "huggingface_cache" +:+ "/") +:+ sub)
    with ((x +:+ "huggingface_cache/") +:+ sub)
    by (rewrite !app_assoc; reflexivity).
  rewrite (dir_prefix_name _ sub Hne Hend).
  rewrite !app_assoc. reflexivity.
Qed.

(** With the cache root in place, [makedirs] of a sub-directory creates at
    most that directory. *)
Lemma makedirs_under x sub w r w2 :
  plain_name sub ->
  Os.exists_in w (x +:+ "huggingface_cache") = true ->
  Os.makedirs (x +:+ "huggingface_cache" +:+ "/" +:+ sub) w = (r, w2) ->
  grows_under (x +:+ "huggingface_cache") w w2.
Proof.
  intros (Hs & Hall & Hstrip & Hrel & Hend) HC.
  unfold Os.makedirs. cbn [Os.makedirs_fuel].
  rewrite (split_joined x "huggingface_cache" sub Hs eq_refl eq_refl).
  assert (Hne : String.eqb sub "" = false)
    by (apply String.eqb_neq; intros ->; discriminate).
  rewrite Hne. unfold bind at 1. unfold Os.path_exists at 1. rewrite HC.
  rewrite andb_false_r.
  rewrite mkdir_named by (apply app_nonempty; discriminate).
  destruct (Os.exists_in w (x +:+ "huggingface_cache" +:+ "/" +:+ sub)).
  - destruct (bool_decide (x +:+ "huggingface_cache" +:+ "/" +:+ sub ∈ dirs w));
      intros H; apply pair_equal_spec in H as [_ <-]; apply grows_under_refl.
  - intros H; apply pair_equal_spec in H as [_ <-].
    replace (x +:+ "huggingface_cache" +:+ "/" +:+ sub)
      with ((x +:+ "huggingface_cache") +:+ "/" +:+ sub)
      by (rewrite !app_assoc; reflexivity).
    apply grows_under_add_dir.
Qed.

(** A download that succeeds leaves the file in the cache and touches
    nothing outside the cache root. *)
Lemma download_file_ok x sub name url w w1 :
  plain_name sub -> has_char "/" name = false -> startswith name "/" = false ->
  Os.exists_in w (x +:+ "huggingface_cache") = true ->
  download_file url (PosixPath.join3 (x +:+ "huggingface_cache") sub name) w = (Ok tt, w1) ->
  grows_under (x +:+ "huggingface_cache") w w1
  /\ Os.exists_in w1 (PosixPath.join3 (x +:+ "huggingface_cache") sub name) = true.
Proof.
  intros Hsub Hname Hrel HC.
  rewrite (cache_path_form x sub name Hsub Hrel).
  pose proof Hsub as (Hs & Hall & Hstrip & Hrel' & Hend).
  unfold download_file, PosixPath.dirname.
  replace (x +:+ "huggingface_cache" +:+ "/" +:+ sub +:+ "/" +:+ name)
    with ((x +:+ "huggingface_cache/") +:+ sub +:+ "/" +:+ name)
    by (rewrite !app_assoc; reflexivity).
  rewrite (split_joined _ sub name Hname Hall Hstrip). cbn [fst].
  replace ((x +:+ "huggingface_cache/") +:+ sub)
    with (x +:+ "huggingface_cache" +:+ "/" +:+ sub)
    by (rewrite !app_assoc; reflexivity).
  unfold bind at 1.
  destruct (Os.makedirs _ w) as [[[]|e] w2] eqn:Emk; [|discriminate].
  apply (makedirs_under x sub w _ w2 Hsub HC) in Emk.
  unfold bind at 1. unfold requests_get, bind, emit, lift_result.
  destruct (http_fetch url) as [response|e]; [|discriminate].
  destruct (status_code response =? 200)%Z; [|discriminate].
  unfold Os.write_file. cbn [cwd dirs files environ trace].
  destruct (bool_decide _); [discriminate|].
  intros H; apply pair_equal_spec in H as [_ <-].
  set (full := (x +:+ "huggingface_cache/") +:+ sub +:+ "/" +:+ name).
  assert (Efull : full = (x +:+ "huggingface_cache") +:+ "/" +:+ sub +:+ "/" +:+ name)
    by (unfold full; rewrite !app_assoc; reflexivity).
  split.
  - apply (grows_under_trans _ _ _ _ Emk). rewrite Efull.
    apply (grows_under_add_file (x +:+ "huggingface_cache") _ _ w2).
  - apply exists_in_add_file. now left.
Qed.

End FsFacts.

(** ** The resolver: properties *)

Section ResolverProofs.
Context `{Ext : Externals}.
Import PyStr StrSpec PyStrFacts PathSpec PathFacts.

(** With [Os.mkdir] taking the parent to be a directory,
    [find_or_create_cache] returns [cache_root] and leaves the world with
    that directory in it. *)
Lemma find_or_create_cache_run w :
  find_or_create_cache w = (Ok (cache_root w), ensure_cache w).
Proof.
  unfold find_or_create_cache, cache_root, ensure_cache, cache_root, bind,
    Os.getcwd, Os.path_exists, ret.
  destruct (Os.exists_in w (PosixPath.join (cwd w) "ComfyUI"));
    match goal with
    | |- context [Os.exists_in w (PosixPath.join ?c "models")] =>
        destruct (Os.exists_in w (PosixPath.join c "models"))
    end;
    match goal with
    | |- context [Os.exists_in w (PosixPath.join ?c "huggingface_cache")] =>
        destruct (Os.exists_in w (PosixPath.join c "huggingface_cache")) eqn:E
    end;
    cbn [negb]; try reflexivity;
    unfold emit; rewrite mkdir_named
      by (rewrite join_relative by reflexivity; apply app_nonempty; discriminate);
    cbn [cwd dirs files environ trace];
    unfold Os.exists_in in *; cbn [cwd dirs files environ trace];
    rewrite E; reflexivity.
Qed.

Lemma get_lora_generic url w :
  is_generic (strip url) = true ->
  get_lora_from_url url w =
    let u := strip url in
    if String.eqb u "" then (Raise (ValueError "URL is empty"), w)
    else if negb (startswith u "http") then (Raise (ValueError "Invalid URL"), w)
    else if negb (endswith (url_path (lower u)) "safetensors") then
      (Raise (ValueError "Only safetensors files are supported for security reasons."), w)
    else cache_and_fetch "general" (get_filename_from_url u "safetensors") u w.
Proof.
  unfold is_generic, is_hub. intros H.
  apply andb_prop in H as [Hh Hc].
  apply negb_true_iff in Hh. apply negb_true_iff in Hc.
  unfold get_lora_from_url. cbv zeta.
  destruct (String.eqb (strip url) ""); [reflexivity|].
  destruct (negb (startswith (strip url) "http")); [reflexivity|].
  rewrite Hh, Hc.
  unfold bind at 1. unfold item. rewrite item_split_0. unfold ret at 1.
  fold (url_path (lower (strip url))).
  destruct (negb (endswith (url_path (lower (strip url))) "safetensors")); reflexivity.
Qed.

Lemma get_lora_marketplace url w :
  is_marketplace (strip url) = true ->
  get_lora_from_url url w =
    let u := strip url in
    if String.eqb u "" then (Raise (ValueError "URL is empty"), w)
    else if negb (startswith u "http") then (Raise (ValueError "Invalid URL"), w)
    else
      match marketplace_url u with
      | None => (Raise IndexError, w)
      | Some u' =>
          if negb (contains "SafeTensor" u') then
            (Raise (ValueError "Only safetensors files are supported for security reasons."), w)
          else
            cache_and_fetch "civitai" (get_filename_from_url u' "safetensors")
              (with_token (environ w !! "CIVITAI_API_KEY") u') w
      end.
Proof.
  unfold is_marketplace, is_hub. intros H.
  apply andb_prop in H as [Hh Hc]. apply negb_true_iff in Hh.
  unfold get_lora_from_url. cbv zeta.
  destruct (String.eqb (strip url) ""); [reflexivity|].
  destruct (negb (startswith (strip url) "http")); [reflexivity|].
  rewrite Hh, Hc. unfold marketplace_url.
  destruct (contains "modelVersionId" (strip url)).
  - unfold bind at 1. unfold bind at 1. unfold item at 1.
    destruct (nth_error (split "modelVersionId=" (strip url)) 1) as [v|]; [|reflexivity].
    unfold ret at 1. unfold bind at 1. unfold item at 1.
    rewrite item_split_0. unfold ret at 1. unfold ret at 1.
    fold (canonical_url (before "&" v)).
    destruct (negb (contains "SafeTensor" (canonical_url (before "&" v)))); reflexivity.
  - unfold bind at 1. unfold ret at 1.
    destruct (negb (contains "SafeTensor" (strip url))); reflexivity.
Qed.

Lemma get_lora_hub_rejected url w :
  is_hub (strip url) = true ->
  (let u := strip url in
   let u1 := if endswith u "?download=true"
             then drop_last (String.length "?download=true") u else u in
   endswith (lower u1) "safetensors" = false) ->
  exists msg, get_lora_from_url url w = (Raise (ValueError msg), w).
Proof.
  unfold is_hub. cbv zeta. intros Hh Hend.
  unfold get_lora_from_url. cbv zeta.
  destruct (String.eqb (strip url) ""); [eexists; reflexivity|].
  destruct (negb (startswith (strip url) "http")); [eexists; reflexivity|].
  rewrite Hh.
  set (u1 := if endswith (strip url) "?download=true" then _ else _) in *.
  destruct (contains "/blob/" u1).
  - rewrite endswith_lower_replace_blob, Hend. eexists; reflexivity.
  - rewrite Hend. eexists; reflexivity.
Qed.

(** C2 (as amended).  Before anything is requested or written -- the world
    is returned as it was -- [ValueError] is raised for
    - a generic reference whose path, query string excluded, does not end in
      [safetensors];
    - a marketplace reference that carries neither a [modelVersionId]
      parameter nor the marker [SafeTensor];
    - a hub reference made of a query-free part, optionally followed by
      [?download=true], when that part does not end in [safetensors].
    The suffix is compared on the lower-cased text. *)
Theorem unsupported_reference_rejected url w :
  let u := strip url in
  (is_generic u = true ->
   endswith (lower (url_path u)) "safetensors" = false ->
   exists msg, get_lora_from_url url w = (Raise (ValueError msg), w))
  /\ (is_marketplace u = true ->
      contains "modelVersionId" u = false -> contains "SafeTensor" u = false ->
      exists msg, get_lora_from_url url w = (Raise (ValueError msg), w))
  /\ (is_hub u = true ->
      forall path,
        contains "?" path = false ->
        endswith (lower path) "safetensors" = false ->
        u = path \/ u = path +:+ "?download=true" ->
        exists msg, get_lora_from_url url w = (Raise (ValueError msg), w)).
Proof.
  cbv zeta. split; [|split].
  - intros Hg Hend. rewrite (get_lora_generic url w Hg). cbv zeta.
    destruct (String.eqb (strip url) ""); [eexists; reflexivity|].
    destruct (negb (startswith (strip url) "http")); [eexists; reflexivity|].
    rewrite url_path_lower, Hend. eexists; reflexivity.
  - intros Hm Hv Hs. rewrite (get_lora_marketplace url w Hm). cbv zeta.
    destruct (String.eqb (strip url) ""); [eexists; reflexivity|].
    destruct (negb (startswith (strip url) "http")); [eexists; reflexivity|].
    unfold marketplace_url. rewrite Hv, Hs. eexists; reflexivity.
  - intros Hh path Hq Hend Hu. apply (get_lora_hub_rejected url w Hh). cbv zeta.
    destruct Hu as [Hu|Hu]; rewrite Hu.
    + destruct (endswith path "?download=true") eqn:E; [|exact Hend].
      apply endswith_contains in E.
      apply (contains_pattern_prefix "?" "download=true") in E. congruence.
    + rewrite endswith_app, drop_last_app. exact Hend.
Qed.

(** *** The marketplace rewrite *)

Ltac by_ascii c :=
  destruct c as [[] [] [] [] [] [] [] []]; vm_compute; intros H;
  first [discriminate H | reflexivity].

Lemma digit_not_in_hub c : is_digit c = true -> has_char c "huggingface.co" = false.
Proof. revert c. intros c. by_ascii c. Qed.

Lemma digit_not_in_marker c : is_digit c = true -> has_char c "modelVersionId" = false.
Proof. by_ascii c. Qed.

Lemma digit_not_m c : is_digit c = true -> Ascii.eqb c "m" = false.
Proof. by_ascii c. Qed.

Lemma digit_not_amp c : is_digit c = true -> Ascii.eqb c "&" = false.
Proof. by_ascii c. Qed.

(** The version id is the run of digits behind the marker. *)
Lemma version_id_extracted id rest :
  all_digits id = true -> rest = "" \/ startswith rest "&" = true ->
  before "&" (before "modelVersionId=" (id +:+ rest)) = id.
Proof.
  intros Hid [->|Hrest].
  - rewrite app_nil_r.
    assert (E : forall q sep, (forall c, is_digit c = true -> Ascii.eqb c q = false) ->
                  before (String q sep) id = id).
    { intros q sep Hq. unfold before.
      rewrite <- (app_nil_r id) at 1.
      now rewrite (partition_after_digits q sep id "" Hq Hid). }
    rewrite (E "m"%char _ digit_not_m). apply (E "&"%char _ digit_not_amp).
  - apply startswith_inv in Hrest as [r ->]. cbn [append].
    assert (E : exists y, before "modelVersionId=" (id +:+ String "&" r) = id +:+ String "&" y).
    { unfold before.
      rewrite (partition_after_digits "m"%char _ id _ digit_not_m Hid).
      change (String "&" r) with ("&" +:+ r).
      rewrite (partition_skip "m"%char _ "&" r eq_refl).
      destruct (partition "modelVersionId=" r) as [[b a]|]; [exists b|exists r]; reflexivity. }
    destruct E as [y ->]. unfold before.
    rewrite (partition_after_digits "&"%char _ id _ digit_not_amp Hid).
    cbn. apply app_nil_r.
Qed.

Lemma marketplace_url_of_version pre id rest :
  contains "modelVersionId=" pre = false ->
  all_digits id = true -> rest = "" \/ startswith rest "&" = true ->
  marketplace_url (pre +:+ "modelVersionId=" +:+ id +:+ rest) = Some (canonical_url id).
Proof.
  intros Hpre Hid Hrest. unfold marketplace_url.
  rewrite (contains_app_r "modelVersionId" pre) by reflexivity.
  rewrite (item_split_1 "m"%char _ _ pre (id +:+ rest)).
  - now rewrite version_id_extracted.
  - apply (partition_at "modelVersionId=" pre (id +:+ rest)).
    apply version_marker_clean, Hpre.
Qed.

Lemma canonical_not_hub id :
  all_digits id = true -> contains "huggingface.co" (canonical_url id) = false.
Proof.
  intros Hid. unfold canonical_url. destruct id as [|d id]; [reflexivity|].
  now rewrite (contains_around_digits _ _ _ d id _ digit_not_in_hub Hid).
Qed.

Lemma canonical_not_marked id :
  all_digits id = true -> contains "modelVersionId" (canonical_url id) = false.
Proof.
  intros Hid. unfold canonical_url. destruct id as [|d id]; [reflexivity|].
  now rewrite (contains_around_digits _ _ _ d id _ digit_not_in_marker Hid).
Qed.

Lemma canonical_is_safetensor id : contains "SafeTensor" (canonical_url id) = true.
Proof. unfold canonical_url. now do 2 apply contains_app_r. Qed.

Lemma canonical_is_marketplace id :
  all_digits id = true -> is_marketplace (canonical_url id) = true.
Proof.
  intros Hid. unfold is_marketplace, is_hub. rewrite (canonical_not_hub id Hid).
  unfold canonical_url. now apply contains_app_l.
Qed.

Lemma canonical_trimmed id : strip (canonical_url id) = canonical_url id.
Proof.
  unfold strip, canonical_url. cbn [append lstrip]. cbn [isspace N_of_ascii].
  change (rstrip ("https://civitai.com/api/download/models/" +:+ id
                    +:+ "?type=Model&format=SafeTensor")
          = "https://civitai.com/api/download/models/" +:+ id
              +:+ "?type=Model&format=SafeTensor").
  rewrite <- app_assoc, rstrip_app; [reflexivity|discriminate].
Qed.

Lemma get_lora_canonical id w :
  all_digits id = true ->
  get_lora_from_url (canonical_url id) w =
    cache_and_fetch "civitai" (get_filename_from_url (canonical_url id) "safetensors")
      (with_token (environ w !! "CIVITAI_API_KEY") (canonical_url id)) w.
Proof.
  intros Hid. rewrite get_lora_marketplace; rewrite canonical_trimmed;
    [|exact (canonical_is_marketplace id Hid)].
  cbv zeta. unfold marketplace_url.
  rewrite (canonical_not_marked id Hid), canonical_is_safetensor. reflexivity.
Qed.

(** A trimmed marketplace URL that carries [modelVersionId=<digits>] (first
    occurrence of the parameter, closed by the end of the URL or by [&])
    is rewritten to the canonical download URL of that version before the
    [SafeTensor] check, which the rewritten URL passes; from there on it is
    resolved exactly as the canonical URL itself: same hashed file name,
    same request, same result, same cache path. *)
Theorem version_id_reference_canonicalised pre id rest w :
  let url := pre +:+ "modelVersionId=" +:+ id +:+ rest in
  let fetch :=
    cache_and_fetch "civitai" (get_filename_from_url (canonical_url id) "safetensors")
      (with_token (environ w !! "CIVITAI_API_KEY") (canonical_url id)) in
  strip url = url -> startswith url "http" = true -> is_marketplace url = true ->
  contains "modelVersionId=" pre = false ->
  all_digits id = true ->
  rest = "" \/ startswith rest "&" = true ->
  marketplace_url url = Some (canonical_url id)
  /\ get_lora_from_url url w = fetch w
  /\ get_lora_from_url (canonical_url id) w = fetch w.
Proof.
  intros url fetch Hstrip Hhttp Hm Hpre Hid Hrest.
  pose proof (marketplace_url_of_version pre id rest Hpre Hid Hrest) as Hrw.
  fold url in Hrw.
  split; [exact Hrw|]. split; [|apply get_lora_canonical, Hid].
  rewrite get_lora_marketplace; rewrite Hstrip; [|exact Hm].
  cbv zeta. rewrite Hhttp, Hrw, canonical_is_safetensor.
  destruct url; [discriminate Hhttp|reflexivity].
Qed.

(** *** The cache path *)

(** Whatever is fetched, a successful resolution returns the cache path. *)
Lemma cache_and_fetch_path sub save_filename url w p w1 :
  cache_and_fetch sub save_filename url w = (Ok p, w1) ->
  p = PosixPath.join3 (cache_root w) sub save_filename.
Proof.
  unfold cache_and_fetch, bind. rewrite find_or_create_cache_run.
  unfold Os.path_exists at 1.
  destruct (negb _).
  - destruct (download_file _ _ _) as [[[]|e] w']; unfold ret; intros [= <- _]; reflexivity.
  - unfold ret. intros [= <- _]. reflexivity.
Qed.

Lemma cache_root_with_api_key key w : cache_root (with_api_key key w) = cache_root w.
Proof. reflexivity. Qed.

(** Once resolved, resolved for good: running the tail again on the world
    it left returns the same path and changes nothing. *)
Lemma cache_and_fetch_again sub name url w p w1 :
  plain_name sub -> has_char "/" name = false -> startswith name "/" = false ->
  cache_and_fetch sub name url w = (Ok p, w1) ->
  environ w1 = environ w
  /\ forall url', cache_and_fetch sub name url' w1 = (Ok p, w1).
Proof.
  intros Hsub Hname Hrel.
  set (L := PosixPath.join3 (cache_root w) sub name).
  assert (Hfinish : forall w',
            grows_under (cache_root w) w w' ->
            Os.exists_in w' (cache_root w) = true ->
            Os.exists_in w' L = true ->
            environ w' = environ w
            /\ forall url', cache_and_fetch sub name url' w' = (Ok L, w')).
  { intros w' Hg HC HL. split; [apply Hg|]. intros url'.
    unfold cache_and_fetch, bind. rewrite find_or_create_cache_run.
    unfold ensure_cache. rewrite (cache_root_stable w w' Hg), HC.
    unfold Os.path_exists. fold L. rewrite HL. reflexivity. }
  unfold cache_and_fetch at 1, bind. rewrite find_or_create_cache_run.
  unfold Os.path_exists at 1. fold L.
  destruct (Os.exists_in (ensure_cache w) L) eqn:EL; cbn [negb].
  - unfold ret. intros H. apply pair_equal_spec in H as [[= <-] <-].
    apply Hfinish; [apply ensure_cache_grows | apply ensure_cache_exists | exact EL].
  - destruct (download_file url L (ensure_cache w)) as [[[]|e] w'] eqn:Ed; [|discriminate].
    unfold ret. intros H. apply pair_equal_spec in H as [[= <-] <-].
    destruct (cache_root_form w) as [x Hx].
    pose proof (ensure_cache_exists w) as HC.
    unfold L in Ed. rewrite Hx in Ed, HC.
    apply (download_file_ok x sub name url _ w' Hsub Hname Hrel HC) in Ed as [Hg HL].
    rewrite <- Hx in Hg, HL, HC.
    apply Hfinish.
    + exact (grows_under_trans _ _ _ _ (ensure_cache_grows w) Hg).
    + destruct Hg as (_ & _ & Hm & _). apply Hm, HC.
    + exact HL.
Qed.

Lemma plain_general : plain_name "general".
Proof. repeat split; reflexivity. Qed.

Lemma plain_civitai : plain_name "civitai".
Proof. repeat split; reflexivity. Qed.

Lemma filename_no_slash url : has_char "/" (get_filename_from_url url "safetensors") = false.
Proof. unfold get_filename_from_url. now rewrite has_char_app, hex_no_slash. Qed.

Lemma no_slash_relative s : has_char "/" s = false -> startswith s "/" = false.
Proof.
  destruct s as [|c s]; [reflexivity|]. cbn [has_char startswith]. intros H.
  apply orb_false_elim in H as [H _]. now rewrite Ascii.eqb_sym, H.
Qed.

(** C3.  When a generic or marketplace reference has been resolved, a
    second call with the same reference on the world the first call left
    returns the identical path and leaves that world as it is: the cache
    file is found, nothing is requested, created or written. *)
Theorem second_resolution_hits_cache url w p w1 :
  is_hub (strip url) = false ->
  get_lora_from_url url w = (Ok p, w1) ->
  get_lora_from_url url w1 = (Ok p, w1).
Proof.
  intros Hh.
  destruct (contains "civitai.com" (strip url)) eqn:Hc.
  - assert (Hm : is_marketplace (strip url) = true)
      by (unfold is_marketplace; now rewrite Hh, Hc).
    rewrite !(get_lora_marketplace url _ Hm). cbv zeta.
    destruct (String.eqb (strip url) ""); [discriminate|].
    destruct (negb (startswith (strip url) "http")); [discriminate|].
    destruct (marketplace_url (strip url)) as [u'|]; [|discriminate].
    destruct (negb (contains "SafeTensor" u')); [discriminate|].
    intros H.
    apply cache_and_fetch_again in H as [_ H];
      [apply H | apply plain_civitai | apply filename_no_slash
      | apply no_slash_relative, filename_no_slash].
  - assert (Hg : is_generic (strip url) = true)
      by (unfold is_generic; now rewrite Hh, Hc).
    rewrite !(get_lora_generic url _ Hg). cbv zeta.
    destruct (String.eqb (strip url) ""); [discriminate|].
    destruct (negb (startswith (strip url) "http")); [discriminate|].
    destruct (negb (endswith (url_path (lower (strip url))) "safetensors")); [discriminate|].
    intros H.
    apply cache_and_fetch_again in H as [_ H];
      [apply H | apply plain_general | apply filename_no_slash
      | apply no_slash_relative, filename_no_slash].
Qed.

(** C5.  For a marketplace reference, two runs that differ only in the
    value of [CIVITAI_API_KEY] (set to anything, or unset) and that both
    succeed return the same path: the cache root joined with [civitai] and
    the hash of the rewritten URL, to which no token has been appended. *)
Theorem cache_path_ignores_api_key url w key1 key2 p1 p2 w1 w2 :
  is_marketplace (strip url) = true ->
  get_lora_from_url url (with_api_key key1 w) = (Ok p1, w1) ->
  get_lora_from_url url (with_api_key key2 w) = (Ok p2, w2) ->
  p1 = p2
  /\ exists u', marketplace_url (strip url) = Some u'
       /\ p1 = PosixPath.join3 (cache_root w) "civitai" (get_filename_from_url u' "safetensors").
Proof.
  intros Hm. rewrite !(get_lora_marketplace url _ Hm). cbv zeta.
  destruct (String.eqb (strip url) ""); [discriminate|].
  destruct (negb (startswith (strip url) "http")); [discriminate|].
  destruct (marketplace_url (strip url)) as [u'|]; [|discriminate].
  destruct (negb (contains "SafeTensor" u')); [discriminate|].
  intros H1 H2.
  apply cache_and_fetch_path in H1. apply cache_and_fetch_path in H2.
  rewrite cache_root_with_api_key in H1, H2.
  split; [congruence|]. exists u'. split; [reflexivity|exact H1].
Qed.

(** *** Hub references *)

Section HubUrl.
Variables (owner repo revision file : string) (segments : list string).
Hypothesis Hsegments : Forall (segment_but "blob") (owner :: repo :: revision :: segments).
Hypothesis Hnonempty : Forall (segment_but "") (owner :: repo :: revision :: segments).
Hypothesis Hfile : has_char "/" file = false.

Let fname := file +:+ ".safetensors".
Let path := owner :: repo :: "resolve" :: revision :: segments ++ [fname].
Let url := hub_url owner repo revision segments file.

Lemma fname_segment other : String.length other < 12 -> segment_but other fname.
Proof.
  intros Hlen. split.
  - unfold fname. now rewrite has_char_app, Hfile.
  - intros E. apply (f_equal String.length) in E.
    unfold fname in E. rewrite length_app in E. cbn in E. lia.
Qed.

Lemma path_segments other :
  String.length other < 12 -> other <> "resolve" ->
  Forall (segment_but other) (owner :: repo :: revision :: segments) ->
  Forall (segment_but other) path.
Proof.
  intros Hlen Hres H.
  inversion H as [|? ? Ho H1]; subst. inversion H1 as [|? ? Hr H2]; subst.
  inversion H2 as [|? ? Hv H3]; subst.
  unfold path.
  constructor; [exact Ho|]. constructor; [exact Hr|].
  constructor; [split; [reflexivity|intros E; now apply Hres]|].
  constructor; [exact Hv|].
  apply Forall_app. split; [exact H3|]. constructor; [|constructor].
  now apply fname_segment.
Qed.

Lemma url_as_text : url = "https://huggingface.co/" +:+ join "/" path.
Proof. reflexivity. Qed.

Lemma url_ends : exists a, url = a +:+ ".safetensors".
Proof.
  rewrite url_as_text. unfold path.
  change (owner :: repo :: "resolve" :: revision :: segments ++ [fname])
    with ((owner :: repo :: "resolve" :: revision :: segments) ++ [file +:+ ".safetensors"]).
  rewrite join_snoc_app, <- app_assoc. eauto.
Qed.

Lemma url_trimmed : strip url = url.
Proof.
  unfold strip. replace (lstrip url) with url by reflexivity.
  destruct url_ends as [a E]. rewrite E.
  rewrite rstrip_app; [reflexivity|discriminate].
Qed.

Lemma url_no_download_marker : endswith url "?download=true" = false.
Proof.
  destruct url_ends as [a E]. rewrite E.
  change (a +:+ ".safetensors") with (a +:+ String "." "safetensors").
  now rewrite (endswith_barrier "." "?download=true").
Qed.

Lemma url_ends_lower : endswith (lower url) "safetensors" = true.
Proof.
  destruct url_ends as [a E]. rewrite E, lower_app.
  change (lower ".safetensors") with ("." +:+ "safetensors").
  rewrite <- app_assoc. apply endswith_app.
Qed.

Lemma url_no_blob : contains "/blob/" url = false.
Proof.
  change url with (join "/" ("https:" :: "" :: "huggingface.co" :: path)).
  apply (contains_segment "blob"); [reflexivity|].
  repeat (constructor; [split; [reflexivity|discriminate]|]).
  apply path_segments; [cbn; lia | discriminate | exact Hsegments].
Qed.

(** Behind the scheme there is no empty segment, hence no [//]. *)
Lemma host_path_no_double_slash :
  contains "//" (join "/" ("huggingface.co" :: path)) = false.
Proof.
  apply (contains_segment ""); [reflexivity|].
  constructor; [split; [reflexivity|discriminate]|].
  apply path_segments; [cbn; lia | discriminate | exact Hnonempty].
Qed.

Lemma url_without_scheme :
  replace "https://" "" (replace "http://" "" url) = join "/" ("huggingface.co" :: path).
Proof.
  set (rest := join "/" ("huggingface.co" :: path)).
  assert (Hhttp : contains "http://" rest = false).
  { destruct (contains "http://" rest) eqn:E; [|reflexivity].
    apply (contains_pattern_suffix "http:" "//") in E.
    unfold rest in E. now rewrite host_path_no_double_slash in E. }
  assert (Hhttps : contains "https://" rest = false).
  { destruct (contains "https://" rest) eqn:E; [|reflexivity].
    apply (contains_pattern_suffix "https:" "//") in E.
    unfold rest in E. now rewrite host_path_no_double_slash in E. }
  assert (Hurl : url = "https://" +:+ rest) by reflexivity.
  rewrite (replace_absent "http://" "" url).
  - unfold replace.
    destruct (String.length url) as [|n] eqn:El; [rewrite Hurl in El; discriminate El|].
    cbn [replace_fuel].
    assert (Hp : partition "https://" url = Some ("", rest)) by reflexivity.
    rewrite Hp. cbn [append].
    apply partition_none in Hhttps.
    destruct n; cbn [replace_fuel]; [reflexivity|now rewrite Hhttps].
  - rewrite Hurl. cbn [append].
    rewrite contains_cons. cbn [startswith Ascii.eqb Bool.eqb andb orb].
    repeat (rewrite contains_cons_foreign by reflexivity).
    exact Hhttp.
Qed.

Lemma path_slash_free : Forall (fun s => has_char "/" s = false) ("huggingface.co" :: path).
Proof.
  constructor; [reflexivity|].
  assert (H : Forall (segment_but "blob") path)
    by (apply path_segments; [cbn; lia | discriminate | exact Hsegments]).
  eapply Forall_impl; [exact H|]. now intros s [Hs _].
Qed.

(** The parse of a hub URL none of whose segments is empty or the word
    [blob]: the repo id is [owner/repo], the file name is the last segment,
    the subfolder is the intermediate segments joined by [/], and there is
    none exactly when there are no intermediate segments. *)
Lemma hub_reference_parsed w :
  trimmed (owner +:+ "/" +:+ repo) -> trimmed fname ->
  get_lora_from_url url w
  = (do cache <- find_or_create_cache;
     hf_hub_download
       (mkHubRequest (owner +:+ "/" +:+ repo) fname (subfolder_of segments) cache)) w.
Proof.
  intros Hrepo Hname. unfold get_lora_from_url. cbv zeta.
  rewrite url_trimmed.
  replace (String.eqb url "") with false by reflexivity.
  replace (startswith url "http") with true by reflexivity.
  replace (contains "huggingface.co" url) with true
    by (symmetry; rewrite url_as_text; now apply contains_app_l).
  cbn [negb]. rewrite url_no_download_marker, url_no_blob, url_ends_lower. cbn [negb].
  rewrite url_without_scheme, (split_join _ _ path_slash_free).
  set (parts := "huggingface.co" :: path).
  assert (H1 : nth_error parts 1 = Some owner) by reflexivity.
  assert (H2 : nth_error parts 2 = Some repo) by reflexivity.
  assert (H3 : last_item parts = Some fname)
    by apply (last_item_snoc
                ("huggingface.co" :: owner :: repo :: "resolve" :: revision :: segments)).
  assert (H4 : (if (Z.of_nat (List.length parts) - 6 >? 0)%Z
                then Some (join "/" (slice_5_to_last parts)) else None)
               = subfolder_of segments).
  { unfold slice_5_to_last, parts, path. cbn [skipn List.length].
    rewrite skipn_O, removelast_last, List.length_app. cbn [List.length].
    destruct segments as [|s l]; [reflexivity|].
    cbn [subfolder_of List.length].
    destruct (Z.gtb_spec (Z.of_nat (S (S (S (S (S (S (List.length l) + 1)))))) - 6) 0);
      [reflexivity|lia]. }
  unfold bind at 1. unfold item at 1. rewrite H1. unfold ret at 1.
  unfold bind at 1. unfold item at 1. rewrite H2. unfold ret at 1.
  unfold bind at 1. unfold item_last. rewrite H3. unfold ret at 1.
  rewrite H4, Hrepo, Hname. reflexivity.
Qed.

End HubUrl.

(** C1, at the input where the code departs from it.  In
    [.../resolve/main/blob/f.safetensors] the one intermediate segment is
    [blob], so the subfolder is [blob]; the blanket replacement of [/blob/]
    turns it into [resolve], and that is the subfolder [hf_hub_download] is
    asked for. *)
Theorem hub_subfolder_named_blob_is_rewritten w :
  let url := hub_url "o" "r" "main" ["blob"] "f" in
  url = "https://huggingface.co/o/r/resolve/main/blob/f.safetensors"
  /\ get_lora_from_url url w
     = (do cache <- find_or_create_cache;
        hf_hub_download (mkHubRequest "o/r" "f.safetensors" (Some "resolve") cache)) w
  /\ subfolder_of ["blob"] = Some "blob"
  /\ exists req, In (EvHubDownload req) (trace (snd (get_lora_from_url url w)))
                 /\ subfolder req <> subfolder_of ["blob"].
Proof.
  intros url. split; [reflexivity|]. split; [reflexivity|]. split; [reflexivity|].
  exists (mkHubRequest "o/r" "f.safetensors" (Some "resolve") (cache_root w)).
  split; [|discriminate].
  change (get_lora_from_url url w)
    with ((do cache <- find_or_create_cache;
           hf_hub_download (mkHubRequest "o/r" "f.safetensors" (Some "resolve") cache)) w).
  unfold bind at 1. rewrite find_or_create_cache_run.
  unfold hf_hub_download, bind, emit, lift_result. cbn [trace].
  destruct (hub_fetch _) as [r|e]; cbn [snd trace];
    apply in_or_app; right; left; reflexivity.
Qed.

(** The same code on references without such a segment: no subfolder for
    [N = 0], the joined segments for [N = 2]. *)
Example hub_reference_without_subfolder w :
  get_lora_from_url "https://huggingface.co/o/r/resolve/main/f.safetensors" w
  = (do cache <- find_or_create_cache;
     hf_hub_download (mkHubRequest "o/r" "f.safetensors" None cache)) w.
Proof. reflexivity. Qed.

Example hub_reference_with_two_subfolders w :
  get_lora_from_url "https://huggingface.co/o/r/resolve/main/a/b/f.safetensors" w
  = (do cache <- find_or_create_cache;
     hf_hub_download (mkHubRequest "o/r" "f.safetensors" (Some "a/b") cache)) w.
Proof. reflexivity. Qed.

End ResolverProofs.

Example hub_reference_parsed_example :
  get_lora_from_url (Ext := Sample.externals)
    "https://huggingface.co/acme/styles/resolve/v2/flux/portrait/ink.safetensors" Sample.world
  = (do cache <- find_or_create_cache;
     hf_hub_download (Ext := Sample.externals)
       (mkHubRequest "acme/styles" "ink.safetensors" (Some "flux/portrait") cache))
      Sample.world.
Proof.
  apply (hub_reference_parsed (Ext := Sample.externals)
           "acme" "styles" "v2" "ink" ["flux"; "portrait"]);
    try reflexivity;
    repeat (constructor; [split; [reflexivity|discriminate]|]); constructor.
Qed.

Lemma unsupported_reference_rejected_witness :
  (exists msg, get_lora_from_url (Ext := Sample.externals)
                 "https://example.com/model.ckpt?name=x.safetensors" Sample.world
               = (Raise (ValueError msg), Sample.world))
  /\ (exists msg, get_lora_from_url (Ext := Sample.externals)
                    "https://civitai.com/api/download/models/5?type=Model" Sample.world
                  = (Raise (ValueError msg), Sample.world))
  /\ (exists msg, get_lora_from_url (Ext := Sample.externals)
                    "https://huggingface.co/o/r/resolve/main/f.bin?download=true" Sample.world
                  = (Raise (ValueError msg), Sample.world)).
Proof.
  split; [|split].
  - destruct (unsupported_reference_rejected (Ext := Sample.externals)
                "https://example.com/model.ckpt?name=x.safetensors" Sample.world)
      as (Hgeneric & _ & _).
    apply Hgeneric; reflexivity.
  - destruct (unsupported_reference_rejected (Ext := Sample.externals)
                "https://civitai.com/api/download/models/5?type=Model" Sample.world)
      as (_ & Hmarket & _).
    apply Hmarket; reflexivity.
  - destruct (unsupported_reference_rejected (Ext := Sample.externals)
                "https://huggingface.co/o/r/resolve/main/f.bin?download=true" Sample.world)
      as (_ & _ & Hhub).
    apply (Hhub eq_refl "https://huggingface.co/o/r/resolve/main/f.bin");
      [reflexivity | reflexivity | right; reflexivity].
Defined.

(** C2 as stated fails on the marketplace branch: the path of civitai's own
    download URL does not end in [safetensors], yet the reference is
    accepted and the file is requested. *)
Lemma marketplace_download_url_accepted :
  let url := "https://civitai.com/api/download/models/123?type=Model&format=SafeTensor" in
  PyStr.endswith (PyStr.lower (StrSpec.url_path url)) "safetensors" = false
  /\ exists p w1,
       get_lora_from_url (Ext := Sample.open_externals) url Sample.world = (Ok p, w1)
       /\ existsb is_network (trace w1) = true.
Proof.
  split; [reflexivity|].
  eexists. eexists. split; [vm_compute; reflexivity|]. reflexivity.
Qed.

Lemma version_id_reference_canonicalised_witness :
  get_lora_from_url (Ext := Sample.open_externals)
    "https://civitai.com/models/111?modelVersionId=123" Sample.world
  = get_lora_from_url (Ext := Sample.open_externals)
      "https://civitai.com/api/download/models/123?type=Model&format=SafeTensor" Sample.world
  /\ fst (get_lora_from_url (Ext := Sample.open_externals)
            "https://civitai.com/models/111?modelVersionId=123" Sample.world)
     = Ok "/srv/huggingface_cache/civitai/68747470.safetensors".
Proof.
  destruct (version_id_reference_canonicalised (Ext := Sample.open_externals)
              "https://civitai.com/models/111?" "123" "" Sample.world)
    as (_ & Hform & Hcanon);
    [reflexivity | reflexivity | reflexivity | reflexivity | reflexivity | left; reflexivity |].
  split.
  - exact (eq_trans Hform (eq_sym Hcanon)).
  - vm_compute. reflexivity.
Defined.

Lemma cache_path_ignores_api_key_witness :
  let url := "https://civitai.com/api/download/models/123?type=Model&format=SafeTensor" in
  let run key := get_lora_from_url (Ext := Sample.open_externals) url
                   (with_api_key key Sample.world) in
  exists p1 p2,
    fst (run None) = Ok p1 /\ fst (run (Some "secret")) = Ok p2 /\ p1 = p2
    /\ trace (snd (run None)) <> trace (snd (run (Some "secret"))).
Proof.
  intros url run.
  exists "/srv/huggingface_cache/civitai/68747470.safetensors".
  exists "/srv/huggingface_cache/civitai/68747470.safetensors".
  split; [vm_compute; reflexivity|]. split; [vm_compute; reflexivity|]. split.
  - apply (cache_path_ignores_api_key (Ext := Sample.open_externals) url Sample.world
             None (Some "secret") _ _ (snd (run None)) (snd (run (Some "secret"))));
      vm_compute; reflexivity.
  - vm_compute. discriminate.
Defined.

Lemma second_resolution_hits_cache_witness :
  let url := "https://example.com/loras/style.safetensors?rev=2" in
  let first := get_lora_from_url (Ext := Sample.externals) url Sample.world in
  fst first = Ok "/srv/huggingface_cache/general/68747470.safetensors"
  /\ existsb is_network (trace (snd first)) = true
  /\ get_lora_from_url (Ext := Sample.externals) url (snd first)
     = (Ok "/srv/huggingface_cache/general/68747470.safetensors", snd first).
Proof.
  intros url first.
  split; [vm_compute; reflexivity|]. split; [vm_compute; reflexivity|].
  apply (second_resolution_hits_cache (Ext := Sample.externals) url Sample.world);
    vm_compute; reflexivity.
Defined.

(** ** The LoRA loader nodes: properties *)

Section LoaderProofs.
Context `{Ext : Externals} `{Cmf : Comfy}.

Lemma path_matches_spec stored p : path_matches stored p = true <-> stored = Some p.
Proof.
  unfold path_matches. destruct stored as [q|].
  - rewrite String.eqb_eq. split; [intros ->; reflexivity | intros [= ->]; reflexivity].
  - split; discriminate.
Qed.

(** A hit: the stored payload is handed back, nothing is read. *)
Lemma cached_or_load_hit p l self w :
  loaded_lora self = Some l -> loaded_lora_path self = Some p ->
  cached_or_load p (self, w) = (Ok l, (self, w)).
Proof.
  intros Hl Hp. unfold cached_or_load, bind, get_self. cbn.
  rewrite Hl. apply path_matches_spec in Hp. rewrite Hp. reflexivity.
Qed.

(** A miss: whatever was stored is dropped before the file is read; the
    new payload is stored only if reading succeeds. *)
Lemma cached_or_load_miss p self w :
  loaded_lora self = None \/ loaded_lora_path self <> Some p ->
  cached_or_load p (self, w) =
    match load_torch_file p w with
    | (Ok l', w2) => (Ok l', (mkLoaderSelf (Some l') (Some p), w2))
    | (Raise e, w2) =>
        (Raise e,
         (match loaded_lora self with
          | Some _ => mkLoaderSelf None None
          | None => self
          end, w2))
    end.
Proof.
  intros Hmiss. unfold cached_or_load, bind, get_self, in_world.
  destruct self as [[l|] stored]; cbn -[load_torch_file] in *.
  - destruct Hmiss as [Hn|Hn]; [discriminate|].
    destruct (path_matches stored p) eqn:E; [apply path_matches_spec in E; contradiction|].
    cbn -[load_torch_file].
    destruct (load_torch_file p w) as [[l'|e] w2]; reflexivity.
  - destruct (load_torch_file p w) as [[l'|e] w2]; reflexivity.
Qed.

Lemma load_lora_unfold i model clip sm sc self w :
  load_lora i model clip sm sc (self, w) =
    if is_zero sm && is_zero sc then (Ok (model, clip), (self, w))
    else
      match resolve i w with
      | (Raise e, w1) => (Raise e, (self, w1))
      | (Ok p, w1) =>
          match cached_or_load p (self, w1) with
          | (Ok l, sw) => (load_lora_for_models model clip l sm sc, sw)
          | (Raise e, sw) => (Raise e, sw)
          end
      end.
Proof.
  destruct i; cbn [load_lora resolve];
    unfold LoraLoaderFromURL_load_lora, HFHubLoraLoader_load_lora;
    (destruct (is_zero sm && is_zero sc); [reflexivity|]);
    unfold bind, in_world, lift_result; cbn [fst snd].
  - destruct (get_lora_from_url url w) as [[p|e] w1]; reflexivity.
  - destruct (HFHubLoraLoader_lora_path repo sub file w) as [[p|e] w1]; reflexivity.
Qed.

Lemma is_zero_false x : x <> 0%R -> is_zero x = false.
Proof. intros H. unfold is_zero. destruct (Req_dec_T x 0); [contradiction|reflexivity]. Qed.

Lemma strengths_nonzero sm sc :
  sm <> 0%R \/ sc <> 0%R -> is_zero sm && is_zero sc = false.
Proof.
  intros [H|H]; rewrite (is_zero_false _ H); [reflexivity|apply andb_false_r].
Qed.

Lemma load_lora_paired i model clip sm sc self w :
  paired self -> paired (fst (snd (load_lora i model clip sm sc (self, w)))).
Proof.
  intros Hp. rewrite load_lora_unfold.
  destruct (is_zero sm && is_zero sc); [exact Hp|].
  destruct (resolve i w) as [[p|e] w1]; [|exact Hp].
  destruct (loaded_lora self) as [l|] eqn:El.
  - destruct (path_matches (loaded_lora_path self) p) eqn:Em.
    + apply path_matches_spec in Em.
      rewrite (cached_or_load_hit p l self w1 El Em).
      destruct (load_lora_for_models model clip l sm sc); exact Hp.
    + rewrite cached_or_load_miss
        by (right; intros E; apply path_matches_spec in E; congruence).
      rewrite El.
      destruct (load_torch_file p w1) as [[l'|e] w2]; cbn.
      * destruct (load_lora_for_models model clip l' sm sc); cbn; split; discriminate.
      * split; reflexivity.
  - rewrite cached_or_load_miss by (left; exact El). rewrite El.
    destruct (load_torch_file p w1) as [[l'|e] w2]; cbn.
    + destruct (load_lora_for_models model clip l' sm sc); cbn; split; discriminate.
    + exact Hp.
Qed.

(** C9.  For both loader nodes: a payload is held exactly when a path is
    recorded for it, before and after every call.  When a call resolves a
    path [p]: if [p] is the recorded path, the stored payload is used and
    nothing is read (the world is the one the resolution left); otherwise
    the stored payload is dropped, the file at [p] is read, and on success
    the instance holds the new payload recorded under [p] -- on failure it
    holds none. *)
Theorem loader_holds_latest_payload_only i model clip sm sc self w :
  (paired self -> paired (fst (snd (load_lora i model clip sm sc (self, w)))))
  /\ forall p w1,
      sm <> 0%R \/ sc <> 0%R ->
      resolve i w = (Ok p, w1) ->
      (forall l, loaded_lora self = Some l -> loaded_lora_path self = Some p ->
         load_lora i model clip sm sc (self, w)
         = (load_lora_for_models model clip l sm sc, (self, w1)))
      /\ (loaded_lora self = None \/ loaded_lora_path self <> Some p ->
          (forall l' w2, load_torch_file p w1 = (Ok l', w2) ->
             load_lora i model clip sm sc (self, w)
             = (load_lora_for_models model clip l' sm sc,
                (mkLoaderSelf (Some l') (Some p), w2)))
          /\ (forall e w2, load_torch_file p w1 = (Raise e, w2) ->
              exists self',
                load_lora i model clip sm sc (self, w) = (Raise e, (self', w2))
                /\ loaded_lora self' = None)).
Proof.
  split; [apply load_lora_paired|].
  intros p w1 Hs Hr.
  rewrite load_lora_unfold, (strengths_nonzero _ _ Hs), Hr.
  split.
  - intros l Hl Hp. rewrite (cached_or_load_hit p l self w1 Hl Hp). reflexivity.
  - intros Hmiss. rewrite (cached_or_load_miss p self w1 Hmiss). split.
    + intros l' w2 ->. reflexivity.
    + intros e w2 ->. eexists. split; [reflexivity|].
      destruct (loaded_lora self) eqn:El; [reflexivity|exact El].
Qed.

End LoaderProofs.

Lemma loader_holds_latest_payload_only_witness :
  let url := "https://example.com/style.safetensors" in
  let p := "/srv/huggingface_cache/general/68747470.safetensors" in
  let w1 := snd (get_lora_from_url (Ext := Sample.externals) url Sample.world) in
  let w2 := snd (load_torch_file (Cmf := Sample.comfy) p w1) in
  let held := @mkLoaderSelf Sample.comfy (Some "weights") (Some p) in
  load_lora (Ext := Sample.externals) (Cmf := Sample.comfy) (FromURL url) [] [] 1 1 (loader_init, Sample.world)
    = (Ok (["weights"], ["weights"]), (held, w2))
  /\ load_lora (Ext := Sample.externals) (Cmf := Sample.comfy) (FromURL url) [] [] 1 1 (held, Sample.world)
    = (Ok (["weights"], ["weights"]), (held, w1)).
Proof.
  intros url p w1 w2 held.
  destruct (loader_holds_latest_payload_only (Ext := Sample.externals) (Cmf := Sample.comfy) (FromURL url) [] [] 1 1 loader_init Sample.world)
    as [_ Hfresh].
  destruct (loader_holds_latest_payload_only (Ext := Sample.externals) (Cmf := Sample.comfy) (FromURL url) [] [] 1 1 held Sample.world)
    as [_ Hheld].
  specialize (Hfresh p w1 ltac:(left; lra) ltac:(vm_compute; reflexivity)).
  specialize (Hheld p w1 ltac:(left; lra) ltac:(vm_compute; reflexivity)).
  split.
  - destruct Hfresh as [_ Hmiss].
    destruct (Hmiss ltac:(left; reflexivity)) as [Hok _].
    apply (Hok "weights" w2). vm_compute; reflexivity.
  - destruct Hheld as [Hhit _].
    apply (Hhit "weights"); reflexivity.
Defined.

(** ** ImagePaddingAdvanced: properties *)

Module PaddingProofs.
Import ImagePaddingAdvanced PaddingSpec.
Local Open Scope Z_scope.

(** The pad is split in two halves; an odd pad leaves its extra unit on the
    trailing side. *)
Lemma half_split p :
  0 <= p -> 0 <= p / 2 /\ p / 2 <= p - p / 2 <= p / 2 + 1.
Proof.
  intros Hp.
  pose proof (Z.div_mod p 2 ltac:(lia)) as E.
  pose proof (Z.mod_pos_bound p 2 ltac:(lia)) as B.
  lia.
Qed.

Lemma inside_true lo n k : lo <= k < lo + n -> inside lo n k = true.
Proof. intros H. unfold inside. apply andb_true_intro. split; [apply Z.leb_le|apply Z.ltb_lt]; lia. Qed.



Lemma run_unchanged im w h method :
  w <= width im -> h <= height im -> run im w h method = Ok im.
Proof.
  intros Hw Hh. unfold run, shape.
  destruct (Z.gtb_spec w (width im)); [lia|].
  destruct (Z.gtb_spec h (height im)); [lia|].
  reflexivity.
Qed.

Lemma run_padded im w h method :
  width im <= w -> height im <= h -> width im < w \/ height im < h ->
  run im w h method =
    let pad_left := (w - width im) / 2 in
    let pad_right := (w - width im) - pad_left in
    let pad_top := (h - height im) / 2 in
    let pad_bottom := (h - height im) - pad_top in
    if String.eqb method "constant" then Ok (pad_constant im pad_left pad_right pad_top pad_bottom)
    else if String.eqb method "replicate" then
      Ok (pad_replicate im pad_left pad_right pad_top pad_bottom)
    else pad_reflect im pad_left pad_right pad_top pad_bottom.
Proof.
  intros Hw Hh Hlt. unfold run, shape.
  destruct (Z.gtb_spec w (width im)) as [Hgw|Hgw];
    destruct (Z.gtb_spec h (height im)) as [Hgh|Hgh]; try lia.
  - destruct (Z.eqb_spec (h - height im) 0) as [E|_]; [lia|]. reflexivity.
  - assert (E0 : h - height im = 0) by lia. rewrite E0.
    destruct (Z.eqb_spec (w - width im) 0) as [E|_]; [lia|]. reflexivity.
  - assert (E0 : w - width im = 0) by lia. rewrite E0.
    destruct (Z.eqb_spec (h - height im) 0) as [E|_]; [lia|]. reflexivity.
Qed.




End PaddingProofs.

(** ** FilmGrainNode: properties *)

Module GrainProofs.
Import FilmGrainNode GrainSpec.
Local Open Scope R_scope.

Lemma Req_b_true a b : a = b -> Req_b a b = true.
Proof. intros H. unfold Req_b. destruct (Req_dec_T a b); [reflexivity|contradiction]. Qed.

Lemma Req_b_false a b : a <> b -> Req_b a b = false.
Proof. intros H. unfold Req_b. destruct (Req_dec_T a b); [contradiction|reflexivity]. Qed.

Lemma Rlt_b_true a b : a < b -> Rlt_b a b = true.
Proof. intros H. unfold Rlt_b. destruct (Rlt_dec a b); [reflexivity|contradiction]. Qed.

Lemma Rlt_b_false a b : b <= a -> Rlt_b a b = false.
Proof. intros H. unfold Rlt_b. destruct (Rlt_dec a b); [lra|reflexivity]. Qed.

Lemma Rle_b_true a b : a <= b -> Rle_b a b = true.
Proof. intros H. unfold Rle_b. destruct (Rle_dec a b); [reflexivity|contradiction]. Qed.

Lemma Rle_b_false a b : b < a -> Rle_b a b = false.
Proof. intros H. unfold Rle_b. destruct (Rle_dec a b); [lra|reflexivity]. Qed.

Lemma clamp01_inside x : 0 <= x <= 1 -> clamp01 x = x.
Proof.
  intros [H0 H1]. unfold clamp01, Rmax, Rmin.
  destruct (Rle_dec 0 x); [|lra]. destruct (Rle_dec 1 x); lra.
Qed.

(** The float remainder of a value known to lie in [k m, (k + 1) m). *)
Lemma remainder_in x m k :
  0 < m -> IZR k * m <= x < (IZR k + 1) * m -> remainder x m = x - m * IZR k.
Proof.
  intros Hm [Hlo Hhi]. unfold remainder. do 3 f_equal. symmetry.
  apply Int_part_spec. split.
  - apply (Rmult_lt_reg_r m); [exact Hm|].
    unfold Rdiv. rewrite Rmult_minus_distr_r, Rmult_assoc, Rinv_l by lra. lra.
  - apply (Rmult_le_reg_r m); [exact Hm|].
    unfold Rdiv. rewrite Rmult_assoc, Rinv_l by lra. lra.
Qed.

Ltac decide_masks :=
  repeat match goal with
         | |- context [Rlt_b ?a ?b] =>
             first [rewrite (Rlt_b_true a b) by lra | rewrite (Rlt_b_false a b) by lra]
         | |- context [Rle_b ?a ?b] =>
             first [rewrite (Rle_b_true a b) by lra | rewrite (Rle_b_false a b) by lra]
         end.

Ltac halve :=
  match goal with
  | |- context [(?a / 2)%Z] =>
      let v := eval vm_compute in (a / 2)%Z in change (a / 2)%Z with v
  end.

(** The colour written for a hue in the [k]-th sixth of the circle. *)
Lemma sector_rgb_at c h k :
  (0 <= k <= 5)%Z -> IZR k <= h * 6 < IZR k + 1 ->
  sector_rgb c (Some h) =
    let x := c * (1 - Rabs (h * 6 - 2 * IZR (k / 2) - 1)) in
    match k with
    | 0%Z => (c, x, 0)
    | 1%Z => (x, c, 0)
    | 2%Z => (0, c, x)
    | 3%Z => (0, x, c)
    | 4%Z => (x, 0, c)
    | _ => (c, 0, x)
    end.
Proof.
  intros Hk Hh. unfold sector_rgb.
  assert (Hrem : remainder (h * 6) 2 = h * 6 - 2 * IZR (k / 2)).
  { apply remainder_in; [lra|].
    assert (Hc : (k = 0 \/ k = 1 \/ k = 2 \/ k = 3 \/ k = 4 \/ k = 5)%Z) by lia.
    repeat destruct Hc as [Hc|Hc]; subst k; halve; lra. }
  rewrite Hrem. cbv zeta.
  assert (Hc : (k = 0 \/ k = 1 \/ k = 2 \/ k = 3 \/ k = 4 \/ k = 5)%Z) by lia.
  repeat destruct Hc as [Hc|Hc]; subst k; decide_masks; reflexivity.
Qed.

(** A quotient by a positive number, between the bounds of its numerator. *)
Lemma quotient_between a d lo hi :
  0 < d -> lo * d <= a <= hi * d -> lo <= a / d <= hi.
Proof.
  intros Hd [Hlo Hhi]. split.
  - apply (Rmult_le_reg_r d); [exact Hd|].
    unfold Rdiv. rewrite Rmult_assoc, Rinv_l by lra. lra.
  - apply (Rmult_le_reg_r d); [exact Hd|].
    unfold Rdiv. rewrite Rmult_assoc, Rinv_l by lra. lra.
Qed.

Lemma quotient_times a d : d <> 0 -> a / d * d = a.
Proof. intros Hd. field. exact Hd. Qed.

Lemma extremes_max_min r g b :
  extremes r g b (Rmax (Rmax r g) b) (Rmin (Rmin r g) b).
Proof.
  unfold extremes, Rmax, Rmin.
  repeat destruct (Rle_dec _ _); repeat split; lra.
Qed.

Ltac use_sector k :=
  rewrite (sector_rgb_at _ _ k) by (first [lia | lra]); cbv zeta; halve.

Ltac finish_pixel :=
  match goal with
  | Ht : ?t * ?d = _ |- _ =>
      repeat match goal with
             | |- context [Rabs ?e] =>
                 first [rewrite (Rabs_pos_eq e) by lra | rewrite (Rabs_left1 e) by lra]
             end;
      repeat f_equal; nra
  end.

(** Back from HSV, when blue is the largest channel. *)
Lemma rgb_restored_blue r g b v mn :
  extremes r g b v mn -> b = v -> 0 < v - mn ->
  (let '(r', g', b') :=
     sector_rgb (v - mn) (Some ((240 + 60 * (r - g) / (v - mn)) / 360)) in
   (r' + mn, g' + mn, b' + mn)) = (r, g, b).
Proof.
  intros [(Hr & Hg & Hb & Hv) (Hr' & Hg' & Hb' & Hm)] Hbv Hd.
  set (t := (r - g) / (v - mn)).
  assert (Ht : t * (v - mn) = r - g) by (apply quotient_times; lra).
  assert (Hb1 : -1 <= t <= 1) by (apply quotient_between; lra).
  replace (60 * (r - g) / (v - mn)) with (60 * t) by (unfold t; field; lra).
  destruct (Rle_dec 0 t) as [H0|H0].
  - destruct (Rlt_dec t 1) as [H1|H1].
    + use_sector 4%Z. finish_pixel.
    + use_sector 5%Z. finish_pixel.
  - use_sector 3%Z. finish_pixel.
Qed.

(** Back from HSV, when green is the largest channel and blue is not. *)
Lemma rgb_restored_green r g b v mn :
  extremes r g b v mn -> g = v -> b <> v -> 0 < v - mn ->
  (let '(r', g', b') :=
     sector_rgb (v - mn) (Some ((120 + 60 * (b - r) / (v - mn)) / 360)) in
   (r' + mn, g' + mn, b' + mn)) = (r, g, b).
Proof.
  intros [(Hr & Hg & Hb & Hv) (Hr' & Hg' & Hb' & Hm)] Hgv Hbv Hd.
  set (t := (b - r) / (v - mn)).
  assert (Ht : t * (v - mn) = b - r) by (apply quotient_times; lra).
  assert (Hb1 : -1 <= t <= 1) by (apply quotient_between; lra).
  assert (Hb2 : t < 1) by nra.
  replace (60 * (b - r) / (v - mn)) with (60 * t) by (unfold t; field; lra).
  destruct (Rle_dec 0 t) as [H0|H0].
  - use_sector 2%Z. finish_pixel.
  - use_sector 1%Z. finish_pixel.
Qed.

(** Back from HSV, when red alone is the largest channel. *)
Lemma rgb_restored_red r g b v mn :
  extremes r g b v mn -> r = v -> g <> v -> b <> v -> 0 < v - mn ->
  (let '(r', g', b') :=
     sector_rgb (v - mn) (Some (remainder (60 * (g - b) / (v - mn)) 360 / 360)) in
   (r' + mn, g' + mn, b' + mn)) = (r, g, b).
Proof.
  intros [(Hr & Hg & Hb & Hv) (Hr' & Hg' & Hb' & Hm)] Hrv Hgv Hbv Hd.
  set (t := (g - b) / (v - mn)).
  assert (Ht : t * (v - mn) = g - b) by (apply quotient_times; lra).
  assert (Hb1 : -1 <= t <= 1) by (apply quotient_between; lra).
  assert (Hb2 : -1 < t < 1) by nra.
  replace (60 * (g - b) / (v - mn)) with (60 * t) by (unfold t; field; lra).
  destruct (Rle_dec 0 t) as [H0|H0].
  - rewrite (remainder_in (60 * t) 360 0) by lra.
    use_sector 0%Z. finish_pixel.
  - rewrite (remainder_in (60 * t) 360 (-1)) by lra.
    use_sector 5%Z. finish_pixel.
Qed.

(** With the saturation factor at 1, a pixel with non-negative channels
    comes back from the HSV round trip as it went in. *)
Lemma adjust_saturation_one r g b :
  0 <= r -> 0 <= g -> 0 <= b -> adjust_saturation 1 (r, g, b) = (r, g, b).
Proof.
  intros Hr0 Hg0 Hb0. unfold adjust_saturation.
  pose proof (extremes_max_min r g b) as Hex.
  set (v := Rmax (Rmax r g) b) in *. set (mn := Rmin (Rmin r g) b) in *.
  clearbody v mn.
  pose proof Hex as [(Hr & Hg & Hb & Hv) (Hr' & Hg' & Hb' & Hm)].
  destruct (Req_dec_T (v - mn) 0) as [Hd|Hd].
  - assert (r = v /\ g = v /\ b = v) as (-> & -> & ->) by lra.
    unfold hue, nan_div. rewrite !(Req_b_true v v eq_refl).
    destruct (Req_dec_T (v - mn) 0); [|contradiction].
    cbn [option_map sector_rgb].
    assert (Hs : clamp01 ((if Req_b v 0 then 0 else (v - mn) / v) * 1) = 0).
    { rewrite Hd. unfold Rdiv. rewrite Rmult_0_l.
      destruct (Req_b v 0); rewrite Rmult_0_l; apply clamp01_inside; lra. }
    rewrite Hs. repeat f_equal; lra.
  - assert (Hpos : 0 < v - mn) by lra.
    assert (Hv0 : 0 < v) by lra.
    rewrite (Req_b_false v 0) by lra.
    assert (Hc : v * clamp01 ((v - mn) / v * 1) = v - mn).
    { rewrite clamp01_inside.
      - field. lra.
      - rewrite Rmult_1_r. apply quotient_between; lra. }
    rewrite Hc. replace (v - (v - mn)) with mn by lra.
    unfold hue, nan_div. destruct (Req_dec_T (v - mn) 0); [contradiction|].
    cbn [option_map].
    destruct (Req_dec_T b v) as [Hbv|Hbv].
    + rewrite (Req_b_true b v Hbv).
      apply (rgb_restored_blue r g b v mn Hex Hbv Hpos).
    + rewrite (Req_b_false b v Hbv).
      destruct (Req_dec_T g v) as [Hgv|Hgv].
      * rewrite (Req_b_true g v Hgv).
        apply (rgb_restored_green r g b v mn Hex Hgv Hbv Hpos).
      * rewrite (Req_b_false g v Hgv).
        assert (Hrv : r = v) by lra.
        rewrite (Req_b_true r v Hrv).
        apply (rgb_restored_red r g b v mn Hex Hrv Hgv Hbv Hpos).
Qed.

(** With intensity 0 the grain term vanishes, whatever the noise is. *)
Lemma grain_pixel_zero brightness_impact image_saturation mode r g b noise :
  grain_pixel 0 brightness_impact image_saturation mode (r, g, b) noise =
    let grainy :=
      if String.eqb mode "Color" then adjust_saturation image_saturation (r, g, b)
      else if String.eqb mode "Black and White" then
        let y := luminance r g b in (y, y, y)
      else (r, g, b) in
    let '(r2, g2, b2) := grainy in
    (clamp01 r2, clamp01 g2, clamp01 b2).
Proof.
  destruct noise as [[n0 n1] n2]. unfold grain_pixel.
  set (f := 1 - brightness_impact + brightness_impact * luminance r g b).
  replace (r + (n0 - 0.5) * 0 * f) with r by ring.
  replace (g + (n1 - 0.5) * 0 * f) with g by ring.
  replace (b + (n2 - 0.5) * 0 * f) with b by ring.
  reflexivity.
Qed.

Lemma channel_cases p c :
  (0 <= c <= 2)%Z ->
  channel p c = match c with 0%Z => fst (fst p) | 1%Z => snd (fst p) | _ => snd p end.
Proof.
  intros Hc. destruct p as [[r g] b]. unfold channel.
  assert (H : (c = 0 \/ c = 1 \/ c = 2)%Z) by lia.
  destruct H as [->|[->| ->]]; reflexivity.
Qed.

Section WithTorch.
Context `{T : Torch}.

(** On an image of three channels the node goes through every pixel with
    [grain_pixel]. *)
Lemma apply_film_grain_rgb image intensity grain_size grain_saturation brightness_impact
    image_saturation mode :
  grain_size <> 0 -> channels image = 3%Z ->
  apply_film_grain image intensity grain_size grain_saturation brightness_impact
    image_saturation mode
  = let noise := noise_field image grain_size grain_saturation in
    Ok (mkImage (batch image) (height image) (width image)
          (if String.eqb mode "Black and White" then 3%Z else channels image)
          (fun n y x c =>
             if (String.eqb mode "Color" || String.eqb mode "Black and White") || (c <? 3)%Z
             then
               channel
                 (grain_pixel intensity brightness_impact image_saturation mode
                    (px image n y x 0%Z, px image n y x 1%Z, px image n y x 2%Z)
                    (noise n y x 0%Z, noise n y x 1%Z, noise n y x 2%Z))
                 c
             else
               clamp01 (grain_entry intensity brightness_impact
                          (px image n y x 0%Z, px image n y x 1%Z, px image n y x 2%Z)
                          (px image n y x c) (noise n y x c)))).
Proof.
  intros Hgs Hch. unfold apply_film_grain.
  rewrite (Req_b_false grain_size 0 Hgs), Hch. cbn [Z.ltb Z.eqb Z.compare Pos.compare
    Pos.compare_cont Pos.eqb negb]. rewrite andb_false_r. reflexivity.
Qed.

(** C7 (as amended).  With intensity 0, in [Color] mode with an image
    saturation of 1, a non-empty image of three channels whose entries lie
    in [0, 1] is returned unchanged, entry for entry, for every grain size,
    grain saturation and brightness impact in the ranges the node declares,
    and whatever noise is drawn. *)
Theorem zero_intensity_keeps_image image grain_size grain_saturation brightness_impact :
  channels image = 3%Z -> nonempty image -> in_unit_range image ->
  declared 0 grain_size grain_saturation brightness_impact 1 ->
  exists out,
    apply_film_grain image 0 grain_size grain_saturation brightness_impact 1 "Color" = Ok out
    /\ shape out = shape image
    /\ forall n y x c, (0 <= c < channels image)%Z -> px out n y x c = px image n y x c.
Proof.
  intros Hch _ Hrange (_ & Hgs & _).
  rewrite apply_film_grain_rgb by (lra || exact Hch). cbv zeta.
  eexists. split; [reflexivity|]. split; [reflexivity|].
  intros n y x c Hc. rewrite Hch in Hc. cbn [px String.eqb Ascii.eqb Bool.eqb orb].
  rewrite grain_pixel_zero. cbn [String.eqb Ascii.eqb Bool.eqb]. cbv zeta.
  rewrite adjust_saturation_one by apply Hrange.
  rewrite !clamp01_inside by apply Hrange.
  rewrite (channel_cases _ c) by lia. cbn [fst snd].
  assert (H : (c = 0 \/ c = 1 \/ c = 2)%Z) by lia.
  destruct H as [->|[->| ->]]; reflexivity.
Qed.

End WithTorch.

Lemma orange_in_unit_range : in_unit_range orange.
Proof.
  intros n y x c. unfold orange. cbn [px].
  destruct (c =? 0)%Z; [lra|]. destruct (c =? 1)%Z; lra.
Qed.

Lemma zero_intensity_keeps_image_witness :
  exists out,
    apply_film_grain (T := flat_noise) orange 0 2 0.3 0.5 1 "Color" = Ok out
    /\ px out 0%Z 0%Z 0%Z 1%Z = 0.5.
Proof.
  destruct (zero_intensity_keeps_image (T := flat_noise) orange 2 0.3 0.5)
    as (out & Hrun & _ & Hpx);
    [reflexivity | unfold nonempty; cbn; lia | exact orange_in_unit_range
    | unfold declared; lra |].
  exists out. split; [exact Hrun|].
  rewrite (Hpx 0%Z 0%Z 0%Z 1%Z) by (cbn; lia). reflexivity.
Defined.

(** C7 as stated fails: with intensity 0 the mode pass still runs.  Black
    and white turns a pure red pixel into gray 0.299, and in [Color] mode a
    saturation of 0 turns it white; the same red pixel with an alpha
    channel is refused in [Color] mode, and a grain size of 0 is refused
    for every image. *)
Lemma zero_intensity_changes_image :
  (exists out,
     apply_film_grain (T := flat_noise) red 0 1 0 0.5 1 "Black and White" = Ok out
     /\ px red 0%Z 0%Z 0%Z 0%Z = 1 /\ px out 0%Z 0%Z 0%Z 0%Z = 0.299)
  /\ (exists out,
        apply_film_grain (T := flat_noise) red 0 1 0 0.5 0 "Color" = Ok out
        /\ px red 0%Z 0%Z 0%Z 1%Z = 0 /\ px out 0%Z 0%Z 0%Z 1%Z = 1)
  /\ (exists e, apply_film_grain (T := flat_noise) red_alpha 0 1 0 0.5 1 "Color" = Raise e)
  /\ apply_film_grain (T := flat_noise) red 0 0 0 0.5 1 "Color" = Raise ZeroDivisionError.
Proof.
  assert (Hgs : (1 : R) <> 0) by lra.
  split; [|split; [|split]].
  - rewrite apply_film_grain_rgb by (exact Hgs || reflexivity). cbv zeta.
    eexists. split; [reflexivity|].
    split; [reflexivity|]. cbn [px red String.eqb Ascii.eqb Bool.eqb orb].
    rewrite grain_pixel_zero. cbn [String.eqb Ascii.eqb Bool.eqb Z.eqb]. cbv zeta.
    unfold channel, luminance. cbn [Z.eqb].
    rewrite clamp01_inside; lra.
  - rewrite apply_film_grain_rgb by (exact Hgs || reflexivity). cbv zeta.
    eexists. split; [reflexivity|].
    split; [reflexivity|]. cbn [px red String.eqb Ascii.eqb Bool.eqb orb].
    rewrite grain_pixel_zero. cbn [String.eqb Ascii.eqb Bool.eqb Z.eqb]. cbv zeta.
    unfold adjust_saturation.
    replace (Rmax (Rmax 1 0) 0) with 1 by (unfold Rmax; repeat destruct (Rle_dec _ _); lra).
    replace (Rmin (Rmin 1 0) 0) with 0 by (unfold Rmin; repeat destruct (Rle_dec _ _); lra).
    rewrite (Req_b_false 1 0) by lra.
    replace (clamp01 ((1 - 0) / 1 * 0)) with 0 by (rewrite clamp01_inside; lra).
    unfold hue, nan_div.
    rewrite (Req_b_true 1 1 eq_refl), !(Req_b_false 0 1) by lra.
    destruct (Req_dec_T (1 - 0) 0); [lra|]. cbn [option_map].
    rewrite (remainder_in _ 360 0) by lra.
    rewrite (sector_rgb_at _ _ 0) by (first [lia | lra]). cbv zeta.
    unfold channel. cbn [Z.eqb].
    assert (Hclamp : clamp01 1 = 1) by (apply clamp01_inside; lra).
    replace (1 * 0 * (1 - Rabs (((60 * (0 - 0) / (1 - 0) - 360 * 0) / 360) * 6
                                  - 2 * IZR (0 / 2) - 1)) + (1 - 1 * 0)) with 1 by ring.
    exact Hclamp.
  - unfold apply_film_grain. rewrite (Req_b_false 1 0 Hgs). eexists. reflexivity.
  - unfold apply_film_grain. now rewrite (Req_b_true 0 0 eq_refl).
Qed.

End GrainProofs.
(** ** FluxReduxFloatRamp: properties *)

Module RampProofs.
Import FluxReduxFloatRamp RampSpec PrimFloat.

(** *** The curves in exact arithmetic *)

Section Exact.
Local Open Scope R_scope.

Lemma blend_between start end_ f :
  start <> end_ -> 0 < f < 1 -> strictly_between start end_ (start + (end_ - start) * f).
Proof.
  intros Hne [H0 H1]. unfold strictly_between.
  destruct (Rtotal_order start end_) as [Hlt|[Heq|Hgt]]; [left|contradiction|right]; nra.
Qed.

Lemma exponential_inside x : 0 < x < 1 -> 0 < (exp x - 1) / (exp 1 - 1) < 1.
Proof.
  intros [H0 H1].
  pose proof (exp_increasing 0 x H0) as E0. rewrite exp_0 in E0.
  pose proof (exp_increasing x 1 H1) as E1.
  assert (Hd : 0 < exp 1 - 1) by lra.
  split.
  - apply Rdiv_lt_0_compat; lra.
  - apply (Rmult_lt_reg_r (exp 1 - 1)); [exact Hd|].
    unfold Rdiv. rewrite Rmult_assoc, Rinv_l by lra. lra.
Qed.

Lemma cubic_inside x : 0 < x < 1 -> 0 < x * x * (3 - 2 * x) < 1.
Proof.
  intros [H0 H1].
  assert (0 < x * x) by (apply Rmult_lt_0_compat; lra).
  assert (0 < (1 - x) * (1 - x)) by (apply Rmult_lt_0_compat; lra).
  assert (0 < (1 - x) * (1 - x) * (1 + 2 * x)) by (apply Rmult_lt_0_compat; lra).
  assert (0 < x * x * (3 - 2 * x)) by (apply Rmult_lt_0_compat; lra).
  split; [assumption|]. nra.
Qed.

Lemma monotonic_curve_inside ramp_type x :
  monotonic_ramp ramp_type = true -> 0 < x < 1 -> 0 < exact_curve ramp_type x < 1.
Proof.
  intros Hm Hx. unfold monotonic_ramp in Hm. simpl in Hm.
  unfold exact_curve.
  destruct (String.eqb_spec ramp_type "ease_in") as [->|?]; [nra|].
  destruct (String.eqb_spec ramp_type "ease_out") as [->|?]; [nra|].
  destruct (String.eqb_spec ramp_type "ease_in_out") as [->|?]; [apply cubic_inside, Hx|].
  destruct (String.eqb_spec ramp_type "exponential") as [->|?];
    [apply exponential_inside, Hx|].
  destruct (String.eqb_spec ramp_type "smoothstep") as [->|?]; [apply cubic_inside, Hx|].
  destruct (String.eqb_spec ramp_type "bounce") as [->|?]; [discriminate Hm|].
  exact Hx.
Qed.

(** In exact arithmetic the first of at least two steps lies strictly
    between the end points. *)
Lemma exact_value_between a b n ramp_type :
  (2 <= n)%Z -> a <> b -> monotonic_ramp ramp_type = true ->
  strictly_between a b (exact_value 1 a b n ramp_type).
Proof.
  intros Hn Hne Hm. unfold exact_value. apply blend_between; [exact Hne|].
  apply monotonic_curve_inside; [exact Hm|].
  assert (Hn' : 2 <= IZR n) by (apply IZR_le in Hn; exact Hn).
  split.
  - apply Rdiv_lt_0_compat; lra.
  - apply (Rmult_lt_reg_r (IZR n)); [lra|].
    unfold Rdiv. rewrite Rmult_assoc, Rinv_l by lra. lra.
Qed.

End Exact.

(** *** The node *)

(** The ramp types that are computed without the C library. *)
Lemma curve_without_libm (L1 L2 : Libm) ramp_type x :
  In ramp_type ["linear"; "ease_in"; "ease_out"; "ease_in_out"; "smoothstep"] ->
  curve (L := L1) ramp_type x = curve (L := L2) ramp_type x.
Proof.
  cbn [In]. intros H.
  repeat (destruct H as [<-|H]; [reflexivity|]). contradiction.
Qed.

Lemma all_from_spec f : forall count n,
  all_from count n f = true ->
  forall m, (n <= m < n + Z.of_nat count)%Z -> f m = true.
Proof.
  induction count as [|count IH]; intros n H m Hm; [lia|].
  cbn [all_from] in H. apply andb_prop in H as [Hn Hrest].
  destruct (Z.eq_dec m n) as [->|Hne]; [exact Hn|].
  apply (IH (n + 1)%Z Hrest). lia.
Qed.

(** With the default end points 0 and 1, the first step of every threshold
    in the range of the widget, from 2 on, lies strictly between them in
    binary64 as well: checked threshold by threshold. *)
Lemma default_first_steps_checked :
  (all_from (Z.to_nat 9999) 2
     (fun n =>
        forallb (fun ramp_type =>
                   between 0 1 (value_at_step (L := series_exp) 1 0 1 n ramp_type))
          ["linear"; "ease_in"; "ease_out"; "ease_in_out"; "smoothstep"]) = true)%float.
Proof. vm_compute. reflexivity. Qed.

Section WithLibm.
Context `{L : Libm}.
Local Open Scope float_scope.


(** Below the threshold the node returns the curve's value at the current
    step, which is one more than the step index. *)
Lemma get_value_below start end_ n ramp_type self :
  (step_index self + 1 <= n)%Z -> n <> 0%Z ->
  get_value start end_ n ramp_type self =
    (Ok (value_at_step (step_index self + 1) start end_ n ramp_type), self).
Proof.
  intros Hle Hn. unfold get_value, value_at_step, curve, step_index in *.
  destruct (Z.gtb_spec (getattr (attr_i self) 0 + 1) n) as [Hgt|_]; [lia|].
  destruct (Z.eqb_spec n 0) as [->|_]; [congruence|].
  destruct (String.eqb_spec ramp_type "linear") as [->|?]; reflexivity.
Qed.

Lemma get_value_beyond start end_ n ramp_type self :
  (n <= step_index self)%Z ->
  get_value start end_ n ramp_type self = (Ok end_, self).
Proof.
  intros Hle. unfold get_value, step_index in *.
  destruct (Z.gtb_spec (getattr (attr_i self) 0 + 1) n) as [_|Hgt]; [reflexivity|lia].
Qed.

Lemma default_first_step_between n ramp_type :
  (2 <= n <= 10000)%Z ->
  In ramp_type ["linear"; "ease_in"; "ease_out"; "ease_in_out"; "smoothstep"] ->
  between 0 1 (value_at_step 1 0 1 n ramp_type) = true.
Proof.
  intros Hn Hr.
  pose proof (all_from_spec _ _ _ default_first_steps_checked n ltac:(lia)) as H.
  cbv beta in H. rewrite forallb_forall in H. specialize (H ramp_type Hr).
  unfold value_at_step in *. now rewrite (curve_without_libm L series_exp).
Qed.

(** C8 (as amended).  At a step index at or beyond the threshold the node
    returns exactly [end].  At step index 0 of a threshold of at least 2
    (and at most [2^53]) it returns the value of
    [start + (end - start) * curve(1 / n)], every operation rounded to
    binary64.  When nothing is rounded, that value lies strictly between
    distinct end points for every monotonic ramp type; in binary64 it does
    so for the default end points 0 and 1 at every threshold from 2 to
    10000, for the ramp types computed without the C library.  The
    instance is left as it was in all cases. *)
Theorem get_value_first_and_late_steps start end_ n ramp_type self :
  ((n <= step_index self)%Z ->
   get_value start end_ n ramp_type self = (Ok end_, self))
  /\ (step_index self = 0%Z -> (2 <= n)%Z -> exact_steps n ->
      get_value start end_ n ramp_type self
      = (Ok (value_at_step 1 start end_ n ramp_type), self))
  /\ (forall a b : R,
        (2 <= n)%Z -> a <> b -> monotonic_ramp ramp_type = true ->
        strictly_between a b (exact_value 1 a b n ramp_type))
  /\ (step_index self = 0%Z -> (2 <= n <= 10000)%Z ->
      In ramp_type ["linear"; "ease_in"; "ease_out"; "ease_in_out"; "smoothstep"] ->
      exists v, get_value 0 1 n ramp_type self = (Ok v, self) /\ between 0 1 v = true)%float.
Proof.
  split; [apply get_value_beyond|]. split; [|split].
  - intros Hi Hn _. rewrite get_value_below by lia. now rewrite Hi.
  - intros a b. apply exact_value_between.
  - intros Hi Hn Hr. eexists. split.
    + rewrite get_value_below by lia. rewrite Hi. reflexivity.
    + apply default_first_step_between; assumption.
Qed.





End WithLibm.

Section Examples.
Local Open Scope float_scope.
#[local] Set Warnings "-inexact-float".

Lemma get_value_first_and_late_steps_witness :
  get_value (L := series_exp) 0.25 0.75 2 "ease_in" (mkSelf (Some 2%Z) None)
    = (Ok 0.75, mkSelf (Some 2%Z) None)
  /\ get_value (L := series_exp) 0.25 0.75 2 "ease_in" fresh = (Ok 0.375, fresh)
  /\ (exists v, get_value (L := series_exp) 0 1 20 "smoothstep" fresh = (Ok v, fresh)
                /\ between 0 1 v = true).
Proof.
  split; [|split].
  - destruct (get_value_first_and_late_steps (L := series_exp) 0.25 0.75 2 "ease_in"
                (mkSelf (Some 2%Z) None)) as (Hbeyond & _).
    apply Hbeyond. unfold step_index; simpl; lia.
  - destruct (get_value_first_and_late_steps (L := series_exp) 0.25 0.75 2 "ease_in" fresh)
      as (_ & Hfirst & _).
    rewrite Hfirst by (reflexivity || unfold exact_steps; lia). reflexivity.
  - destruct (get_value_first_and_late_steps (L := series_exp) 0 1 20 "smoothstep" fresh)
      as (_ & _ & _ & Hdefault).
    apply Hdefault; [reflexivity | lia | cbn; tauto].
Defined.

(** C8 as stated fails in three ways.  With a threshold of 1, step index 0
    is already the last step and the value is [end] itself; between equal
    end points nothing lies; and when the step is smaller than the spacing
    of the floats around [start], the sum rounds back to [start]. *)
Lemma get_value_threshold_one_not_between :
  (get_value (L := series_exp) 0 1 1 "linear" fresh = (Ok 1, fresh)
   /\ between 0 1 1 = false)
  /\ (get_value (L := series_exp) 0.5 0.5 20 "linear" fresh = (Ok 0.5, fresh)
      /\ between 0.5 0.5 0.5 = false)
  /\ (get_value (L := series_exp) 4095.99999 4096 10000 "ease_in" fresh
      = (Ok 4095.99999, fresh)
      /\ between 4095.99999 4096 4095.99999 = false).
Proof. repeat split; reflexivity. Qed.



End Examples.

End RampProofs.
(** ** [str.strip]: further facts *)

Module StripFacts.
Import PyStr StrSpec TextSpec.

Lemma lstrip_all_space s : all_space s = true -> lstrip s = "".
Proof.
  induction s as [|c s IH]; [reflexivity|]. cbn [all_space lstrip].
  intros H. apply andb_prop in H as [-> Hs]. now apply IH.
Qed.

(** What [lstrip] leaves is empty or starts with a character that is not
    whitespace. *)
Lemma lstrip_head s :
  lstrip s = "" \/ exists c r, lstrip s = String c r /\ isspace c = false.
Proof.
  induction s as [|c s IH]; [now left|]. cbn [lstrip].
  destruct (isspace c) eqn:E; [exact IH|right; eauto].
Qed.

Lemma lstrip_empty s : lstrip s = "" -> all_space s = true.
Proof.
  induction s as [|c s IH]; [reflexivity|]. cbn [lstrip all_space].
  destruct (isspace c); [exact IH|discriminate].
Qed.

Lemma rstrip_empty s : rstrip s = "" <-> all_space s = true.
Proof.
  induction s as [|c s IH]; [split; reflexivity|]. cbn [rstrip all_space].
  destruct (rstrip s) as [|x r] eqn:E.
  - destruct (isspace c); cbn [andb]; [|split; discriminate].
    split; intros _; [now apply IH|reflexivity].
  - split; [discriminate|]. intros H. apply andb_prop in H as [_ H].
    apply IH in H. discriminate H.
Qed.

Lemma rstrip_keeps_head c r :
  isspace c = false -> exists r', rstrip (String c r) = String c r'.
Proof.
  intros Hc. cbn [rstrip]. rewrite Hc. destruct (rstrip r); eauto.
Qed.

Lemma rstrip_idempotent s : rstrip (rstrip s) = rstrip s.
Proof.
  induction s as [|c s IH]; [reflexivity|]. cbn [rstrip].
  destruct (rstrip s) as [|x r] eqn:E.
  - destruct (isspace c) eqn:Ec; [reflexivity|]. cbn [rstrip]. now rewrite Ec.
  - cbn [rstrip] in *. rewrite IH. reflexivity.
Qed.

(** Stripping twice is stripping once: [strip] returns a trimmed text. *)
Lemma strip_trimmed s : trimmed (strip s).
Proof.
  unfold trimmed, strip.
  destruct (lstrip_head s) as [->|(c & r & -> & Hc)]; [reflexivity|].
  destruct (rstrip_keeps_head c r Hc) as [r' E].
  rewrite E. cbn [lstrip]. rewrite Hc, <- E. apply rstrip_idempotent.
Qed.

(** Only a text of nothing but whitespace strips to the empty text. *)
Lemma strip_empty s : strip s = "" <-> all_space s = true.
Proof.
  unfold strip. split.
  - intros H. apply rstrip_empty in H.
    destruct (lstrip_head s) as [E|(c & r & E & Hc)].
    + now apply lstrip_empty.
    + rewrite E in H. cbn [all_space] in H. now rewrite Hc in H.
  - intros H. now rewrite (lstrip_all_space s H).
Qed.

End StripFacts.

(** ** The resolver: further properties *)

Section ResolverMore.
Context `{Ext : Externals}.
Import PyStr StrSpec PyStrFacts PathSpec PathFacts TextSpec FsSpec HubSpec StripFacts.

(** *** Directories and files *)

Lemma mkdir_files p w r w1 :
  Os.mkdir p w = (r, w1) -> files w1 = files w.
Proof.
  unfold Os.mkdir. destruct (String.eqb p ""); [intros [= _ <-]; reflexivity|].
  destruct (Os.exists_in w p); intros [= _ <-]; reflexivity.
Qed.

Lemma makedirs_fuel_files fuel : forall name w r w1,
  Os.makedirs_fuel fuel name w = (r, w1) -> files w1 = files w.
Proof.
  induction fuel as [|fuel IH]; intros name w r w1; cbn [Os.makedirs_fuel].
  - intros [= _ <-]. reflexivity.
  - destruct (PosixPath.split name) as [head0 tail0].
    destruct (if String.eqb tail0 "" then PosixPath.split head0 else (head0, tail0))
      as [head tail].
    assert (Hcreate : forall w0 r0 w2,
              match Os.mkdir name w0 with
              | (Raise e, w') =>
                  if bool_decide (name ∈ dirs w') then (Ok tt, w') else (Raise e, w')
              | r1 => r1
              end = (r0, w2) -> files w2 = files w0).
    { intros w0 r0 w2. destruct (Os.mkdir name w0) as [[[]|e] w'] eqn:E;
        apply mkdir_files in E.
      - intros [= _ <-]. exact E.
      - destruct (bool_decide _); intros [= _ <-]; exact E. }
    unfold bind at 1. unfold Os.path_exists at 1.
    destruct (negb (String.eqb head "") && negb (String.eqb tail "")
              && negb (Os.exists_in w head)).
    + unfold bind at 1.
      destruct (Os.makedirs_fuel fuel head w) as [[[]|e] w'] eqn:E; apply IH in E.
      * destruct (String.eqb tail ".").
        -- intros [= _ <-]. exact E.
        -- intros H. apply Hcreate in H. congruence.
      * destruct e; try (intros [= _ <-]; exact E).
        destruct (String.eqb tail ".").
        -- intros [= _ <-]. exact E.
        -- intros H. apply Hcreate in H. congruence.
    + apply Hcreate.
Qed.

(** X1.  When [find_or_create_cache] returns, the directory it names ends in
    [huggingface_cache] and exists; the call has made at most that one
    directory and changed nothing else -- no file, not the working
    directory, not the environment; and a second call returns the same
    directory and does nothing: no directory is made, nothing is printed. *)
Theorem find_or_create_cache_settles w p w1 :
  find_or_create_cache w = (Ok p, w1) ->
  endswith p "huggingface_cache" = true
  /\ Os.exists_in w1 p = true
  /\ cwd w1 = cwd w /\ environ w1 = environ w /\ files w1 = files w
  /\ (dirs w1 = dirs w \/ Os.exists_in w p = false /\ dirs w1 = {[p]} ∪ dirs w)
  /\ find_or_create_cache w1 = (Ok p, w1).
Proof.
  rewrite find_or_create_cache_run. intros [= <- <-].
  split; [destruct (cache_root_form w) as [x ->]; apply endswith_app|].
  split; [apply ensure_cache_exists|].
  assert (Hshape : cwd (ensure_cache w) = cwd w /\ environ (ensure_cache w) = environ w
                   /\ files (ensure_cache w) = files w
                   /\ (dirs (ensure_cache w) = dirs w
                       \/ Os.exists_in w (cache_root w) = false
                          /\ dirs (ensure_cache w) = {[cache_root w]} ∪ dirs w)).
  { unfold ensure_cache. destruct (Os.exists_in w (cache_root w)) eqn:E;
      cbn [cwd environ files dirs]; repeat split; auto. }
  destruct Hshape as (Hc & He & Hf & Hd).
  split; [exact Hc|]. split; [exact He|]. split; [exact Hf|]. split; [exact Hd|].
  rewrite find_or_create_cache_run.
  rewrite (cache_root_stable w (ensure_cache w) (ensure_cache_grows w)).
  f_equal. unfold ensure_cache at 1.
  rewrite (cache_root_stable w (ensure_cache w) (ensure_cache_grows w)).
  now rewrite ensure_cache_exists.
Qed.

(** *** [download_file] *)

(** X2.  A download that succeeds got status 200 and left the body of the
    response in the file, all other files being as they were. *)
Theorem download_file_stores_body url filename w w1 :
  download_file url filename w = (Ok tt, w1) ->
  exists response,
    http_fetch url = Ok response
    /\ status_code response = 200%Z
    /\ files w1 = <[filename := content response]> (files w)
    /\ files w1 !! filename = Some (content response)
    /\ In (EvHttpGet url) (trace w1).
Proof.
  unfold download_file. unfold bind at 1.
  destruct (Os.makedirs _ w) as [[[]|e] w'] eqn:Emk; [|discriminate].
  apply makedirs_fuel_files in Emk.
  unfold bind at 1. unfold requests_get, bind, emit, lift_result.
  destruct (http_fetch url) as [response|e]; [|discriminate].
  destruct (Z.eqb_spec (status_code response) 200) as [E200|_]; [|discriminate].
  unfold Os.write_file. cbn [cwd dirs files environ trace].
  destruct (bool_decide _); [discriminate|].
  intros [= <-]. cbn [files trace]. exists response.
  split; [reflexivity|]. split; [exact E200|]. rewrite Emk.
  split; [reflexivity|]. split; [apply lookup_insert_eq|].
  apply in_or_app. left. apply in_or_app. right. left. reflexivity.
Qed.

(** X3.  A download that fails before the file is opened leaves every file as
    it was: when the directories cannot be made, the exception of
    [makedirs] passes through and nothing is requested; when the request
    raises, its exception passes through; and when the server answers
    with a status other than 200, the call raises [DownloadFailed] with
    that status, after the request. *)
Theorem download_file_failure_writes_nothing url filename w :
  (forall e w',
     Os.makedirs (PosixPath.dirname filename) w = (Raise e, w') ->
     download_file url filename w = (Raise e, w') /\ files w' = files w)
  /\ (forall w',
        Os.makedirs (PosixPath.dirname filename) w = (Ok tt, w') ->
        let asked := mkWorld (cwd w') (dirs w') (files w') (environ w')
                       (trace w' ++ [EvHttpGet url]) in
        files asked = files w
        /\ (forall e, http_fetch url = Raise e ->
              download_file url filename w = (Raise e, asked))
        /\ (forall response,
              http_fetch url = Ok response -> status_code response <> 200%Z ->
              download_file url filename w
              = (Raise (DownloadFailed (status_code response)), asked))).
Proof.
  split.
  - intros e w' Emk. unfold download_file. unfold bind at 1. rewrite Emk.
    split; [reflexivity|]. exact (makedirs_fuel_files _ _ _ _ _ Emk).
  - intros w' Emk asked. split; [exact (makedirs_fuel_files _ _ _ _ _ Emk)|].
    split.
    + intros e Hfetch. unfold download_file. unfold bind at 1. rewrite Emk.
      unfold bind at 1. unfold requests_get, bind, emit, lift_result.
      now rewrite Hfetch.
    + intros response Hfetch Hstatus. unfold download_file. unfold bind at 1. rewrite Emk.
      unfold bind at 1. unfold requests_get, bind, emit, lift_result.
      rewrite Hfetch.
      destruct (Z.eqb_spec (status_code response) 200) as [E200|_]; [contradiction|].
      reflexivity.
Qed.

(** *** Cache file names *)

Lemma hex_digit_inj m n :
  (m < 16)%N -> (n < 16)%N -> hex_digit m = hex_digit n -> m = n.
Proof.
  intros Hm Hn H. unfold hex_digit in H.
  destruct (N.ltb_spec m 10); destruct (N.ltb_spec n 10);
    apply (f_equal N_of_ascii) in H;
    rewrite !N_ascii_embedding in H by lia; lia.
Qed.

Lemma hex_byte_inj a b :
  hex_digit (N_of_ascii a / 16) = hex_digit (N_of_ascii b / 16) ->
  hex_digit (N_of_ascii a mod 16) = hex_digit (N_of_ascii b mod 16) ->
  a = b.
Proof.
  intros Hq Hr.
  pose proof (N_ascii_bounded a) as Ba. pose proof (N_ascii_bounded b) as Bb.
  assert (Hqa : (N_of_ascii a / 16 < 16)%N) by (apply N.Div0.div_lt_upper_bound; lia).
  assert (Hqb : (N_of_ascii b / 16 < 16)%N) by (apply N.Div0.div_lt_upper_bound; lia).
  assert (Hra : (N_of_ascii a mod 16 < 16)%N) by (apply N.mod_lt; lia).
  assert (Hrb : (N_of_ascii b mod 16 < 16)%N) by (apply N.mod_lt; lia).
  apply hex_digit_inj in Hq; [|assumption..].
  apply hex_digit_inj in Hr; [|assumption..].
  rewrite <- (ascii_N_embedding a), <- (ascii_N_embedding b).
  f_equal.
  rewrite (N.div_mod' (N_of_ascii a) 16), (N.div_mod' (N_of_ascii b) 16). lia.
Qed.

Lemma hex_inj l l' : hex l = hex l' -> l = l'.
Proof.
  revert l'. induction l as [|a l IH]; intros [|b l']; cbn [hex];
    try discriminate; [reflexivity|].
  intros [= Hq Hr Ht]. f_equal; [now apply hex_byte_inj|now apply IH].
Qed.

Lemma hex_digits_are_hex b :
  is_hex (hex_digit (N_of_ascii b / 16)) && is_hex (hex_digit (N_of_ascii b mod 16)) = true.
Proof. destruct b as [[] [] [] [] [] [] [] []]; reflexivity. Qed.

Lemma hex_all_hex l : all_hex (hex l) = true /\ String.length (hex l) = 2 * List.length l.
Proof.
  induction l as [|b l [IH1 IH2]]; [split; reflexivity|].
  cbn [hex all_hex String.length List.length]. rewrite IH2.
  pose proof (hex_digits_are_hex b) as H. apply andb_prop in H as [-> ->].
  split; [exact IH1|lia].
Qed.

Lemma string_app_inv_tail_eqlen t : forall a b : string,
  String.length a = String.length b -> a +:+ t = b +:+ t -> a = b.
Proof.
  induction a as [|x a IH]; intros [|y b]; cbn; try discriminate; [reflexivity|].
  intros [= Hl] [= -> H]. f_equal. now apply IH.
Qed.

Lemma string_app_inv_tail (a b t : string) : a +:+ t = b +:+ t -> a = b.
Proof.
  intros H. apply (string_app_inv_tail_eqlen t); [|exact H].
  apply (f_equal String.length) in H. rewrite !length_app in H. lia.
Qed.

(** X4.  The name of a cache file is the digest of the URL in lower-case
    hexadecimal, two digits a byte, followed by a dot and the extension;
    two URLs share a cache file exactly when their digests are equal. *)
Theorem cache_file_name_is_digest url url' extension :
  (exists h, get_filename_from_url url extension = h +:+ "." +:+ extension
             /\ all_hex h = true
             /\ String.length h = 2 * List.length (md5_digest url))
  /\ (get_filename_from_url url extension = get_filename_from_url url' extension
      <-> md5_digest url = md5_digest url').
Proof.
  unfold get_filename_from_url. split.
  - exists (hex (md5_digest url)). split; [reflexivity|]. apply hex_all_hex.
  - split.
    + intros H. apply string_app_inv_tail in H. now apply hex_inj.
    + now intros ->.
Qed.

(** *** Malformed references *)

(** X5.  A reference that is empty or all whitespace is rejected as empty, and
    one that does not start with [http] once trimmed as invalid, whatever
    provider it names; nothing is requested or written. *)
Theorem malformed_reference_rejected url w :
  (all_space url = true ->
   get_lora_from_url url w = (Raise (ValueError "URL is empty"), w))
  /\ (strip url <> "" -> startswith (strip url) "http" = false ->
      get_lora_from_url url w = (Raise (ValueError "Invalid URL"), w)).
Proof.
  unfold get_lora_from_url. cbv zeta. split.
  - intros H. unfold strip. rewrite (lstrip_all_space url H). reflexivity.
  - intros Hne Hhttp. apply String.eqb_neq in Hne. now rewrite Hne, Hhttp.
Qed.

(** X6.  A marketplace reference that mentions [modelVersionId] without the
    [=] behind it has no second piece to take the id from: the lookup
    raises [IndexError], before anything is requested or written. *)
Theorem version_id_without_value_raises url w :
  startswith (strip url) "http" = true ->
  is_marketplace (strip url) = true ->
  contains "modelVersionId" (strip url) = true ->
  contains "modelVersionId=" (strip url) = false ->
  get_lora_from_url url w = (Raise IndexError, w).
Proof.
  intros Hhttp Hm Hv Hnone.
  rewrite (get_lora_marketplace url w Hm). cbv zeta.
  destruct (String.eqb_spec (strip url) "") as [E|_];
    [rewrite E in Hhttp; discriminate Hhttp|].
  rewrite Hhttp. cbn [negb]. unfold marketplace_url. rewrite Hv.
  unfold split. destruct (String.length (strip url)); cbn [split_fuel]; [reflexivity|].
  now rewrite (partition_none _ _ Hnone).
Qed.

(** *** A version id with something behind it *)

(** C4, at an input where the code departs from it.  The version id is cut
    at the next [&] only, so in
    [https://civitai.com/models/111?modelVersionId=123#files] the fragment
    stays in it: the URL that is checked, hashed and requested is
    [.../models/123#files?type=Model&format=SafeTensor], not the canonical
    download URL of version 123, and the two references share a cache file
    only if the digests of these two URLs collide. *)
Theorem version_id_keeps_fragment w :
  let url := "https://civitai.com/models/111?modelVersionId=123#files" in
  let kept :=
    "https://civitai.com/api/download/models/123#files?type=Model&format=SafeTensor" in
  marketplace_url url = Some kept
  /\ kept <> canonical_url "123"
  /\ get_lora_from_url url w
     = cache_and_fetch "civitai" (get_filename_from_url kept "safetensors")
         (with_token (environ w !! "CIVITAI_API_KEY") kept) w
  /\ get_lora_from_url (canonical_url "123") w
     = cache_and_fetch "civitai" (get_filename_from_url (canonical_url "123") "safetensors")
         (with_token (environ w !! "CIVITAI_API_KEY") (canonical_url "123")) w
  /\ (get_filename_from_url kept "safetensors"
      = get_filename_from_url (canonical_url "123") "safetensors"
      <-> md5_digest kept = md5_digest (canonical_url "123")).
Proof.
  intros url kept.
  split; [reflexivity|]. split; [discriminate|].
  split; [rewrite get_lora_marketplace by reflexivity; reflexivity|].
  split; [apply get_lora_canonical; reflexivity|].
  unfold get_filename_from_url. split.
  - intros H. apply string_app_inv_tail in H. now apply hex_inj.
  - now intros ->.
Qed.

(** With a server that answers every request, the URL with the fragment
    in it is the one requested. *)
Example version_id_keeps_fragment_request :
  In (EvHttpGet
        "https://civitai.com/api/download/models/123#files?type=Model&format=SafeTensor")
     (trace (snd (get_lora_from_url (Ext := Sample.open_externals)
                    "https://civitai.com/models/111?modelVersionId=123#files"
                    Sample.world))).
Proof. vm_compute. tauto. Qed.

(** *** Where a resolution writes *)

Lemma exists_in_same_disk w w' q :
  same_disk w w' -> Os.exists_in w' q = Os.exists_in w q.
Proof. intros (_ & Hd & Hf & _). unfold Os.exists_in. now rewrite Hd, Hf. Qed.

Lemma grows_under_same_disk root w w1 w2 :
  grows_under root w w1 -> same_disk w1 w2 -> grows_under root w w2.
Proof.
  intros (Hc & He & Hm & Hn) Hs. pose proof Hs as (Hc' & _ & _ & He').
  repeat split; [congruence | congruence | |].
  - intros q Hq. rewrite (exists_in_same_disk _ _ q Hs). auto.
  - intros q Hq. rewrite (exists_in_same_disk _ _ q Hs) in Hq. auto.
Qed.

Lemma keeps_files_refl w : keeps_files w w.
Proof. intros q data H. exact H. Qed.

Lemma keeps_files_eq w w' : files w' = files w -> keeps_files w w'.
Proof. intros E q data H. now rewrite E. Qed.

Lemma absent_no_file w q : Os.exists_in w q = false -> files w !! q = None.
Proof.
  intros H. destruct (files w !! q) as [data|] eqn:E; [|reflexivity].
  assert (Hex : Os.exists_in w q = true).
  { apply exists_in_iff. right. apply elem_of_dom. eauto. }
  congruence.
Qed.

(** A download into the cache, whatever its outcome: what appears lies
    under the cache root, and no file that was there is touched. *)
Lemma download_file_confined x sub name url w r w1 :
  plain_name sub -> has_char "/" name = false -> startswith name "/" = false ->
  Os.exists_in w (x +:+ "huggingface_cache") = true ->
  Os.exists_in w (PosixPath.join3 (x +:+ "huggingface_cache") sub name) = false ->
  download_file url (PosixPath.join3 (x +:+ "huggingface_cache") sub name) w = (r, w1) ->
  grows_under (x +:+ "huggingface_cache") w w1 /\ keeps_files w w1.
Proof.
  intros Hsub Hname Hrel HC.
  rewrite (cache_path_form x sub name Hsub Hrel).
  pose proof Hsub as (Hs & Hall & Hstrip & Hrel' & Hend).
  intros Habsent. apply absent_no_file in Habsent.
  unfold download_file, PosixPath.dirname.
  replace (x +:+ "huggingface_cache" +:+ "/" +:+ sub +:+ "/" +:+ name)
    with ((x +:+ "huggingface_cache/") +:+ sub +:+ "/" +:+ name) in *
    by (rewrite !app_assoc; reflexivity).
  rewrite (split_joined _ sub name Hname Hall Hstrip). cbn [fst].
  replace ((x +:+ "huggingface_cache/") +:+ sub)
    with (x +:+ "huggingface_cache" +:+ "/" +:+ sub)
    by (rewrite !app_assoc; reflexivity).
  unfold bind at 1.
  destruct (Os.makedirs _ w) as [rmk w2] eqn:Emk.
  pose proof (makedirs_fuel_files _ _ _ _ _ Emk) as Hfiles.
  apply (makedirs_under x sub w _ w2 Hsub HC) in Emk.
  destruct rmk as [[]|e];
    [|intros [= _ <-]; split; [exact Emk|now apply keeps_files_eq]].
  unfold bind at 1. unfold requests_get, bind, emit, lift_result.
  set (w3 := mkWorld (cwd w2) (dirs w2) (files w2) (environ w2)
                     (trace w2 ++ [EvHttpGet url])).
  assert (Hw3 : grows_under (x +:+ "huggingface_cache") w w3)
    by (apply (grows_under_same_disk _ _ w2); [exact Emk|repeat split]).
  destruct (http_fetch url) as [response|e];
    [|intros [= _ <-]; split; [exact Hw3|now apply keeps_files_eq]].
  destruct (status_code response =? 200)%Z;
    [|intros [= _ <-]; split; [exact Hw3|now apply keeps_files_eq]].
  unfold Os.write_file.
  destruct (bool_decide _);
    [intros [= _ <-]; split; [exact Hw3|now apply keeps_files_eq]|].
  intros H. apply pair_equal_spec in H as [_ <-]. split.
  - apply (grows_under_trans _ _ _ _ Hw3).
    replace ((x +:+ "huggingface_cache/") +:+ sub +:+ "/" +:+ name)
      with ((x +:+ "huggingface_cache") +:+ "/" +:+ sub +:+ "/" +:+ name)
      by (rewrite !app_assoc; reflexivity).
    apply (grows_under_add_file (x +:+ "huggingface_cache") _ _ w3).
  - intros q data Hq. cbn [files w3].
    rewrite lookup_insert_ne; [now rewrite Hfiles|].
    intros <-. rewrite Habsent in Hq. discriminate Hq.
Qed.

Lemma ensure_cache_files w : files (ensure_cache w) = files w.
Proof. unfold ensure_cache. destruct (Os.exists_in w (cache_root w)); reflexivity. Qed.

Lemma cache_and_fetch_confined sub name url w r w1 :
  plain_name sub -> has_char "/" name = false -> startswith name "/" = false ->
  cache_and_fetch sub name url w = (r, w1) ->
  grows_under (cache_root w) w w1 /\ keeps_files w w1.
Proof.
  intros Hsub Hname Hrel.
  unfold cache_and_fetch, bind. rewrite find_or_create_cache_run.
  unfold Os.path_exists at 1.
  destruct (Os.exists_in (ensure_cache w) _) eqn:EL; cbn [negb].
  - unfold ret. intros [= _ <-].
    split; [apply ensure_cache_grows|apply keeps_files_eq, ensure_cache_files].
  - destruct (download_file _ _ _) as [rd w'] eqn:Ed.
    destruct (cache_root_form w) as [x Hx].
    pose proof (ensure_cache_exists w) as HC.
    rewrite Hx in Ed, HC, EL.
    apply (download_file_confined x sub name url _ _ w' Hsub Hname Hrel HC EL) in Ed
      as [Hg Hk].
    rewrite <- Hx in Hg.
    assert (Hout : grows_under (cache_root w) w w' /\ keeps_files w w').
    { split; [exact (grows_under_trans _ _ _ _ (ensure_cache_grows w) Hg)|].
      intros q data Hq. apply Hk. now rewrite ensure_cache_files. }
    destruct rd as [[]|e]; unfold ret; intros [= _ <-]; exact Hout.
Qed.

(** The same, path by path: what appears is an entry of the cache. *)
Lemma grows_in_cache_refl root w : grows_in_cache root w w.
Proof. repeat split; auto. Qed.

Lemma grows_in_cache_trans root w1 w2 w3 :
  grows_in_cache root w1 w2 -> grows_in_cache root w2 w3 -> grows_in_cache root w1 w3.
Proof.
  intros (Hc & He & Hm & Hn) (Hc' & He' & Hm' & Hn').
  repeat split; [congruence | congruence | auto |].
  intros q Hq. destruct (Hn' q Hq) as [H|H]; [auto|right; exact H].
Qed.

Lemma grows_in_cache_add_dir root q w t :
  cache_entry root q ->
  grows_in_cache root w (mkWorld (cwd w) ({[q]} ∪ dirs w) (files w) (environ w) t).
Proof.
  intros Hq. repeat split; try reflexivity.
  - intros q' H. apply exists_in_add_dir. right. exact H.
  - intros q' H. apply exists_in_add_dir in H as [->|H]; [right; exact Hq|left; exact H].
Qed.

Lemma grows_in_cache_add_file root q data w t :
  cache_entry root q ->
  grows_in_cache root w (mkWorld (cwd w) (dirs w) (<[q := data]> (files w)) (environ w) t).
Proof.
  intros Hq. repeat split; try reflexivity.
  - intros q' H. apply exists_in_add_file. right. exact H.
  - intros q' H. apply exists_in_add_file in H as [->|H]; [right; exact Hq|left; exact H].
Qed.

Lemma grows_in_cache_same_disk root w w1 w2 :
  grows_in_cache root w w1 -> same_disk w1 w2 -> grows_in_cache root w w2.
Proof.
  intros (Hc & He & Hm & Hn) Hs. pose proof Hs as (Hc' & _ & _ & He').
  repeat split; [congruence | congruence | |].
  - intros q Hq. rewrite (exists_in_same_disk _ _ q Hs). auto.
  - intros q Hq. rewrite (exists_in_same_disk _ _ q Hs) in Hq. auto.
Qed.

Lemma ensure_cache_in_cache w : grows_in_cache (cache_root w) w (ensure_cache w).
Proof.
  unfold ensure_cache. destruct (Os.exists_in w (cache_root w)).
  - apply grows_in_cache_refl.
  - apply grows_in_cache_add_dir. now left.
Qed.

Lemma makedirs_in_cache x sub w r w2 :
  plain_name sub -> sub = "civitai" \/ sub = "general" ->
  Os.exists_in w (x +:+ "huggingface_cache") = true ->
  Os.makedirs (x +:+ "huggingface_cache" +:+ "/" +:+ sub) w = (r, w2) ->
  grows_in_cache (x +:+ "huggingface_cache") w w2.
Proof.
  intros (Hs & Hall & Hstrip & Hrel & Hend) Hsub HC.
  unfold Os.makedirs. cbn [Os.makedirs_fuel].
  rewrite (split_joined x "huggingface_cache" sub Hs eq_refl eq_refl).
  assert (Hne : String.eqb sub "" = false)
    by (apply String.eqb_neq; intros ->; discriminate).
  rewrite Hne. unfold bind at 1. unfold Os.path_exists at 1. rewrite HC.
  rewrite andb_false_r.
  rewrite mkdir_named by (apply app_nonempty; discriminate).
  destruct (Os.exists_in w (x +:+ "huggingface_cache" +:+ "/" +:+ sub)).
  - destruct (bool_decide (x +:+ "huggingface_cache" +:+ "/" +:+ sub ∈ dirs w));
      intros H; apply pair_equal_spec in H as [_ <-]; apply grows_in_cache_refl.
  - intros H; apply pair_equal_spec in H as [_ <-].
    apply grows_in_cache_add_dir. right. exists sub. split; [exact Hsub|]. left.
    rewrite !app_assoc. reflexivity.
Qed.

Lemma download_file_in_cache x sub h url w r w1 :
  plain_name sub -> sub = "civitai" \/ sub = "general" -> all_hex h = true ->
  has_char "/" (h +:+ ".safetensors") = false ->
  Os.exists_in w (x +:+ "huggingface_cache") = true ->
  download_file url (PosixPath.join3 (x +:+ "huggingface_cache") sub (h +:+ ".safetensors")) w
    = (r, w1) ->
  grows_in_cache (x +:+ "huggingface_cache") w w1.
Proof.
  intros Hsub Hwhich Hh Hname HC.
  pose proof (no_slash_relative _ Hname) as Hrel.
  rewrite (cache_path_form x sub _ Hsub Hrel).
  pose proof Hsub as (Hs & Hall & Hstrip & Hrel' & Hend).
  unfold download_file, PosixPath.dirname.
  replace (x +:+ "huggingface_cache" +:+ "/" +:+ sub +:+ "/" +:+ h +:+ ".safetensors")
    with ((x +:+ "huggingface_cache/") +:+ sub +:+ "/" +:+ (h +:+ ".safetensors")) in *
    by (rewrite !app_assoc; reflexivity).
  rewrite (split_joined _ sub _ Hname Hall Hstrip). cbn [fst].
  replace ((x +:+ "huggingface_cache/") +:+ sub)
    with (x +:+ "huggingface_cache" +:+ "/" +:+ sub)
    by (rewrite !app_assoc; reflexivity).
  unfold bind at 1.
  destruct (Os.makedirs _ w) as [rmk w2] eqn:Emk.
  apply (makedirs_in_cache x sub w _ w2 Hsub Hwhich HC) in Emk.
  destruct rmk as [[]|e]; [|intros [= _ <-]; exact Emk].
  unfold bind at 1. unfold requests_get, bind, emit, lift_result.
  set (w3 := mkWorld (cwd w2) (dirs w2) (files w2) (environ w2)
                     (trace w2 ++ [EvHttpGet url])).
  assert (Hw3 : grows_in_cache (x +:+ "huggingface_cache") w w3)
    by (apply (grows_in_cache_same_disk _ _ w2); [exact Emk|repeat split]).
  destruct (http_fetch url) as [response|e]; [|intros [= _ <-]; exact Hw3].
  destruct (status_code response =? 200)%Z; [|intros [= _ <-]; exact Hw3].
  unfold Os.write_file.
  destruct (bool_decide _); [intros [= _ <-]; exact Hw3|].
  intros H. apply pair_equal_spec in H as [_ <-].
  apply (grows_in_cache_trans _ _ _ _ Hw3).
  apply (grows_in_cache_add_file (x +:+ "huggingface_cache") _ _ w3).
  right. exists sub. split; [exact Hwhich|]. right. exists h. split; [exact Hh|].
  rewrite !app_assoc. reflexivity.
Qed.

Lemma cache_and_fetch_in_cache sub hashed url w r w1 :
  plain_name sub -> sub = "civitai" \/ sub = "general" ->
  cache_and_fetch sub (get_filename_from_url hashed "safetensors") url w = (r, w1) ->
  grows_in_cache (cache_root w) w w1.
Proof.
  intros Hsub Hwhich.
  unfold cache_and_fetch, bind. rewrite find_or_create_cache_run.
  unfold Os.path_exists at 1.
  destruct (Os.exists_in (ensure_cache w) _) eqn:EL; cbn [negb].
  - unfold ret. intros [= _ <-]. apply ensure_cache_in_cache.
  - destruct (download_file _ _ _) as [rd w'] eqn:Ed.
    destruct (cache_root_form w) as [x Hx].
    pose proof (ensure_cache_exists w) as HC.
    rewrite Hx in Ed, HC.
    change (get_filename_from_url hashed "safetensors")
      with (hex (md5_digest hashed) +:+ ".safetensors") in Ed.
    apply (download_file_in_cache x sub _ url _ _ w' Hsub Hwhich
             (proj1 (hex_all_hex _)) (filename_no_slash hashed) HC) in Ed.
    rewrite <- Hx in Ed.
    pose proof (grows_in_cache_trans _ _ _ _ (ensure_cache_in_cache w) Ed) as Hout.
    destruct rd as [[]|e]; unfold ret; intros [= _ <-]; exact Hout.
Qed.

(** X7.  Resolving a generic or marketplace reference, whatever the URL says
    and however the call ends, brings nothing into existence but entries
    of the cache -- the cache root, its directory [civitai] or [general],
    a file there named by hexadecimal digits and [.safetensors] --, leaves
    every existing file with its contents, and keeps the working directory
    and the environment. *)
Theorem resolution_stays_in_cache url w r w1 :
  is_hub (strip url) = false ->
  get_lora_from_url url w = (r, w1) ->
  grows_in_cache (cache_root w) w w1 /\ keeps_files w w1.
Proof.
  intros Hh.
  assert (Hsame : forall r0, (r0, w) = (r, w1) ->
            grows_in_cache (cache_root w) w w1 /\ keeps_files w w1).
  { intros r0 [= _ <-]. split; [apply grows_in_cache_refl|apply keeps_files_refl]. }
  assert (Hfetch : forall sub hashed u,
            plain_name sub -> sub = "civitai" \/ sub = "general" ->
            cache_and_fetch sub (get_filename_from_url hashed "safetensors") u w = (r, w1) ->
            grows_in_cache (cache_root w) w w1 /\ keeps_files w w1).
  { intros sub hashed u Hsub Hwhich H. split.
    - exact (cache_and_fetch_in_cache sub hashed u w r w1 Hsub Hwhich H).
    - apply (cache_and_fetch_confined sub _ u w r w1 Hsub (filename_no_slash hashed)
               (no_slash_relative _ (filename_no_slash hashed)) H). }
  destruct (contains "civitai.com" (strip url)) eqn:Hc.
  - assert (Hm : is_marketplace (strip url) = true)
      by (unfold is_marketplace; now rewrite Hh, Hc).
    rewrite (get_lora_marketplace url _ Hm). cbv zeta.
    destruct (String.eqb (strip url) ""); [apply Hsame|].
    destruct (negb (startswith (strip url) "http")); [apply Hsame|].
    destruct (marketplace_url (strip url)) as [u'|]; [|apply Hsame].
    destruct (negb (contains "SafeTensor" u')); [apply Hsame|].
    apply Hfetch; [apply plain_civitai | now left].
  - assert (Hg : is_generic (strip url) = true)
      by (unfold is_generic; now rewrite Hh, Hc).
    rewrite (get_lora_generic url _ Hg). cbv zeta.
    destruct (String.eqb (strip url) ""); [apply Hsame|].
    destruct (negb (startswith (strip url) "http")); [apply Hsame|].
    destruct (negb (endswith (url_path (lower (strip url))) "safetensors")); [apply Hsame|].
    apply Hfetch; [apply plain_general | now right].
Qed.

(** *** The forms of a hub URL *)

Lemma partition_here sep tl : partition sep (sep +:+ tl) = Some ("", tl).
Proof.
  destruct (sep +:+ tl) as [|c s] eqn:E.
  - destruct sep; [|discriminate E]. cbn in E. subst tl. reflexivity.
  - rewrite partition_cons, <- E, startswith_app, drop_app_length. reflexivity.
Qed.

(** The first [/m/] in a path whose leading segments differ from [m] is the
    segment [m] itself. *)
Lemma partition_segment m r : forall l,
  has_char "/" m = false -> Forall (segment_but m) l -> l <> [] -> r <> [] ->
  partition (String "/" (m +:+ "/")) (join "/" (l ++ m :: r))
  = Some (join "/" l, join "/" r).
Proof.
  intros l Hm. induction l as [|x l IH]; intros Hl Hne Hr; [contradiction|].
  inversion Hl as [|? ? [Hx Hxm] Hl']; subst.
  destruct r as [|r0 r]; [contradiction|].
  destruct l as [|y l].
  - cbn [app]. rewrite !join_cons.
    rewrite (partition_skip "/" _ x _ Hx).
    assert (E : partition (String "/" (m +:+ "/")) ("/" +:+ m +:+ "/" +:+ join "/" (r0 :: r))
                = Some ("", join "/" (r0 :: r))).
    { change ("/" +:+ m +:+ "/" +:+ join "/" (r0 :: r))
        with (String "/" (m +:+ "/" +:+ join "/" (r0 :: r))).
      rewrite <- (app_assoc m "/"). apply (partition_here (String "/" (m +:+ "/"))). }
    rewrite E. now rewrite app_nil_r.
  - cbn [app]. rewrite join_cons.
    rewrite (partition_skip "/" _ x _ Hx).
    change ("/" +:+ join "/" (y :: l ++ m :: r0 :: r))
      with (String "/" (join "/" (y :: l ++ m :: r0 :: r))).
    rewrite partition_cons.
    assert (Hy : startswith (String "/" (join "/" (y :: l ++ m :: r0 :: r)))
                   (String "/" (m +:+ "/")) = false).
    { cbn [startswith]. rewrite Ascii.eqb_refl. cbn [andb].
      destruct (startswith _ _) eqn:E; [|reflexivity].
      destruct (join_starts "/" y (l ++ m :: r0 :: r)) as (rest & Hj & Hrest).
      rewrite Hj in E.
      inversion Hl' as [|? ? [Hys Hym] _]; subst.
      now apply (startswith_whole_segment m y rest Hm Hys Hrest) in E. }
    rewrite Hy.
    change (y :: l ++ m :: r0 :: r) with ((y :: l) ++ m :: r0 :: r).
    rewrite (IH Hl' ltac:(discriminate) ltac:(discriminate)).
    rewrite join_cons. reflexivity.
Qed.

Lemma replace_once q old new s b a :
  partition (String q old) s = Some (b, a) -> contains (String q old) a = false ->
  replace (String q old) new s = b +:+ new +:+ a.
Proof.
  intros Hp Ha. unfold replace.
  destruct (String.length s) as [|n] eqn:El.
  - apply partition_inv in Hp. subst s. rewrite !length_app in El. cbn in El. lia.
  - cbn [replace_fuel]. rewrite Hp. do 2 f_equal.
    apply partition_none in Ha.
    destruct n; cbn [replace_fuel]; [reflexivity|now rewrite Ha].
Qed.

(** Two hub references that agree once normalised are resolved alike. *)
Lemma get_lora_hub_normalised f g w :
  strip f = f -> strip g = g ->
  startswith f "http" = true -> startswith g "http" = true ->
  contains "huggingface.co" f = true -> contains "huggingface.co" g = true ->
  hub_normalise f = hub_normalise g ->
  get_lora_from_url f w = get_lora_from_url g w.
Proof.
  intros Hf Hg Hfh Hgh Hfc Hgc Hn.
  unfold get_lora_from_url, hub_normalise in *. revert Hn. cbv zeta.
  rewrite Hf, Hg, Hfh, Hgh, Hfc, Hgc.
  replace (String.eqb f "") with false by (destruct f; [discriminate Hfh|reflexivity]).
  replace (String.eqb g "") with false by (destruct g; [discriminate Hgh|reflexivity]).
  cbn [negb]. intros ->. reflexivity.
Qed.

Section HubForms.
Variables (owner repo revision file : string) (segments : list string).
Hypothesis Hsegments : Forall (segment_but "blob") (owner :: repo :: revision :: segments).
Hypothesis Hfile : has_char "/" file = false.

Let plain := hub_url owner repo revision segments file.
Let blob := hub_blob_url owner repo revision segments file.

Lemma plain_normalised : hub_normalise plain = plain.
Proof.
  unfold hub_normalise, plain. cbv zeta.
  rewrite url_no_download_marker, (url_no_blob _ _ _ _ _ Hsegments Hfile). reflexivity.
Qed.

Lemma marked_normalised u :
  endswith u "?download=true" = false ->
  hub_normalise (u +:+ "?download=true") = hub_normalise u.
Proof.
  intros E. unfold hub_normalise. cbv zeta. now rewrite endswith_app, drop_last_app, E.
Qed.

Lemma tail_segments :
  Forall (segment_but "blob") (revision :: segments ++ [file +:+ ".safetensors"]).
Proof.
  inversion Hsegments as [|? ? _ H1]; subst. inversion H1 as [|? ? _ H2]; subst.
  inversion H2 as [|? ? Hv H3]; subst.
  constructor; [exact Hv|]. apply Forall_app. split; [exact H3|].
  constructor; [|constructor]. apply (fname_segment file Hfile). cbn. lia.
Qed.

Lemma blob_ends : exists a, blob = a +:+ ".safetensors".
Proof.
  unfold blob, hub_blob_url.
  change (owner :: repo :: "blob" :: revision :: segments ++ [file +:+ ".safetensors"])
    with ((owner :: repo :: "blob" :: revision :: segments) ++ [file +:+ ".safetensors"]).
  rewrite join_snoc_app, <- app_assoc. eauto.
Qed.

Lemma blob_normalised : hub_normalise blob = plain.
Proof.
  assert (Hend : endswith blob "?download=true" = false).
  { destruct blob_ends as [a ->].
    change (a +:+ ".safetensors") with (a +:+ String "." "safetensors").
    now rewrite (endswith_barrier "." "?download=true"). }
  assert (Hpart : partition "/blob/" blob
                  = Some (join "/" ["https:"; ""; "huggingface.co"; owner; repo],
                          join "/" (revision :: segments ++ [file +:+ ".safetensors"]))).
  { change blob
      with (join "/" (["https:"; ""; "huggingface.co"; owner; repo]
                        ++ "blob" :: revision :: segments ++ [file +:+ ".safetensors"])).
    apply (partition_segment "blob"); [reflexivity | | discriminate | discriminate].
    inversion Hsegments as [|? ? Ho H1]; subst. inversion H1 as [|? ? Hr _]; subst.
    repeat (constructor; [split; [reflexivity|discriminate]|]).
    constructor; [exact Ho|]. constructor; [exact Hr|constructor]. }
  unfold hub_normalise. cbv zeta. rewrite Hend.
  replace (contains "/blob/" blob) with true
    by (symmetry; rewrite partition_contains, Hpart; reflexivity).
  rewrite (replace_once _ _ _ _ _ _ Hpart).
  - unfold plain, hub_url. rewrite !join_cons. cbn [join append].
    rewrite ?join_cons, ?app_assoc. reflexivity.
  - apply (contains_segment "blob"); [reflexivity|apply tail_segments].
Qed.

Lemma blob_unmarked : endswith blob "?download=true" = false.
Proof.
  destruct blob_ends as [a ->].
  change (a +:+ ".safetensors") with (a +:+ String "." "safetensors").
  now rewrite (endswith_barrier "." "?download=true").
Qed.

Lemma blob_trimmed : strip blob = blob.
Proof.
  unfold strip. replace (lstrip blob) with blob by reflexivity.
  destruct blob_ends as [a E]. rewrite E.
  rewrite rstrip_app; [reflexivity|discriminate].
Qed.

Lemma marked_trimmed u :
  startswith u "https://" = true -> strip (u +:+ "?download=true") = u +:+ "?download=true".
Proof.
  intros H. apply startswith_inv in H as [r ->]. unfold strip.
  replace (lstrip (("https://" +:+ r) +:+ "?download=true"))
    with (("https://" +:+ r) +:+ "?download=true") by reflexivity.
  rewrite rstrip_app; [reflexivity|discriminate].
Qed.

(** X8.  The forms in which the hub shows the URL of a file -- with [blob] for
    [resolve], with [?download=true] behind it, or both -- are resolved
    exactly as the plain download URL is, provided no owner, repository,
    revision or folder is itself called [blob]. *)
Theorem hub_url_forms_agree w :
  get_lora_from_url blob w = get_lora_from_url plain w
  /\ get_lora_from_url (plain +:+ "?download=true") w = get_lora_from_url plain w
  /\ get_lora_from_url (blob +:+ "?download=true") w = get_lora_from_url plain w.
Proof.
  assert (Hhost : forall u t, contains "huggingface.co" (("https://huggingface.co/" +:+ u) +:+ t)
                              = true)
    by (intros u t; now do 2 apply contains_app_l).
  assert (Hplain : strip plain = plain) by apply url_trimmed.
  split; [|split]; apply get_lora_hub_normalised;
    try exact Hplain; try exact blob_trimmed; try reflexivity;
    try (apply marked_trimmed; reflexivity);
    try (apply Hhost);
    try (rewrite <- (app_nil_r plain); apply Hhost);
    try (rewrite <- (app_nil_r blob); apply Hhost).
  - now rewrite blob_normalised, plain_normalised.
  - apply marked_normalised, url_no_download_marker.
  - rewrite (marked_normalised blob blob_unmarked).
    now rewrite blob_normalised, plain_normalised.
Qed.

End HubForms.

(** *** A hub URL without owner and repository *)

(** X9.  A hub URL that names a file directly under the host passes the
    suffix check and then fails on the missing path segments: the lookup
    of the repository raises [IndexError], before anything is requested or
    written. *)
Theorem hub_url_without_repo_raises file w :
  has_char "/" file = false ->
  get_lora_from_url ("https://huggingface.co/" +:+ file +:+ ".safetensors") w
  = (Raise IndexError, w).
Proof.
  intros Hfile.
  set (fname := file +:+ ".safetensors").
  set (url := "https://huggingface.co/" +:+ fname).
  assert (Hname : forall other, String.length other < 12 -> segment_but other fname)
    by apply (fname_segment file Hfile).
  assert (Hends : url = ("https://huggingface.co/" +:+ file) +:+ ".safetensors")
    by (unfold url, fname; now rewrite !app_assoc).
  assert (Htrim : strip url = url).
  { unfold strip. replace (lstrip url) with url by reflexivity.
    rewrite Hends, rstrip_app; [reflexivity|discriminate]. }
  assert (Hmark : endswith url "?download=true" = false).
  { rewrite Hends.
    change (?a +:+ ".safetensors") with (a +:+ String "." "safetensors").
    now rewrite (endswith_barrier "." "?download=true"). }
  assert (Hblob : contains "/blob/" url = false).
  { change url with (join "/" ["https:"; ""; "huggingface.co"; fname]).
    apply (contains_segment "blob"); [reflexivity|].
    repeat (constructor; [split; [reflexivity|discriminate]|]).
    constructor; [apply Hname; cbn; lia|constructor]. }
  assert (Hlower : endswith (lower url) "safetensors" = true).
  { rewrite Hends, lower_app.
    change (lower ".safetensors") with ("." +:+ "safetensors").
    rewrite <- app_assoc. apply endswith_app. }
  set (rest := join "/" ["huggingface.co"; fname]).
  assert (Hslashes : contains "//" rest = false).
  { apply (contains_segment ""); [reflexivity|].
    constructor; [split; [reflexivity|discriminate]|].
    constructor; [apply Hname; cbn; lia|constructor]. }
  assert (Hhttp : contains "http://" rest = false).
  { destruct (contains "http://" rest) eqn:E; [|reflexivity].
    apply (contains_pattern_suffix "http:" "//") in E. congruence. }
  assert (Hhttps : contains "https://" rest = false).
  { destruct (contains "https://" rest) eqn:E; [|reflexivity].
    apply (contains_pattern_suffix "https:" "//") in E. congruence. }
  assert (Hurl : url = "https://" +:+ rest) by reflexivity.
  assert (Hscheme : replace "https://" "" (replace "http://" "" url) = rest).
  { rewrite (replace_absent "http://" "" url).
    - rewrite (replace_once _ _ "" url "" rest); [reflexivity | | exact Hhttps].
      rewrite Hurl. apply (partition_here "https://").
    - rewrite Hurl. cbn [append].
      rewrite contains_cons. cbn [startswith Ascii.eqb Bool.eqb andb orb].
      repeat (rewrite contains_cons_foreign by reflexivity).
      exact Hhttp. }
  assert (Hparts : split "/" rest = ["huggingface.co"; fname]).
  { apply split_join. constructor; [reflexivity|].
    constructor; [apply (Hname ""); cbn; lia|constructor]. }
  unfold get_lora_from_url. cbv zeta. fold fname. fold url.
  rewrite Htrim.
  replace (String.eqb url "") with false by reflexivity.
  replace (startswith url "http") with true by reflexivity.
  replace (contains "huggingface.co" url) with true
    by (symmetry; unfold url; now apply contains_app_l).
  cbn [negb]. rewrite Hmark, Hblob, Hlower. cbn [negb].
  rewrite Hscheme, Hparts. reflexivity.
Qed.


End ResolverMore.

Lemma download_file_stores_body_witness :
  exists w1,
    download_file (Ext := Sample.externals) "https://example.com/a.bin" "/srv/dl/a.bin"
      Sample.world = (Ok tt, w1)
    /\ files w1 !! "/srv/dl/a.bin" = Some "weights".
Proof.
  eexists. split; [vm_compute; reflexivity|].
  destruct (download_file_stores_body (Ext := Sample.externals)
              "https://example.com/a.bin" "/srv/dl/a.bin" Sample.world _ eq_refl)
    as (response & Hfetch & _ & _ & Hfile & _).
  injection Hfetch as <-. exact Hfile.
Defined.

Lemma download_file_failure_writes_nothing_witness :
  exists w1,
    download_file (Ext := Sample.externals) "https://civitai.com/api/download/models/5"
      "/srv/dl/a.bin" Sample.world = (Raise (DownloadFailed 401), w1)
    /\ files w1 = files Sample.world
    /\ In (EvHttpGet "https://civitai.com/api/download/models/5") (trace w1).
Proof.
  destruct (download_file_failure_writes_nothing (Ext := Sample.externals)
              "https://civitai.com/api/download/models/5" "/srv/dl/a.bin" Sample.world)
    as [_ Hreached].
  destruct (Os.makedirs (PosixPath.dirname "/srv/dl/a.bin") Sample.world)
    as [[[]|e] w'] eqn:Emk; [|vm_compute in Emk; discriminate Emk].
  destruct (Hreached w' eq_refl) as (Hfiles & _ & Hstatus).
  eexists. split; [|split; [exact Hfiles|]].
  - exact (Hstatus (mkResponse 401 "unauthorized") eq_refl ltac:(discriminate)).
  - cbn [trace]. apply in_or_app. right. left. reflexivity.
Defined.

Lemma find_or_create_cache_settles_witness :
  exists w1,
    find_or_create_cache Sample.world = (Ok "/srv/huggingface_cache", w1)
    /\ Os.exists_in Sample.world "/srv/huggingface_cache" = false
    /\ Os.exists_in w1 "/srv/huggingface_cache" = true
    /\ find_or_create_cache w1 = (Ok "/srv/huggingface_cache", w1).
Proof.
  set (out := find_or_create_cache Sample.world).
  assert (Hrun : out = (Ok "/srv/huggingface_cache", snd out)).
  { rewrite (surjective_pairing out) at 1. f_equal. }
  exists (snd out). split; [exact Hrun|]. split; [vm_compute; reflexivity|].
  destruct (find_or_create_cache_settles Sample.world _ _ Hrun)
    as (_ & Hthere & _ & _ & _ & _ & Hagain).
  split; [exact Hthere|exact Hagain].
Defined.

Lemma malformed_reference_rejected_witness :
  get_lora_from_url (Ext := Sample.externals) "  " Sample.world
    = (Raise (ValueError "URL is empty"), Sample.world)
  /\ get_lora_from_url (Ext := Sample.externals)
       "ftp://huggingface.co/o/r/resolve/main/f.safetensors" Sample.world
     = (Raise (ValueError "Invalid URL"), Sample.world).
Proof.
  split.
  - destruct (malformed_reference_rejected (Ext := Sample.externals) "  " Sample.world)
      as [Hblank _].
    apply Hblank. reflexivity.
  - destruct (malformed_reference_rejected (Ext := Sample.externals)
                "ftp://huggingface.co/o/r/resolve/main/f.safetensors" Sample.world)
      as [_ Hscheme].
    apply Hscheme; [discriminate|reflexivity].
Defined.

Lemma version_id_without_value_raises_witness :
  get_lora_from_url (Ext := Sample.externals)
    "https://civitai.com/models/111?modelVersionId:123" Sample.world
  = (Raise IndexError, Sample.world).
Proof.
  apply (version_id_without_value_raises (Ext := Sample.externals)); reflexivity.
Defined.

Lemma resolution_stays_in_cache_witness :
  let url := "https://example.com/a/../../etc/passwd.safetensors" in
  let out := get_lora_from_url (Ext := Sample.externals) url Sample.world in
  fst out = Ok "/srv/huggingface_cache/general/68747470.safetensors"
  /\ FsSpec.grows_in_cache "/srv/huggingface_cache" Sample.world (snd out)
  /\ FsSpec.keeps_files Sample.world (snd out).
Proof.
  intros url out. split; [vm_compute; reflexivity|].
  apply (resolution_stays_in_cache (Ext := Sample.externals) url Sample.world
           (fst out) (snd out));
    [reflexivity|apply surjective_pairing].
Defined.

Lemma hub_url_forms_agree_witness :
  let plain := "https://huggingface.co/acme/styles/resolve/v2/flux/ink.safetensors" in
  get_lora_from_url (Ext := Sample.externals)
    "https://huggingface.co/acme/styles/blob/v2/flux/ink.safetensors?download=true"
    Sample.world
  = get_lora_from_url (Ext := Sample.externals) plain Sample.world.
Proof.
  intros plain.
  destruct (hub_url_forms_agree (Ext := Sample.externals)
              "acme" "styles" "v2" "ink" ["flux"]) with (w := Sample.world)
    as (_ & _ & Hboth);
    [repeat (constructor; [split; [reflexivity|discriminate]|]); constructor
    | reflexivity |].
  exact Hboth.
Defined.

Lemma hub_url_without_repo_raises_witness :
  get_lora_from_url (Ext := Sample.externals)
    "https://huggingface.co/model.safetensors" Sample.world
  = (Raise IndexError, Sample.world).
Proof.
  apply (hub_url_without_repo_raises (Ext := Sample.externals) "model"). reflexivity.
Defined.
(** ** The loader nodes: further properties *)

Section LoaderMore.
Context `{Ext : Externals} `{Cmf : Comfy} `{Fp : FolderPaths}.
Import PyStr StrSpec PyStrFacts PathSpec PathFacts TextSpec FsSpec StripFacts.

(** *** A resolved reference stays resolved *)

Lemma cache_and_fetch_hit sub name url w w' :
  grows_under (cache_root w) w w' ->
  Os.exists_in w' (cache_root w) = true ->
  Os.exists_in w' (PosixPath.join3 (cache_root w) sub name) = true ->
  cache_and_fetch sub name url w'
  = (Ok (PosixPath.join3 (cache_root w) sub name), w').
Proof.
  intros Hg HC HL.
  unfold cache_and_fetch, bind. rewrite find_or_create_cache_run.
  unfold ensure_cache. rewrite (cache_root_stable w w' Hg), HC.
  unfold Os.path_exists. rewrite HL. reflexivity.
Qed.

Lemma cache_and_fetch_leaves sub name url w p w1 :
  plain_name sub -> has_char "/" name = false -> startswith name "/" = false ->
  cache_and_fetch sub name url w = (Ok p, w1) ->
  p = PosixPath.join3 (cache_root w) sub name
  /\ grows_under (cache_root w) w w1
  /\ Os.exists_in w1 (cache_root w) = true
  /\ Os.exists_in w1 p = true.
Proof.
  intros Hsub Hname Hrel H.
  pose proof (cache_and_fetch_path _ _ _ _ _ _ H) as ->.
  split; [reflexivity|]. revert H.
  unfold cache_and_fetch at 1, bind. rewrite find_or_create_cache_run.
  unfold Os.path_exists at 1.
  set (L := PosixPath.join3 (cache_root w) sub name).
  destruct (Os.exists_in (ensure_cache w) L) eqn:EL; cbn [negb].
  - unfold ret. intros H. apply pair_equal_spec in H as [_ <-].
    split; [apply ensure_cache_grows|]. split; [apply ensure_cache_exists|exact EL].
  - destruct (download_file url L (ensure_cache w)) as [[[]|e] w'] eqn:Ed; [|discriminate].
    unfold ret. intros H. apply pair_equal_spec in H as [_ <-].
    destruct (cache_root_form w) as [x Hx].
    pose proof (ensure_cache_exists w) as HC.
    unfold L in Ed. rewrite Hx in Ed, HC.
    apply (download_file_ok x sub name url _ w' Hsub Hname Hrel HC) in Ed as [Hg HL].
    rewrite <- Hx in Hg, HL, HC.
    split; [exact (grows_under_trans _ _ _ _ (ensure_cache_grows w) Hg)|].
    split; [destruct Hg as (_ & _ & Hm & _); apply Hm, HC|exact HL].
Qed.

Lemma cache_and_fetch_repeats sub name url url' w p w1 w2 :
  plain_name sub -> has_char "/" name = false -> startswith name "/" = false ->
  cache_and_fetch sub name url w = (Ok p, w1) ->
  same_disk w1 w2 ->
  cache_and_fetch sub name url' w2 = (Ok p, w2).
Proof.
  intros Hsub Hname Hrel H Hs.
  destruct (cache_and_fetch_leaves _ _ _ _ _ _ Hsub Hname Hrel H) as (-> & Hg & HC & HL).
  apply cache_and_fetch_hit.
  - exact (grows_under_same_disk _ _ _ _ Hg Hs).
  - now rewrite (exists_in_same_disk _ _ _ Hs).
  - now rewrite (exists_in_same_disk _ _ _ Hs).
Qed.

(** Once a generic or marketplace reference is resolved, it resolves to the
    same path, with nothing done, in every world that has the same disk and
    environment as the one the resolution left. *)
Lemma resolution_repeats url w p w1 w2 :
  is_hub (strip url) = false ->
  get_lora_from_url url w = (Ok p, w1) ->
  same_disk w1 w2 ->
  get_lora_from_url url w2 = (Ok p, w2).
Proof.
  intros Hh H Hs. revert H.
  destruct (contains "civitai.com" (strip url)) eqn:Hc.
  - assert (Hm : is_marketplace (strip url) = true)
      by (unfold is_marketplace; now rewrite Hh, Hc).
    rewrite !(get_lora_marketplace url _ Hm). cbv zeta.
    destruct (String.eqb (strip url) ""); [discriminate|].
    destruct (negb (startswith (strip url) "http")); [discriminate|].
    destruct (marketplace_url (strip url)) as [u'|]; [|discriminate].
    destruct (negb (contains "SafeTensor" u')); [discriminate|].
    intros H.
    apply (cache_and_fetch_repeats _ _ _ _ _ _ _ _ plain_civitai
             (filename_no_slash _) (no_slash_relative _ (filename_no_slash _)) H Hs).
  - assert (Hg : is_generic (strip url) = true)
      by (unfold is_generic; now rewrite Hh, Hc).
    rewrite !(get_lora_generic url _ Hg). cbv zeta.
    destruct (String.eqb (strip url) ""); [discriminate|].
    destruct (negb (startswith (strip url) "http")); [discriminate|].
    destruct (negb (endswith (url_path (lower (strip url))) "safetensors")); [discriminate|].
    intros H.
    apply (cache_and_fetch_repeats _ _ _ _ _ _ _ _ plain_general
             (filename_no_slash _) (no_slash_relative _ (filename_no_slash _)) H Hs).
Qed.

Lemma load_torch_file_same_disk p w r w1 :
  load_torch_file p w = (r, w1) -> same_disk w w1.
Proof.
  unfold load_torch_file, bind, emit. cbn [files].
  destruct (files w !! p); intros H; apply pair_equal_spec in H as [_ <-];
    repeat split.
Qed.

(** What a call that went through leaves behind: the payload of the path
    it resolved, and the disk as the resolution left it. *)
Lemma cached_or_load_leaves p self w l self1 w1 :
  cached_or_load p (self, w) = (Ok l, (self1, w1)) ->
  loaded_lora self1 = Some l /\ loaded_lora_path self1 = Some p /\ same_disk w w1.
Proof.
  destruct (loaded_lora self) as [l0|] eqn:El.
  - destruct (path_matches (loaded_lora_path self) p) eqn:Em.
    + apply path_matches_spec in Em.
      rewrite (cached_or_load_hit p l0 self w El Em).
      intros H. apply pair_equal_spec in H as [[= <-] [= <- <-]].
      repeat split; assumption.
    + rewrite cached_or_load_miss
        by (right; intros E; apply path_matches_spec in E; congruence).
      destruct (load_torch_file p w) as [[l'|e] w2] eqn:Eload; [|discriminate].
      intros H. apply pair_equal_spec in H as [[= <-] [= <- <-]].
      split; [reflexivity|]. split; [reflexivity|].
      exact (load_torch_file_same_disk _ _ _ _ Eload).
  - rewrite cached_or_load_miss by (left; exact El).
    destruct (load_torch_file p w) as [[l'|e] w2] eqn:Eload; [|discriminate].
    intros H. apply pair_equal_spec in H as [[= <-] [= <- <-]].
    split; [reflexivity|]. split; [reflexivity|].
    exact (load_torch_file_same_disk _ _ _ _ Eload).
Qed.

(** X10.  After a call of the URL loader with a strength other than zero that
    went through, calling it again with the same generic or marketplace
    reference, again with a strength other than zero, requests nothing and
    reads no file: the payload the instance holds is patched into whatever
    model and clip are given, and instance and world stay as they are. *)
Theorem load_lora_again_reads_nothing
    url model clip sm sc self w out self1 w1 model' clip' sm' sc' :
  is_hub (strip url) = false ->
  sm <> 0%R \/ sc <> 0%R -> sm' <> 0%R \/ sc' <> 0%R ->
  LoraLoaderFromURL_load_lora model clip url sm sc (self, w) = (Ok out, (self1, w1)) ->
  exists l,
    loaded_lora self1 = Some l
    /\ LoraLoaderFromURL_load_lora model' clip' url sm' sc' (self1, w1)
       = (load_lora_for_models model' clip' l sm' sc', (self1, w1)).
Proof.
  intros Hh Hs Hs'.
  change (LoraLoaderFromURL_load_lora model clip url sm sc)
    with (load_lora (FromURL url) model clip sm sc).
  change (LoraLoaderFromURL_load_lora model' clip' url sm' sc')
    with (load_lora (FromURL url) model' clip' sm' sc').
  rewrite !load_lora_unfold, (strengths_nonzero _ _ Hs), (strengths_nonzero _ _ Hs').
  cbn [resolve].
  destruct (get_lora_from_url url w) as [[p|e] wr] eqn:Er; [|discriminate].
  destruct (cached_or_load p (self, wr)) as [[l|e] [self2 w2]] eqn:Ec; [|discriminate].
  destruct (load_lora_for_models model clip l sm sc) as [out'|e]; [|discriminate].
  intros H. apply pair_equal_spec in H as [_ [= <- <-]].
  destruct (cached_or_load_leaves _ _ _ _ _ _ Ec) as (Hl & Hp & Hdisk).
  exists l. split; [exact Hl|].
  rewrite (resolution_repeats url w p wr w2 Hh Er Hdisk).
  rewrite (cached_or_load_hit p l self2 w2 Hl Hp). reflexivity.
Qed.

(** *** The embedding loader *)

(** X11.  The embedding loader asks the hub once, for the trimmed repository and
    file name, in the first embeddings folder, with no subfolder exactly
    when the one given is blank (and a trimmed, non-empty one otherwise);
    it hands back the clip it was given, or the hub's exception.  With no
    embeddings folder configured it raises [IndexError] and asks for
    nothing. *)
Theorem download_embedding_asks_once clip repo sub file w :
  (get_folder_paths "embeddings" = Ok [] ->
   HFHubEmbeddingLoader_download_embedding clip repo sub file w = (Raise IndexError, w))
  /\ (forall dir rest,
        get_folder_paths "embeddings" = Ok (dir :: rest) ->
        exists req,
          HFHubEmbeddingLoader_download_embedding clip repo sub file w
          = (match fst (hf_hub_download req w) with
             | Ok _ => Ok clip
             | Raise e => Raise e
             end, snd (hf_hub_download req w))
          /\ cache_dir req = dir
          /\ repo_id req = strip repo /\ trimmed (repo_id req)
          /\ filename req = strip file /\ trimmed (filename req)
          /\ (subfolder req = None <-> all_space sub = true)
          /\ (forall s, subfolder req = Some s -> s = strip sub /\ trimmed s /\ s <> "")).
Proof.
  unfold HFHubEmbeddingLoader_download_embedding. cbv zeta. split.
  - intros ->. reflexivity.
  - intros dir rest ->.
    exists (mkHubRequest (strip repo) (strip file)
              (if String.eqb (strip sub) "" then None else Some (strip sub)) dir).
    split; [|cbn [cache_dir repo_id filename subfolder]].
    + unfold bind at 1. unfold lift_result at 1.
      unfold bind at 1. unfold item at 1. cbn [nth_error]. unfold ret at 1.
      unfold bind at 1.
      destruct (hf_hub_download _ w) as [[p|e] w1]; reflexivity.
    + split; [reflexivity|]. split; [reflexivity|]. split; [apply strip_trimmed|].
      split; [reflexivity|]. split; [apply strip_trimmed|].
      destruct (String.eqb_spec (strip sub) "") as [E|E].
      * split; [split; [intros _; now apply strip_empty|reflexivity]|discriminate].
      * split.
        -- split; [discriminate|]. intros H. apply strip_empty in H. contradiction.
        -- intros s [= <-]. split; [reflexivity|]. split; [apply strip_trimmed|exact E].
Qed.

End LoaderMore.

Lemma load_lora_again_reads_nothing_witness :
  let url := "https://example.com/style.safetensors" in
  let first := LoraLoaderFromURL_load_lora (Ext := Sample.externals) (Cmf := Sample.comfy)
                 [] [] url 1 1 (loader_init, Sample.world) in
  fst first = Ok (["weights"], ["weights"])
  /\ LoraLoaderFromURL_load_lora (Ext := Sample.externals) (Cmf := Sample.comfy)
       ["base"] ["text"] url 0.5 0 (snd first)
     = (Ok (["weights"; "base"], ["weights"; "text"]), snd first).
Proof.
  intros url first.
  assert (Hfirst : first = (Ok (["weights"], ["weights"]), (fst (snd first), snd (snd first)))).
  { unfold first, LoraLoaderFromURL_load_lora.
    replace (is_zero 1 && is_zero 1) with false
      by (symmetry; apply strengths_nonzero; left; lra).
    vm_compute. reflexivity. }
  split; [now rewrite Hfirst|].
  destruct (load_lora_again_reads_nothing (Ext := Sample.externals) (Cmf := Sample.comfy)
              url [] [] 1 1 loader_init Sample.world (["weights"], ["weights"])
              (fst (snd first)) (snd (snd first)) ["base"] ["text"] 0.5 0
              eq_refl ltac:(left; lra) ltac:(left; lra) Hfirst)
    as (l & Hl & Hagain).
  rewrite (surjective_pairing (snd first)), Hagain.
  assert (El : l = "weights").
  { unfold first, LoraLoaderFromURL_load_lora in Hl.
    replace (is_zero 1 && is_zero 1) with false in Hl
      by (symmetry; apply strengths_nonzero; left; lra).
    vm_compute in Hl. now injection Hl as <-. }
  subst l. reflexivity.
Defined.

Lemma download_embedding_asks_once_witness :
  HFHubEmbeddingLoader_download_embedding (Ext := Sample.externals) (Cmf := Sample.comfy)
    (Fp := SampleMore.no_folders) ["clip"] " acme/words " "  " "happy.pt" Sample.world
  = (Raise IndexError, Sample.world)
  /\ exists w1,
       HFHubEmbeddingLoader_download_embedding (Ext := Sample.externals)
         (Cmf := Sample.comfy) (Fp := SampleMore.folders)
         ["clip"] " acme/words " "  " "happy.pt" Sample.world = (Ok ["clip"], w1)
       /\ trace w1 = [EvHubDownload (mkHubRequest "acme/words" "happy.pt" None
                                       "/srv/models/embeddings")].
Proof.
  split.
  - destruct (download_embedding_asks_once (Ext := Sample.externals) (Cmf := Sample.comfy)
                (Fp := SampleMore.no_folders) ["clip"] " acme/words " "  " "happy.pt"
                Sample.world) as [Hnone _].
    apply Hnone. reflexivity.
  - destruct (download_embedding_asks_once (Ext := Sample.externals) (Cmf := Sample.comfy)
                (Fp := SampleMore.folders) ["clip"] " acme/words " "  " "happy.pt"
                Sample.world) as [_ Hsome].
    destruct (Hsome "/srv/models/embeddings" [] eq_refl)
      as (req & Hrun & Hdir & Hrepo & _ & Hfile & _ & Hsub & _).
    destruct req as [r f s c]. cbn in Hdir, Hrepo, Hfile, Hsub. subst r f c.
    assert (Es : s = None) by (apply Hsub; reflexivity). subst s.
    eexists. split; [exact Hrun|]. vm_compute. reflexivity.
Defined.
(** ** ImagePaddingAdvanced: further properties *)

Module PaddingMore.
Import ImagePaddingAdvanced PaddingSpec PaddingProofs ImageSpec.
Local Open Scope Z_scope.

Lemma run_shape im w h method out :
  run im w h method = Ok out ->
  shape out = (batch im, Z.max h (height im), Z.max w (width im), channels im).
Proof.
  unfold run, shape.
  set (pw := if w >? width im then w - width im else 0).
  set (ph := if h >? height im then h - height im else 0).
  assert (Hpw : width im + pw = Z.max w (width im))
    by (unfold pw; destruct (Z.gtb_spec w (width im)); lia).
  assert (Hph : height im + ph = Z.max h (height im))
    by (unfold ph; destruct (Z.gtb_spec h (height im)); lia).
  assert (Hpadded :
    (batch im, height im + ph / 2 + (ph - ph / 2), width im + pw / 2 + (pw - pw / 2),
     channels im)
    = (batch im, Z.max h (height im), Z.max w (width im), channels im))
    by (repeat f_equal; lia).
  destruct (Z.eqb_spec ph 0) as [Eh|Eh]; [destruct (Z.eqb_spec pw 0) as [Ew|Ew]|];
    cbn [andb].
  1: { intros [= <-]. repeat f_equal; lia. }
  all: destruct (String.eqb method "constant"); [intros [= <-]; exact Hpadded|];
    destruct (String.eqb method "replicate"); [intros [= <-]; exact Hpadded|];
    unfold pad_reflect; destruct (_ && _); [|discriminate];
    intros [= <-]; exact Hpadded.
Qed.

(** X12.  The node never shrinks: whatever the target, a result has the larger
    of target and source in each dimension.  And it settles: padding the
    result again to the same target, by any method, returns it as it is. *)
Theorem run_never_shrinks_and_settles im w h method out :
  run im w h method = Ok out ->
  shape out = (batch im, Z.max h (height im), Z.max w (width im), channels im)
  /\ forall method', run out w h method' = Ok out.
Proof.
  intros H. pose proof (run_shape _ _ _ _ _ H) as Hs. split; [exact Hs|].
  intros method'. unfold shape in Hs. injection Hs as _ Hh Hw _.
  apply run_unchanged; lia.
Qed.

Lemma run_never_shrinks_and_settles_witness :
  exists out,
    run gradient 9 2 "replicate" = Ok out
    /\ shape out = (1, 4, 9, 3)
    /\ run out 9 2 "reflect" = Ok out.
Proof.
  eexists. split; [reflexivity|].
  destruct (run_never_shrinks_and_settles gradient 9 2 "replicate" _ eq_refl)
    as [Hshape Hagain].
  split; [exact Hshape|apply Hagain].
Defined.

End PaddingMore.

(** ** ImageToMultipleOf: properties *)

Module MultipleProofs.
Import ImageToMultipleOf ImageSpec.
Local Open Scope Z_scope.

Lemma slice_bound_inside n i : 0 <= i <= n -> slice_bound n i = i.
Proof.
  intros H. unfold slice_bound. destruct (Z.ltb_spec i 0); lia.
Qed.

(** The window of the crop: [size mod m] rows go, half of them (rounded
    down) in front. *)
Lemma window size m :
  0 < m -> 0 <= size ->
  let new_size := size - size mod m in
  let top := (size - new_size) / 2 in
  top = margin size m
  /\ 0 <= top <= size /\ 0 <= top + new_size <= size
  /\ top <= size - (top + new_size) <= top + 1
  /\ (m | new_size) /\ size - m < new_size <= size /\ 0 <= new_size.
Proof.
  intros Hm Hs new_size top.
  pose proof (Z.mod_pos_bound size m Hm) as Hmod.
  pose proof (Z.mod_le size m Hs Hm) as Hle.
  assert (Etop : top = margin size m)
    by (unfold top, new_size, margin; f_equal; lia).
  pose proof (PaddingProofs.half_split (size mod m) ltac:(lia)) as [H0 H1].
  fold (margin size m) in H0, H1. rewrite <- Etop in H0, H1.
  split; [exact Etop|]. unfold new_size in *.
  repeat split; try lia.
  exists (size / m). pose proof (Z.div_mod size m ltac:(lia)). lia.
Qed.

Section WithResample.
Context `{Rs : Resample}.

Lemma run_crop im m method :
  m <> 0 -> method <> "rescale" ->
  run im m method =
    let new_height := height im - height im mod m in
    let new_width := width im - width im mod m in
    let top := (height im - new_height) / 2 in
    let left := (width im - new_width) / 2 in
    Ok (crop im top (top + new_height) left (left + new_width)).
Proof.
  intros Hm Hmethod. unfold run, shape.
  destruct (Z.eqb_spec m 0); [contradiction|].
  destruct (String.eqb_spec method "rescale"); [contradiction|]. reflexivity.
Qed.

(** The crop, by its shape and its entries. *)
Lemma crop_result im m method :
  0 < m -> 0 <= height im -> 0 <= width im -> method <> "rescale" ->
  exists out,
    run im m method = Ok out
    /\ shape out = (batch im, height im - height im mod m,
                    width im - width im mod m, channels im)
    /\ forall n y x c,
         px out n y x c = px im n (margin (height im) m + y) (margin (width im) m + x) c.
Proof.
  intros Hm HH HW Hmethod.
  rewrite run_crop by (assumption || lia). cbv zeta.
  destruct (window (height im) m Hm HH) as (Et & Ht0 & Ht1 & _ & _ & _ & Hnh).
  destruct (window (width im) m Hm HW) as (El & Hl0 & Hl1 & _ & _ & _ & Hnw).
  cbv zeta in *.
  set (nh := height im - height im mod m) in *.
  set (nw := width im - width im mod m) in *.
  eexists. split; [reflexivity|].
  unfold crop. cbn [shape batch height width channels px].
  rewrite !slice_bound_inside by lia.
  rewrite <- Et, <- El.
  replace (Z.max 0 ((height im - nh) / 2 + nh - (height im - nh) / 2)) with nh by lia.
  replace (Z.max 0 ((width im - nw) / 2 + nw - (width im - nw) / 2)) with nw by lia.
  split; reflexivity.
Qed.

(** X13.  Any method but [rescale] crops the image to the largest multiples of
    [multiple_of] that fit, less than [multiple_of] being lost in each
    dimension; the window is centred, the odd row or column going at the
    far end, and holds the entries of the source at that place. *)
Theorem crop_to_multiple im m method :
  0 < m -> 0 <= height im -> 0 <= width im -> method <> "rescale" ->
  exists out,
    run im m method = Ok out
    /\ shape out = (batch im, height im - height im mod m,
                    width im - width im mod m, channels im)
    /\ (m | height out) /\ (m | width out)
    /\ height im - m < height out <= height im
    /\ width im - m < width out <= width im
    /\ (let top := margin (height im) m in
        let left := margin (width im) m in
        top <= height im - (top + height out) <= top + 1
        /\ left <= width im - (left + width out) <= left + 1
        /\ forall n y x c, px out n y x c = px im n (top + y) (left + x) c).
Proof.
  intros Hm HH HW Hmethod.
  destruct (crop_result im m method Hm HH HW Hmethod) as (out & Hrun & Hshape & Hpx).
  destruct (window (height im) m Hm HH) as (Et & _ & _ & Htm & Hdh & Hlh & _).
  destruct (window (width im) m Hm HW) as (El & _ & _ & Hlm & Hdw & Hlw & _).
  cbv zeta in *. rewrite Et in Htm. rewrite El in Hlm.
  pose proof Hshape as Hsizes. unfold shape in Hsizes. injection Hsizes as _ Eh Ew _.
  exists out. rewrite Eh, Ew.
  repeat split; try assumption; lia.
Qed.

(** X14.  An image whose sides are multiples already is returned entry for
    entry; hence cropping a second time changes nothing. *)
Theorem crop_settles im m method :
  0 < m -> 0 <= height im -> 0 <= width im -> method <> "rescale" ->
  ((m | height im) -> (m | width im) ->
   exists out, run im m method = Ok out /\ same_image out im)
  /\ (forall out, run im m method = Ok out ->
      exists again, run out m method = Ok again /\ same_image again out).
Proof.
  intros Hm HH HW Hmethod.
  assert (Hfix : forall a, 0 <= height a -> 0 <= width a ->
            (m | height a) -> (m | width a) ->
            exists out, run a m method = Ok out /\ same_image out a).
  { intros a Ha Hb Hdh Hdw.
    destruct (crop_result a m method Hm Ha Hb Hmethod) as (out & Hrun & Hshape & Hpx).
    exists out. split; [exact Hrun|].
    apply Z.mod_divide in Hdh; [|lia]. apply Z.mod_divide in Hdw; [|lia].
    split.
    - rewrite Hshape, Hdh, Hdw, !Z.sub_0_r. reflexivity.
    - intros n y x c _ _. rewrite Hpx. unfold margin. rewrite Hdh, Hdw.
      reflexivity. }
  split; [apply Hfix; assumption|].
  intros out Hrun.
  destruct (crop_result im m method Hm HH HW Hmethod) as (out' & Hrun' & Hshape & _).
  rewrite Hrun in Hrun'. injection Hrun' as <-.
  destruct (window (height im) m Hm HH) as (_ & _ & _ & _ & Hdh & _ & Hnh).
  destruct (window (width im) m Hm HW) as (_ & _ & _ & _ & Hdw & _ & Hnw).
  cbv zeta in *.
  unfold shape in Hshape. injection Hshape as _ Eh Ew _.
  rewrite <- Eh in Hdh, Hnh. rewrite <- Ew in Hdw, Hnw.
  apply Hfix; assumption.
Qed.

(** X15.  The edges: a multiple of 0 is refused by every method, and an image
    smaller than the multiple is cropped to nothing. *)
Theorem crop_edges im method :
  run im 0 method = Raise ZeroDivisionError
  /\ forall m, method <> "rescale" ->
       (0 <= height im < m -> exists out, run im m method = Ok out /\ height out = 0)
       /\ (0 <= width im < m -> exists out, run im m method = Ok out /\ width out = 0).
Proof.
  split; [reflexivity|]. intros m Hmethod.
  split; intros Hsmall; rewrite run_crop by (assumption || lia); cbv zeta;
    eexists; (split; [reflexivity|]); unfold crop; cbn [height width];
    rewrite (Z.mod_small _ m) by lia; unfold slice_bound;
    repeat match goal with |- context [?a <? 0] => destruct (Z.ltb_spec a 0) end;
    try lia.
Qed.

(** X16.  Padding a crop back to the size of the source, with zeros, restores
    the frame: the source shows through the window of the crop, at its
    place, and the rest is zero. *)
Theorem crop_then_pad_restores_frame im m method out :
  0 < m -> 0 <= height im -> 0 <= width im -> method <> "rescale" ->
  run im m method = Ok out ->
  exists back,
    ImagePaddingAdvanced.run out (width im) (height im) "constant" = Ok back
    /\ shape back = shape im
    /\ forall n y x c, 0 <= y < height im -> 0 <= x < width im ->
         px back n y x c =
           if ImagePaddingAdvanced.inside (margin (height im) m) (height out) y
              && ImagePaddingAdvanced.inside (margin (width im) m) (width out) x
           then px im n y x c else 0%R.
Proof.
  intros Hm HH HW Hmethod Hrun.
  destruct (crop_result im m method Hm HH HW Hmethod) as (out' & Hrun' & Hshape & Hpx).
  rewrite Hrun in Hrun'. injection Hrun' as <-.
  unfold shape in Hshape. injection Hshape as Eb Eh Ew Ec.
  pose proof (Z.mod_pos_bound (height im) m Hm) as Bh.
  pose proof (Z.mod_pos_bound (width im) m Hm) as Bw.
  unfold margin in *.
  set (rh := height im mod m) in *. set (rw := width im mod m) in *.
  clearbody rh rw.
  assert (Hinside : forall n y x c,
            ImagePaddingAdvanced.inside (rh / 2) (height out) y
            && ImagePaddingAdvanced.inside (rw / 2) (width out) x = true ->
            px out n (y - rh / 2) (x - rw / 2) c = px im n y x c).
  { intros n y x c _. rewrite Hpx. f_equal; lia. }
  destruct (Z.eq_dec rh 0) as [Zh|Zh]; [destruct (Z.eq_dec rw 0) as [Zw|Zw]|].
  - (* nothing was cut, nothing is padded *)
    subst rh rw. change (0 / 2) with 0 in *.
    exists out. split; [apply PaddingProofs.run_unchanged; lia|].
    split; [unfold shape; rewrite Eb, Eh, Ew, Ec, !Z.sub_0_r; reflexivity|].
    intros n y x c Hy Hx.
    assert (Hin : ImagePaddingAdvanced.inside 0 (height out) y
                  && ImagePaddingAdvanced.inside 0 (width out) x = true)
      by (rewrite !PaddingProofs.inside_true by lia; reflexivity).
    rewrite Hin, <- (Hinside n y x c Hin). f_equal; lia.
  - rewrite PaddingProofs.run_padded by lia. cbv zeta. cbn [String.eqb Ascii.eqb Bool.eqb].
    eexists. split; [reflexivity|].
    split; [unfold shape;
            cbn [batch height width channels ImagePaddingAdvanced.pad_constant];
            f_equal; [f_equal; [f_equal; [exact Eb|lia]|lia]|exact Ec]|].
    intros n y x c Hy Hx. cbn [px ImagePaddingAdvanced.pad_constant].
    replace (height im - height out) with rh by lia.
    replace (width im - width out) with rw by lia.
    destruct (_ && _) eqn:E; [now apply Hinside|reflexivity].
  - rewrite PaddingProofs.run_padded by lia. cbv zeta. cbn [String.eqb Ascii.eqb Bool.eqb].
    eexists. split; [reflexivity|].
    split; [unfold shape;
            cbn [batch height width channels ImagePaddingAdvanced.pad_constant];
            f_equal; [f_equal; [f_equal; [exact Eb|lia]|lia]|exact Ec]|].
    intros n y x c Hy Hx. cbn [px ImagePaddingAdvanced.pad_constant].
    replace (height im - height out) with rh by lia.
    replace (width im - width out) with rw by lia.
    destruct (_ && _) eqn:E; [now apply Hinside|reflexivity].
Qed.

End WithResample.

Lemma crop_to_multiple_witness :
  exists out,
    run (Rs := SampleMore.no_resample) numbered 4 "center crop" = Ok out
    /\ shape out = (1, 4, 4, 3)
    /\ px out 0 0 0 0 = 1%R.
Proof.
  destruct (crop_to_multiple (Rs := SampleMore.no_resample) numbered 4 "center crop")
    as (out & Hrun & Hshape & _ & _ & _ & _ & _ & _ & Hpx);
    [lia | cbn; lia | cbn; lia | discriminate |].
  exists out. split; [exact Hrun|]. split; [exact Hshape|].
  rewrite Hpx. reflexivity.
Defined.

Lemma crop_settles_witness :
  exists out again,
    run (Rs := SampleMore.no_resample) numbered 4 "center crop" = Ok out
    /\ run (Rs := SampleMore.no_resample) out 4 "center crop" = Ok again
    /\ same_image again out.
Proof.
  destruct (crop_settles (Rs := SampleMore.no_resample) numbered 4 "center crop")
    as [_ Hagain]; [lia | cbn; lia | cbn; lia | discriminate |].
  destruct (Hagain _ eq_refl) as (again & Hrun & Hsame).
  eexists. exists again. split; [reflexivity|]. split; [exact Hrun|exact Hsame].
Defined.

Lemma crop_edges_witness :
  exists out,
    run (Rs := SampleMore.no_resample) numbered 6 "center crop" = Ok out
    /\ height out = 0 /\ width out = 6.
Proof.
  destruct (crop_edges (Rs := SampleMore.no_resample) numbered "center crop")
    as [_ Hsmall].
  destruct (Hsmall 6 ltac:(discriminate)) as [Hheight _].
  destruct Hheight as (out & Hrun & Hzero); [cbn; lia|].
  exists out. split; [exact Hrun|]. split; [exact Hzero|].
  injection Hrun as <-. reflexivity.
Defined.

Lemma crop_then_pad_restores_frame_witness :
  exists out back,
    run (Rs := SampleMore.no_resample) numbered 4 "center crop" = Ok out
    /\ ImagePaddingAdvanced.run out 7 5 "constant" = Ok back
    /\ shape back = (1, 5, 7, 3)
    /\ px back 0 2 3 0 = 23%R /\ px back 0 2 0 0 = 0%R.
Proof.
  destruct (crop_then_pad_restores_frame (Rs := SampleMore.no_resample)
              numbered 4 "center crop" _ ltac:(lia) ltac:(cbn; lia) ltac:(cbn; lia)
              ltac:(discriminate) eq_refl)
    as (back & Hpad & Hshape & Hpx).
  eexists. exists back. split; [reflexivity|]. split; [exact Hpad|].
  split; [exact Hshape|].
  rewrite !Hpx by (cbn; lia). split; reflexivity.
Defined.

End MultipleProofs.
(** ** SDXLAspectRatio: properties *)

Module AspectProofs.
Import SDXLAspectRatio AspectSpec.
Local Open Scope R_scope.

(** *** [min] with a key *)

Lemma min_from_step {A : Type} (key : A -> R) (best x : A) :
  let b := if FilmGrainNode.Rlt_b (key x) (key best) then x else best in
  (b = x /\ key x < key best) \/ (b = best /\ key best <= key x).
Proof.
  cbv zeta. unfold FilmGrainNode.Rlt_b.
  destruct (Rlt_dec (key x) (key best)); [left|right]; split; (reflexivity || lra).
Qed.

(** The item found comes first among those with the smallest key: the
    items in front of it have larger keys, those behind it keys that are
    not smaller. *)
Lemma min_from_first {A : Type} (key : A -> R) : forall l (best : A),
  exists l1 l2,
    best :: l = l1 ++ min_from key best l :: l2
    /\ Forall (fun x => key (min_from key best l) < key x) l1
    /\ Forall (fun x => key (min_from key best l) <= key x) l2.
Proof.
  induction l as [|x l IH]; intros best; cbn [min_from].
  - exists [], []. repeat split; constructor.
  - destruct (min_from_step key best x) as [[Eb Hlt]|[Eb Hle]]; cbv zeta in Eb; rewrite Eb.
    + destruct (IH x) as (l1 & l2 & Hsplit & H1 & H2).
      exists (best :: l1), l2. split; [cbn; now rewrite Hsplit|]. split; [|exact H2].
      constructor; [|exact H1].
      destruct l1 as [|y l1]; cbn in Hsplit.
      * injection Hsplit as <- _. exact Hlt.
      * injection Hsplit as <- _. inversion H1; subst. lra.
    + destruct (IH best) as (l1 & l2 & Hsplit & H1 & H2).
      destruct l1 as [|y l1]; cbn in Hsplit.
      * injection Hsplit as Ebest El. exists [], (x :: l2).
        split; [cbn [app]; f_equal; [exact Ebest|f_equal; exact El]|].
        split; [constructor|].
        constructor; [rewrite <- Ebest; exact Hle|exact H2].
      * injection Hsplit as <- El. exists (best :: x :: l1), l2.
        split; [cbn [app]; do 2 f_equal; exact El|]. split; [|exact H2].
        inversion H1 as [|? ? Hb H1']; subst.
        constructor; [exact Hb|]. constructor; [lra|exact H1'].
Qed.

Lemma min_from_least {A : Type} (key : A -> R) (best : A) l x :
  In x (best :: l) -> key (min_from key best l) <= key x.
Proof.
  destruct (min_from_first key l best) as (l1 & l2 & -> & H1 & H2).
  intros H. apply in_app_or in H as [H|[<-|H]].
  - rewrite List.Forall_forall in H1. apply H1 in H. lra.
  - lra.
  - rewrite List.Forall_forall in H2. now apply H2.
Qed.

Lemma min_from_in {A : Type} (key : A -> R) (best : A) l :
  In (min_from key best l) (best :: l).
Proof.
  destruct (min_from_first key l best) as (l1 & l2 & -> & _).
  apply in_or_app. right. now left.
Qed.

(** *** The node *)

Lemma run_unfold im :
  height im <> 0%Z ->
  run im =
    let closest := min_from (distance im) (1 / 1, 1024%Z, 1024%Z) (tl aspect_ratios) in
    Ok (snd (fst closest), snd closest).
Proof.
  intros H. unfold run, shape. destruct (Z.eqb_spec (height im) 0); [contradiction|].
  reflexivity.
Qed.

(** X17.  The node returns the width and height of a table entry whose ratio
    is as close to the aspect ratio of the image as any in the table gets
    (which of two equally close ones is not said here), for an image of up to
    [2^24] pixels a side; an image of height 0 has no aspect ratio, and the
    division raises. *)
Theorem run_picks_closest im :
  (height im = 0%Z -> run im = Raise ZeroDivisionError)
  /\ ((0 < height im <= 16777216)%Z -> (0 <= width im <= 16777216)%Z ->
      exists entry,
        run im = Ok (snd (fst entry), snd entry)
        /\ In entry aspect_ratios
        /\ Forall (fun e => distance im entry <= distance im e) aspect_ratios).
Proof.
  split.
  - intros H. unfold run, shape. now rewrite H.
  - intros H _. rewrite (run_unfold im) by lia. cbv zeta.
    eexists. split; [reflexivity|]. split; [apply min_from_in|].
    apply List.Forall_forall. intros e He. now apply min_from_least.
Qed.

(** What the table says of orientation: a ratio of at most 1 comes with a
    width of at most the height, a ratio of at least 1 with a height of at
    most the width, and the ratio 1 with 1024 x 1024. *)
Lemma table_orientation :
  Forall (fun e : R * Z * Z =>
            (fst (fst e) <= 1 -> (snd (fst e) <= snd e)%Z)
            /\ (1 <= fst (fst e) -> (snd e <= snd (fst e))%Z)
            /\ (fst (fst e) = 1 -> snd (fst e) = 1024%Z /\ snd e = 1024%Z))
         aspect_ratios.
Proof.
  unfold aspect_ratios.
  repeat (constructor;
          [cbn [fst snd]; repeat split; intros; first [lia | reflexivity | exfalso; lra]|]).
  constructor.
Qed.

(** X18.  The node keeps the orientation: a portrait image gets a size that is
    not wider than high, a landscape image one that is not higher than
    wide, and a square image gets 1024 x 1024. *)
Theorem run_keeps_orientation im :
  (0 < height im)%Z -> (0 < width im)%Z ->
  exists w h,
    run im = Ok (w, h)
    /\ ((width im <= height im)%Z -> (w <= h)%Z)
    /\ ((height im <= width im)%Z -> (h <= w)%Z)
    /\ (width im = height im -> w = 1024%Z /\ h = 1024%Z).
Proof.
  intros HH HW. rewrite (run_unfold im) by lia. cbv zeta.
  set (entry := min_from (distance im) (1 / 1, 1024%Z, 1024%Z) (tl aspect_ratios)).
  assert (Hin : In entry aspect_ratios) by apply min_from_in.
  assert (Hone : distance im entry <= distance im (1 / 1, 1024%Z, 1024%Z))
    by (apply min_from_least; now left).
  pose proof table_orientation as Htable. rewrite List.Forall_forall in Htable.
  destruct (Htable entry Hin) as (Hp & Hl & Hs).
  unfold distance in Hone. cbn [fst] in Hone.
  assert (HH' : 0 < IZR (height im)) by now apply IZR_lt.
  assert (HW' : 0 < IZR (width im)) by now apply IZR_lt.
  set (a := aspect im) in *.
  assert (Hportrait : (width im <= height im)%Z -> a <= 1).
  { intros H. apply IZR_le in H. unfold a, aspect.
    apply (Rmult_le_reg_r (IZR (height im))); [exact HH'|].
    unfold Rdiv. rewrite Rmult_assoc, Rinv_l by lra. lra. }
  assert (Hlandscape : (height im <= width im)%Z -> 1 <= a).
  { intros H. apply IZR_le in H. unfold a, aspect.
    apply (Rmult_le_reg_r (IZR (height im))); [exact HH'|].
    unfold Rdiv. rewrite Rmult_assoc, Rinv_l by lra. lra. }
  assert (Hclose : forall r, Rabs (r - a) <= Rabs (1 / 1 - a) ->
            (a <= 1 -> r <= 1) /\ (1 <= a -> 1 <= r)).
  { intros r. unfold Rabs.
    destruct (Rcase_abs (r - a)); destruct (Rcase_abs (1 / 1 - a)); intros; split; lra. }
  destruct (Hclose _ Hone) as [Hlow Hhigh].
  exists (snd (fst entry)), (snd entry). split; [reflexivity|].
  split; [intros H; apply Hp, Hlow, Hportrait, H|].
  split; [intros H; apply Hl, Hhigh, Hlandscape, H|].
  intros H. apply Hs.
  assert (a <= 1) by (apply Hportrait; lia).
  assert (1 <= a) by (apply Hlandscape; lia).
  apply Rle_antisym; auto.
Qed.

Lemma min_from_cons {A : Type} (key : A -> R) (best x : A) l :
  min_from key best (x :: l)
  = min_from key (if FilmGrainNode.Rlt_b (key x) (key best) then x else best) l.
Proof. reflexivity. Qed.

Ltac abs_lra :=
  unfold Rabs;
  repeat match goal with |- context [Rcase_abs ?x] => destruct (Rcase_abs x) end;
  lra.

Ltac compare_keys :=
  match goal with
  | |- context [FilmGrainNode.Rlt_b ?x ?y] =>
      first [ rewrite (GrainProofs.Rlt_b_true x y) by abs_lra
            | rewrite (GrainProofs.Rlt_b_false x y) by abs_lra ]
  end.

(** X19.  Every size the table recommends is kept: an image of one of the
    thirteen sizes gets that very size. *)
Theorem recommended_sizes_are_kept im r w h :
  In (r, w, h) aspect_ratios -> width im = w -> height im = h ->
  run im = Ok (w, h).
Proof.
  intros Hin Hw Hh. unfold aspect_ratios in Hin. cbn [In] in Hin.
  repeat (destruct Hin as [Hin|Hin];
          [injection Hin as <- <- <-;
           rewrite (run_unfold im) by (rewrite Hh; discriminate);
           cbv zeta; unfold distance, aspect, aspect_ratios; rewrite Hw, Hh; cbn [tl];
           repeat (rewrite min_from_cons; cbv beta; cbn [fst snd]; compare_keys; cbv iota);
           reflexivity|]).
  contradiction.
Qed.

Lemma run_picks_closest_witness :
  run (blank 512 0) = Raise ZeroDivisionError
  /\ exists entry,
       run (blank 1920 1080) = Ok (snd (fst entry), snd entry)
       /\ distance (blank 1920 1080) entry
          <= distance (blank 1920 1080) (16 / 9, 1344%Z, 768%Z).
Proof.
  split.
  - destruct (run_picks_closest (blank 512 0)) as [Hzero _]. apply Hzero. reflexivity.
  - destruct (run_picks_closest (blank 1920 1080)) as [_ Hsome].
    destruct (Hsome ltac:(cbn; lia) ltac:(cbn; lia)) as (entry & Hrun & _ & Hleast).
    exists entry. split; [exact Hrun|].
    rewrite List.Forall_forall in Hleast. apply Hleast.
    unfold aspect_ratios. do 10 right. left. reflexivity.
Defined.

Lemma run_keeps_orientation_witness :
  exists w h, run (blank 1080 1920) = Ok (w, h) /\ (w <= h)%Z.
Proof.
  destruct (run_keeps_orientation (blank 1080 1920)) as (w & h & Hrun & Hportrait & _);
    [reflexivity | reflexivity |].
  exists w, h. split; [exact Hrun|]. apply Hportrait. cbn. lia.
Defined.

Lemma recommended_sizes_are_kept_witness :
  run (blank 832 1216) = Ok (832%Z, 1216%Z).
Proof.
  apply (recommended_sizes_are_kept (blank 832 1216) (2 / 3));
    [right; left; reflexivity | reflexivity | reflexivity].
Defined.

End AspectProofs.
(** ** FilmGrainNode: further properties *)

Module GrainMore.
Import FilmGrainNode GrainSpec GrainProofs.
Local Open Scope R_scope.

Lemma clamp01_range x : 0 <= clamp01 x <= 1.
Proof.
  unfold clamp01, Rmin, Rmax.
  destruct (Rle_dec 0 x); destruct (Rle_dec 1 _); lra.
Qed.

(** The last step on a pixel is the clamp. *)
Lemma grain_pixel_clamped intensity brightness_impact image_saturation mode p noise :
  exists r g b,
    grain_pixel intensity brightness_impact image_saturation mode p noise
    = (clamp01 r, clamp01 g, clamp01 b).
Proof.
  destruct p as [[r g] b]. destruct noise as [[n0 n1] n2]. unfold grain_pixel.
  destruct (String.eqb mode "Color").
  - destruct (adjust_saturation _ _) as [[r2 g2] b2]. eauto.
  - destruct (String.eqb mode "Black and White"); eauto.
Qed.

Lemma channel_of_clamped r g b c : 0 <= channel (clamp01 r, clamp01 g, clamp01 b) c <= 1.
Proof.
  unfold channel. destruct (c =? 0)%Z; [|destruct (c =? 1)%Z]; apply clamp01_range.
Qed.

Section WithTorch.
Context `{T : Torch}.

(** X20.  For a non-empty image of three channels with entries in [0, 1] and
    inputs in the ranges the node declares, whatever the mode and the noise
    drawn, the result has the shape of the input and all its entries lie
    in [0, 1].  A grain size of 0 is refused by the division that sizes the
    noise, and an image of one or two channels by the read of the channels
    0, 1 and 2. *)
Theorem grain_stays_in_unit_range
    image intensity grain_size grain_saturation brightness_impact image_saturation mode :
  (grain_size = 0 ->
   apply_film_grain image intensity grain_size grain_saturation brightness_impact
     image_saturation mode = Raise ZeroDivisionError)
  /\ (0.5 <= grain_size -> nonempty image -> (1 <= channels image < 3)%Z ->
      apply_film_grain image intensity grain_size grain_saturation brightness_impact
        image_saturation mode = Raise IndexError)
  /\ (channels image = 3%Z -> nonempty image -> in_unit_range image ->
      declared intensity grain_size grain_saturation brightness_impact image_saturation ->
      exists out,
        apply_film_grain image intensity grain_size grain_saturation brightness_impact
          image_saturation mode = Ok out
        /\ shape out = shape image
        /\ in_unit_range out).
Proof.
  split; [|split].
  - intros ->. unfold apply_film_grain. now rewrite (Req_b_true 0 0 eq_refl).
  - intros H _ Hch. unfold apply_film_grain. rewrite (Req_b_false grain_size 0) by lra.
    replace (channels image <? 3)%Z with true by (symmetry; apply Z.ltb_lt; lia).
    reflexivity.
  - intros Hch _ _ (_ & Hgs & _).
    rewrite apply_film_grain_rgb by (lra || exact Hch). cbv zeta.
    eexists. split; [reflexivity|]. split.
    + unfold shape. cbn [batch height width channels]. rewrite Hch.
      now destruct (String.eqb mode "Black and White").
    + intros n y x c. cbn [px].
      destruct (_ || (c <? 3)%Z); [|apply clamp01_range].
      match goal with
      | |- context [grain_pixel ?i ?b ?s ?m ?p ?q] =>
          destruct (grain_pixel_clamped i b s m p q) as (r1 & g1 & b1 & ->)
      end.
      apply channel_of_clamped.
Qed.

(** X21.  In black and white mode a non-empty image of three or more
    channels comes back with three channels, equal at every pixel, for
    every grain size from the node's minimum 0.5 up. *)
Theorem black_and_white_is_gray
    image intensity grain_size grain_saturation brightness_impact image_saturation :
  0.5 <= grain_size -> nonempty image -> (3 <= channels image)%Z ->
  exists out,
    apply_film_grain image intensity grain_size grain_saturation brightness_impact
      image_saturation "Black and White" = Ok out
    /\ shape out = (batch image, height image, width image, 3%Z)
    /\ forall n y x c c', px out n y x c = px out n y x c'.
Proof.
  intros H _ Hch. unfold apply_film_grain. rewrite (Req_b_false grain_size 0) by lra.
  replace (channels image <? 3)%Z with false by (symmetry; apply Z.ltb_ge; exact Hch).
  cbn [String.eqb Ascii.eqb Bool.eqb andb orb].
  eexists. split; [reflexivity|]. split; [reflexivity|].
  intros n y x c c'. cbn [px]. unfold grain_pixel.
  cbn [String.eqb Ascii.eqb Bool.eqb]. unfold channel.
  destruct (c =? 0)%Z, (c =? 1)%Z, (c' =? 0)%Z, (c' =? 1)%Z; reflexivity.
Qed.

End WithTorch.

Lemma grain_stays_in_unit_range_witness :
  apply_film_grain (T := flat_noise) orange 0.4 0 0.3 0.5 1.5 "Color"
    = Raise ZeroDivisionError
  /\ apply_film_grain (T := flat_noise) gray_alpha 0.4 2 0.3 0.5 1.5 "Color"
       = Raise IndexError
  /\ exists out,
       apply_film_grain (T := flat_noise) orange 0.4 2 0.3 0.5 1.5 "Color" = Ok out
       /\ in_unit_range out.
Proof.
  split; [|split].
  - destruct (grain_stays_in_unit_range (T := flat_noise) orange 0.4 0 0.3 0.5 1.5 "Color")
      as [Hzero _].
    apply Hzero. reflexivity.
  - destruct (grain_stays_in_unit_range (T := flat_noise) gray_alpha 0.4 2 0.3 0.5 1.5
                "Color") as (_ & Hfew & _).
    apply Hfew; [lra | unfold nonempty; cbn; lia | cbn; lia].
  - destruct (grain_stays_in_unit_range (T := flat_noise) orange 0.4 2 0.3 0.5 1.5 "Color")
      as (_ & _ & Hsome).
    destruct (Hsome eq_refl ltac:(unfold nonempty; cbn; lia) orange_in_unit_range
                ltac:(unfold declared; lra))
      as (out & Hrun & _ & Hrange).
    exists out. auto.
Defined.

Lemma black_and_white_is_gray_witness :
  exists out,
    apply_film_grain (T := flat_noise) red_alpha 0.4 2 0.3 0.5 1 "Black and White" = Ok out
    /\ shape out = (1%Z, 1%Z, 1%Z, 3%Z)
    /\ px out 0%Z 0%Z 0%Z 0%Z = px out 0%Z 0%Z 0%Z 2%Z.
Proof.
  destruct (black_and_white_is_gray (T := flat_noise) red_alpha 0.4 2 0.3 0.5 1)
    as (out & Hrun & Hshape & Hgray); [lra | unfold nonempty; cbn; lia | cbn; lia |].
  exists out. split; [exact Hrun|]. split; [exact Hshape|apply Hgray].
Defined.

End GrainMore.

(** ** ConsistencyDecoder: properties *)

Module DecoderProofs.
Import ConsistencyDecoder GrainSpec.
Local Open Scope R_scope.

Lemma clamp11_cases x :
  (x <= -1 -> clamp11 x = -1) /\ (1 <= x -> clamp11 x = 1)
  /\ (-1 <= x <= 1 -> clamp11 x = x).
Proof.
  unfold clamp11, Rmin, Rmax.
  destruct (Rle_dec (-1) x); destruct (Rle_dec 1 _); repeat split; intros; lra.
Qed.

Section WithVae.
Context `{V : Vae}.

(** X22.  [decode] needs the key [samples]; with it, what the network returns
    comes back as an image -- channels last, same sizes -- whose entries
    all lie in [0, 1]: a sample value [s] between -1 and 1 becomes
    [(s + 1) / 2], anything below becomes 0 and anything above 1.  An
    exception of the network passes through. *)
Theorem decode_yields_unit_range latent :
  (latent !! "samples" = None -> decode latent = KeyError "samples")
  /\ (forall samples e,
        latent !! "samples" = Some samples -> vae_decode samples = Raise e ->
        decode latent = Raised e)
  /\ (forall samples sample,
        latent !! "samples" = Some samples -> vae_decode samples = Ok sample ->
        exists image,
          decode latent = Returned image
          /\ shape image
             = (s_batch sample, s_height sample, s_width sample, s_channels sample)
          /\ in_unit_range image
          /\ forall b y x c,
               let s := s_at sample b c y x in
               (s <= -1 -> px image b y x c = 0)
               /\ (1 <= s -> px image b y x c = 1)
               /\ (-1 <= s <= 1 -> px image b y x c = (s + 1) / 2)).
Proof.
  unfold decode, _decode. split; [intros ->; reflexivity|].
  split; [intros samples e -> ->; reflexivity|].
  intros samples sample -> ->. eexists. split; [reflexivity|].
  split; [reflexivity|]. unfold to_image. cbn [px]. split.
  - intros b y x c. cbn [px].
    destruct (clamp11_cases (s_at sample b c y x)) as (Hlow & Hhigh & Hmid).
    destruct (Rle_dec (s_at sample b c y x) (-1)) as [H|H]; [rewrite Hlow by exact H; lra|].
    destruct (Rle_dec 1 (s_at sample b c y x)) as [H'|H']; [rewrite Hhigh by exact H'; lra|].
    rewrite Hmid by lra. lra.
  - intros b y x c. cbv zeta.
    destruct (clamp11_cases (s_at sample b c y x)) as (Hlow & Hhigh & Hmid).
    repeat split; intros H; [rewrite Hlow|rewrite Hhigh|rewrite Hmid]; (exact H || lra).
Qed.

End WithVae.

Lemma decode_yields_unit_range_witness :
  decode (V := SampleMore.flat_vae) ∅ = KeyError "samples"
  /\ exists image,
       decode (V := SampleMore.flat_vae) {[ "samples" := 3 ]} = Returned image
       /\ shape image = (1%Z, 2%Z, 2%Z, 3%Z)
       /\ px image 0%Z 0%Z 0%Z 0%Z = 1.
Proof.
  split.
  - destruct (decode_yields_unit_range (V := SampleMore.flat_vae) ∅) as [Hnone _].
    apply Hnone. reflexivity.
  - destruct (decode_yields_unit_range (V := SampleMore.flat_vae) {[ "samples" := 3 ]})
      as (_ & _ & Hsome).
    destruct (Hsome 3 _ eq_refl eq_refl) as (image & Hrun & Hshape & _ & Hpx).
    exists image. split; [exact Hrun|]. split; [exact Hshape|].
    destruct (Hpx 0%Z 0%Z 0%Z 0%Z) as (_ & Hhigh & _). apply Hhigh. cbn. lra.
Defined.

End DecoderProofs.
(** ** GlifVariable: properties *)

Module GlifProofs.
Import PyStr StrSpec TextSpec StripFacts GlifVariable GlifSpec.
Local Open Scope Z_scope.

(** *** Reading a numeral *)

Lemma read_digit c k s acc n after :
  digit_value c = Some k ->
  read_digits (String c s) acc n after = read_digits s (10 * acc + k) (S n) true.
Proof.
  intros H. cbn [read_digits].
  destruct (Ascii.eqb_spec c "_") as [->|_]; [discriminate H|]. now rewrite H.
Qed.

Ltac first_digit :=
  erewrite read_digit by (vm_compute; reflexivity);
  match goal with
  | |- read_digits _ ?acc _ _ = _ =>
      let v := eval vm_compute in acc in change acc with v
  end.

Ltac read_one IH :=
  erewrite read_digit by (vm_compute; reflexivity);
  match goal with
  | |- read_digits _ ?acc _ _ = Some (Z.pos (Pos.of_uint_acc _ ?q), _) =>
      replace acc with (Z.pos q) by lia
  end;
  rewrite IH; f_equal; f_equal; lia.

Lemma read_uint_acc d : forall p n,
  read_digits (NilEmpty.string_of_uint d) (Z.pos p) n true
  = Some (Z.pos (Pos.of_uint_acc d p), (n + Decimal.nb_digits d)%nat).
Proof.
  induction d; intros p n;
    cbn [NilEmpty.string_of_uint Pos.of_uint_acc Decimal.nb_digits];
    [cbn [read_digits]; f_equal; f_equal; lia|..]; read_one IHd.
Qed.

(** Leading zeros count as digits and add nothing. *)
Lemma read_uint d : forall n,
  read_digits (NilEmpty.string_of_uint d) 0 n true
  = Some (Z.of_N (Pos.of_uint d), (n + Decimal.nb_digits d)%nat).
Proof.
  induction d; intros n;
    cbn [NilEmpty.string_of_uint Pos.of_uint Decimal.nb_digits];
    [cbn [read_digits]; f_equal; f_equal; lia
    | first_digit; rewrite IHd; f_equal; f_equal; lia
    | first_digit; rewrite read_uint_acc; cbn [Z.of_N]; f_equal; f_equal; lia ..].
Qed.

Lemma read_numeral d :
  d <> Decimal.Nil ->
  read_digits (NilEmpty.string_of_uint d) 0 0 false
  = Some (Z.of_uint d, Decimal.nb_digits d).
Proof.
  intros Hd. unfold Z.of_uint.
  destruct d; [contradiction|..];
    cbn [NilEmpty.string_of_uint Pos.of_uint Decimal.nb_digits];
    first_digit; first [rewrite read_uint | rewrite read_uint_acc]; reflexivity.
Qed.

Lemma read_digits_foreign c b : foreign c = true ->
  forall a acc n after, read_digits (a +:+ String c b) acc n after = None.
Proof.
  unfold foreign. intros Hc.
  destruct (digit_value c) as [k|] eqn:Ed; [discriminate Hc|].
  apply negb_true_iff in Hc.
  induction a as [|x a IH]; intros acc n after; cbn [append read_digits].
  - now rewrite Hc, Ed.
  - destruct (Ascii.eqb x "_"); [destruct after; [apply IH|reflexivity]|].
    destruct (digit_value x); [apply IH|reflexivity].
Qed.

(** *** Text without whitespace *)

Lemma no_space_rstrip s : no_space s = true -> rstrip s = s.
Proof.
  induction s as [|c s IH]; [reflexivity|]. cbn [no_space rstrip].
  intros H. apply andb_prop in H as [Hc Hs]. apply negb_true_iff in Hc.
  rewrite (IH Hs), Hc. now destruct s.
Qed.

Lemma no_space_strip s : no_space s = true -> strip s = s.
Proof.
  intros H. unfold strip.
  replace (lstrip s) with s; [now apply no_space_rstrip|].
  destruct s as [|c s]; [reflexivity|]. cbn [no_space] in H.
  apply andb_prop in H as [Hc _]. apply negb_true_iff in Hc. cbn [lstrip]. now rewrite Hc.
Qed.

Lemma uint_no_space d : no_space (NilEmpty.string_of_uint d) = true.
Proof. induction d; cbn [NilEmpty.string_of_uint no_space]; [reflexivity|exact IHd..]. Qed.

Lemma uint_string d :
  d <> Decimal.Nil -> NilZero.string_of_uint d = NilEmpty.string_of_uint d.
Proof. destruct d; [contradiction|reflexivity..]. Qed.

Section WithBuiltins.
Context `{B : Builtins}.

Lemma within_limit digits :
  accepted digits ->
  negb (Nat.eqb int_max_str_digits 0) && Nat.ltb int_max_str_digits digits = false.
Proof.
  intros [->|H]; [reflexivity|].
  apply andb_false_iff. right. apply Nat.ltb_ge. exact H.
Qed.

Lemma int_of_unsigned d :
  d <> Decimal.Nil -> accepted (Decimal.nb_digits d) ->
  int_of_stripped (NilEmpty.string_of_uint d) = Some (Z.of_uint d).
Proof.
  intros Hd Hlimit. pose proof (read_numeral d Hd) as Hread.
  unfold int_of_stripped.
  destruct d; [contradiction|..]; cbn [NilEmpty.string_of_uint] in *;
    rewrite Hread, within_limit by exact Hlimit; reflexivity.
Qed.

Lemma int_of_negative d :
  d <> Decimal.Nil -> accepted (Decimal.nb_digits d) ->
  int_of_stripped (String "-" (NilEmpty.string_of_uint d)) = Some (- Z.of_uint d).
Proof.
  intros Hd Hlimit. unfold int_of_stripped.
  rewrite (read_numeral d Hd), within_limit by exact Hlimit. reflexivity.
Qed.

Lemma int_of_decimal z :
  accepted (numeral_digits z) -> int_of_stripped (decimal z) = Some z.
Proof.
  unfold numeral_digits, decimal.
  pose proof (DecimalZ.of_to z) as Hz.
  destruct z as [|p|p]; cbn [Z.to_int NilZero.string_of_int] in *; intros Hlimit.
  - change (NilZero.string_of_uint Decimal.zero)
      with (NilEmpty.string_of_uint (Decimal.D0 Decimal.Nil)).
    rewrite int_of_unsigned by (discriminate || exact Hlimit). reflexivity.
  - rewrite uint_string by apply Unsigned.to_uint_nonnil.
    rewrite int_of_unsigned by (apply Unsigned.to_uint_nonnil || exact Hlimit).
    f_equal. exact Hz.
  - rewrite uint_string by apply Unsigned.to_uint_nonnil.
    rewrite int_of_negative by (apply Unsigned.to_uint_nonnil || exact Hlimit).
    f_equal. exact Hz.
Qed.

Lemma decimal_plain z : no_space (decimal z) = true /\ unset (decimal z) = false.
Proof.
  unfold decimal.
  destruct z as [|p|p]; cbn [Z.to_int NilZero.string_of_int]; [split; reflexivity|..];
    rewrite uint_string by apply Unsigned.to_uint_nonnil;
    pose proof (Unsigned.to_uint_nonnil p) as Hd;
    pose proof (uint_no_space (Pos.to_uint p)) as Hs;
    destruct (Pos.to_uint p); try contradiction;
    (split; [exact Hs|reflexivity]).
Qed.

(** X25.  [int(str(z)) == z], through the node: given the decimal numeral of an
    integer, the node returns that numeral as the text and the integer as
    the number, whatever the fallback says -- provided the numeral is not
    longer than the interpreter accepts. *)
Theorem do_it_reads_numerals z fallback :
  accepted (numeral_digits z) ->
  fst (do_it (decimal z) fallback) = (decimal z, z).
Proof.
  intros Hlimit. destruct (decimal_plain z) as [Hs Hu].
  unfold do_it. cbv zeta. rewrite (no_space_strip _ Hs).
  fold (unset (decimal z)). rewrite Hu. cbn [fst].
  now rewrite (int_of_decimal z Hlimit).
Qed.

Lemma int_of_stripped_none s :
  (forall body, s = String "-" body \/ s = String "+" body \/ s = body ->
                read_digits body 0 0 false = None) ->
  int_of_stripped s = None.
Proof.
  intros H. unfold int_of_stripped.
  destruct s as [|x s']; [now rewrite (H "") by auto|].
  destruct x as [[] [] [] [] [] [] [] []];
    match goal with
    | |- context [read_digits ?body 0 0 false] => now rewrite (H body) by auto
    end.
Qed.

(** X26.  A text that is no number gives the integer 0: one character that is
    neither a digit nor an underscore, anywhere but for a sign in front, is
    enough. *)
Theorem do_it_gives_zero_for_text a c b fallback :
  let variable := a +:+ String c b in
  trimmed variable -> unset variable = false ->
  foreign c = true -> (a = "" -> c <> "-"%char /\ c <> "+"%char) ->
  fst (do_it variable fallback) = (variable, 0).
Proof.
  intros variable Htrim Hset Hc Hsign. unfold do_it. cbv zeta.
  rewrite Htrim. fold (unset variable). rewrite Hset. cbn [fst].
  rewrite int_of_stripped_none; [reflexivity|].
  intros body [E|[E|E]].
  - destruct a as [|x a]; cbn [append] in E.
    + injection E as E _. now destruct (Hsign eq_refl).
    + injection E as _ <-. now apply read_digits_foreign.
  - destruct a as [|x a]; cbn [append] in E.
    + injection E as E _. now destruct (Hsign eq_refl).
    + injection E as _ <-. now apply read_digits_foreign.
  - subst body. now apply read_digits_foreign.
Qed.

(** X27.  The text the node returns is trimmed.  A variable left blank or as a
    placeholder in braces counts as not given at all: the node answers from
    the fallback, as for an empty variable.  Any other variable is
    returned trimmed, and the fallback plays no part. *)
Theorem do_it_falls_back variable fallback :
  trimmed (fst (fst (do_it variable fallback)))
  /\ (unset (strip variable) = true ->
      do_it variable fallback = do_it "" fallback
      /\ fst (fst (do_it variable fallback)) = strip fallback)
  /\ (unset (strip variable) = false ->
      fst (fst (do_it variable fallback)) = strip variable
      /\ forall fallback', do_it variable fallback' = do_it variable fallback).
Proof.
  unfold do_it. cbv zeta. fold (unset (strip variable)). fold (unset (strip "")).
  split; [|split].
  - cbn [fst]. destruct (unset (strip variable)); apply strip_trimmed.
  - intros ->. split; reflexivity.
  - intros ->. split; reflexivity.
Qed.

End WithBuiltins.

Lemma do_it_reads_numerals_witness :
  do_it (B := SampleMore.builtins) "-2048" "7" = ("-2048", -2048, 0).
Proof.
  pose proof (do_it_reads_numerals (B := SampleMore.builtins) (-2048) "7") as H.
  rewrite (surjective_pairing (do_it (B := SampleMore.builtins) "-2048" "7")).
  change (decimal (-2048)) with "-2048" in H.
  rewrite H by (right; vm_compute; lia). reflexivity.
Defined.

Lemma do_it_gives_zero_for_text_witness :
  fst (do_it (B := SampleMore.builtins) "12.5" "7") = ("12.5", 0).
Proof.
  apply (do_it_gives_zero_for_text (B := SampleMore.builtins) "12" "." "5" "7");
    [reflexivity | reflexivity | reflexivity | discriminate].
Defined.

Lemma do_it_falls_back_witness :
  do_it (B := SampleMore.builtins) " {seed} " " 42 " = ("42", 42, 42)
  /\ do_it (B := SampleMore.builtins) " 8 " " 42 " = ("8", 8, 8).
Proof.
  destruct (do_it_falls_back (B := SampleMore.builtins) " {seed} " " 42 ")
    as (_ & Hunset & _).
  destruct (do_it_falls_back (B := SampleMore.builtins) " 8 " " 42 ")
    as (_ & _ & Hset).
  split.
  - destruct (Hunset eq_refl) as [-> _]. reflexivity.
  - destruct (Hset eq_refl) as [_ Hany]. rewrite <- (Hany ""). reflexivity.
Defined.

End GlifProofs.
